(** * Balloon placement, zone codes and text matching of the FAI drawing tool

    A shallow embedding of the core of the drawing-annotation server:
    the fuzzy text matcher ([findTextPosition] and its wrappers), the
    annotation phase ([generateAnnotations]), the zone calculator
    ([calculateDrawingZone]), the leader calculator ([computeLeaderOffset])
    and the balloon placer ([computeSmartBalloonPlacement],
    [computePerimeterBalloonLayout], [calculateBalloonSize]).

    Numbers.  A JavaScript number is modelled as an exact rational extended
    with [+Infinity], [-Infinity] and [NaN]; rounding of IEEE doubles and the
    sign of zero are not modelled.  Where the source only ever sees finite
    values (page coordinates, balloon geometry) the model uses [Q] directly.
    Counts and indices are [Z].  [Math.hypot(a, b) < c] is decided on the
    squares: it holds exactly when [0 < c] and [a*a + b*b < c*c]. *)

From Stdlib Require Import ZArith QArith Qround Qminmax Qabs Qpower Qreduction.
From Stdlib Require Import Lia Lqa List Bool.
From Stdlib Require Import Ascii String DecimalString DecimalZ DecimalPos Sorted FinFun.
From Stdlib Require Import Permutation.
Import ListNotations.

Local Open Scope Q_scope.

(** ** Numbers *)

Module JS.

(** A value extended with the three non-finite numbers. [ext Q] is a
    JavaScript number, [ext Z] one that is known to be integral (the result
    of [Math.floor]). *)
Inductive ext (A : Type) : Type :=
| Fin (a : A)
| PInf
| NInf
| NaN.

Arguments Fin {A} a.
Arguments PInf {A}.
Arguments NInf {A}.
Arguments NaN {A}.

Definition number := ext Q.
Definition integral := ext Z.

Definition Qltb (a b : Q) : bool := negb (Qle_bool b a).

(** [Number.isFinite] *)
Definition isFinite {A} (n : ext A) : bool :=
  match n with Fin _ => true | _ => false end.

(** [a < b] *)
Definition ltb (a b : number) : bool :=
  match a, b with
  | NaN, _ | _, NaN => false
  | Fin p, Fin q => Qltb p q
  | NInf, NInf => false
  | NInf, _ => true
  | _, NInf => false
  | PInf, _ => false
  | Fin _, PInf => true
  end.

(** [a <= b] *)
Definition leb (a b : number) : bool :=
  match a, b with
  | NaN, _ | _, NaN => false
  | Fin p, Fin q => Qle_bool p q
  | NInf, _ => true
  | _, NInf => false
  | _, PInf => true
  | PInf, Fin _ => false
  end.

(** [a > b] and [a >= b] *)
Definition gtb (a b : number) : bool := ltb b a.
Definition geb (a b : number) : bool := leb b a.

(** [a - b] *)
Definition sub (a b : number) : number :=
  match a, b with
  | NaN, _ | _, NaN => NaN
  | Fin p, Fin q => Fin (p - q)
  | PInf, PInf | NInf, NInf => NaN
  | PInf, _ => PInf
  | NInf, _ => NInf
  | Fin _, PInf => NInf
  | Fin _, NInf => PInf
  end.

(** The infinity with the sign of [p * s], for [p] non-zero. *)
Definition signedInf (positive : bool) : number :=
  if positive then PInf else NInf.

(** [a / b].  Zero is taken as [+0]: a non-zero finite value over zero is
    the infinity of its sign, [0 / 0] is [NaN]. *)
Definition div (a b : number) : number :=
  match a, b with
  | NaN, _ | _, NaN => NaN
  | Fin p, Fin q =>
      if Qeq_bool q 0
      then (if Qeq_bool p 0 then NaN else signedInf (Qltb 0 p))
      else Fin (p / q)
  | Fin _, _ => Fin 0
  | PInf, Fin q => signedInf (Qle_bool 0 q)
  | NInf, Fin q => signedInf (negb (Qle_bool 0 q))
  | _, _ => NaN
  end.

(** [Math.max(a, b)] *)
Definition max (a b : number) : number :=
  match a, b with
  | NaN, _ | _, NaN => NaN
  | PInf, _ | _, PInf => PInf
  | NInf, n | n, NInf => n
  | Fin p, Fin q => if Qle_bool p q then Fin q else Fin p
  end.

(** [Math.floor] *)
Definition floor (a : number) : integral :=
  match a with
  | Fin q => Fin (Qfloor q)
  | PInf => PInf
  | NInf => NInf
  | NaN => NaN
  end.

(** [Math.min(a, b)] on integral numbers *)
Definition imin (a b : integral) : integral :=
  match a, b with
  | NaN, _ | _, NaN => NaN
  | NInf, _ | _, NInf => NInf
  | PInf, n | n, PInf => n
  | Fin p, Fin q => Fin (Z.min p q)
  end.

(** [a + b] on integral numbers *)
Definition iadd (a b : integral) : integral :=
  match a, b with
  | NaN, _ | _, NaN => NaN
  | Fin p, Fin q => Fin (p + q)%Z
  | PInf, NInf | NInf, PInf => NaN
  | PInf, _ | _, PInf => PInf
  | NInf, _ | _, NInf => NInf
  end.

(** [arr[i]] for a number [i]: the element when [i] is an index of the
    array, [undefined] ([None]) otherwise (negative, too large, not finite). *)
Definition index {A} (arr : list A) (i : integral) : option A :=
  match i with
  | Fin z => if (z <? 0)%Z then None else nth_error arr (Z.to_nat z)
  | _ => None
  end.

(** Decimal digits of an integer, as [String(n)] prints it. *)
Definition intToString (z : Z) : string :=
  NilZero.string_of_int (Z.to_int z).

(** [String(n)] for an integral number.  (JavaScript turns to exponent
    notation from 1e21 on; the model prints all digits.) *)
Definition toString (n : integral) : string :=
  match n with
  | Fin z => intToString z
  | PInf => "Infinity"
  | NInf => "-Infinity"
  | NaN => "NaN"
  end.

(** A value interpolated in a template string: [undefined] prints as such. *)
Definition template (s : option string) : string :=
  match s with Some s => s | None => "undefined" end.

End JS.

Import JS.

(** A call either returns a value or throws. *)
Inductive outcome (E A : Type) : Type :=
| Returns (a : A)
| Throws (e : E).

Arguments Returns {E A} a.
Arguments Throws {E A} e.

(** ** Zone calculator *)

Inductive ZoneError : Type := InvalidPageDimensions.

Definition columns : list string := ["A"; "B"; "C"; "D"; "E"; "F"; "G"; "H"]%string.

Definition numRows : Z := 8.

(** [const columnIndex = Math.min(Math.floor(x / columnWidth), columns.length - 1)] *)
Definition zoneColumnIndex (x pageWidth : number) : integral :=
  let columnWidth := div pageWidth (Fin (inject_Z (Z.of_nat (List.length columns)))) in
  imin (floor (div x columnWidth)) (Fin (Z.of_nat (List.length columns) - 1)%Z).

(** [const rowIndex = Math.min(Math.floor((pageHeight - y) / rowHeight), numRows - 1)] *)
Definition zoneRowIndex (y pageHeight : number) : integral :=
  let rowHeight := div pageHeight (Fin (inject_Z numRows)) in
  imin (floor (div (sub pageHeight y) rowHeight)) (Fin (numRows - 1)%Z).

Definition calculateDrawingZone (x y pageWidth pageHeight : number)
  : outcome ZoneError string :=
  if negb (isFinite pageWidth) || leb pageWidth (Fin 0)
     || negb (isFinite pageHeight) || leb pageHeight (Fin 0)
  then Throws InvalidPageDimensions
  else
    let columnIndex := zoneColumnIndex x pageWidth in
    let column := index columns columnIndex in
    let rowIndex := zoneRowIndex y pageHeight in
    let row := iadd rowIndex (Fin 1%Z) in
    Returns (template column ++ "-" ++ toString row)%string.

(** The 64 zone codes, ["A-1"] to ["H-8"]. *)
Definition zoneCode (c r : nat) : string :=
  (nth c columns "undefined" ++ "-" ++ intToString (Z.of_nat r + 1))%string.

Definition zoneCodes : list string :=
  flat_map (fun c => map (zoneCode c) (seq 0 8)) (seq 0 8).

(** The letter of a zone code and its place in the alphabet. *)
Definition zoneLetter (code : string) : nat :=
  match code with
  | String a _ => nat_of_ascii a
  | EmptyString => 0
  end.

(** The row number of a zone code "L-d" with a one-digit row. *)
Definition zoneRow (code : string) : nat :=
  match code with
  | String _ (String _ (String d _)) => nat_of_ascii d - 48
  | _ => 0
  end.

(** A number that passes the guard of the zone calculator. *)
Definition finitePositive (n : number) : Prop :=
  match n with Fin q => 0 < q | _ => False end.

(** ** Leader calculator *)

Inductive HorizontalDir := Left | Right.
Inductive VerticalDir := Up | Down.

Record Direction : Type := mkDirection {
  horizontal : option HorizontalDir;
  vertical : option VerticalDir
}.

Record Leader : Type := mkLeader { leaderX : Q; leaderY : Q }.

Definition MIN_LEADER_DISTANCE : Q := 5.

(** [Math.hypot(a, b) < c] *)
Definition hypot_lt (a b c : Q) : bool :=
  Qltb 0 c && Qltb (a * a + b * b) (c * c).

Definition isRight (d : HorizontalDir) : bool :=
  match d with Right => true | Left => false end.

Definition isDown (d : VerticalDir) : bool :=
  match d with Down => true | Up => false end.

Definition leaderAt (xPosition yPosition : Q) (horizontalDir : HorizontalDir)
    (verticalDir : VerticalDir) (horizontalOffset verticalOffset : Q) : Leader :=
  {| leaderX := xPosition + (if isRight horizontalDir then horizontalOffset else - horizontalOffset);
     leaderY := yPosition + (if isDown verticalDir then verticalOffset else - verticalOffset) |}.

(** The [while (distance < MIN_LEADER_DISTANCE)] loop, entered with the
    current offsets and leader point; [fuel] bounds the iterations and
    [None] means the bound was reached with the loop still running.  Here
    and in [computeLeaderOffset] below the sums are exact rationals, which
    is how the extraction route is followed, whose positions lie on the
    page; [Binary64.computeLeaderOffset] rounds every sum to a double as
    the source does, and decides what holds for every position. *)
Fixpoint leaderLoop (fuel : nat) (xPosition yPosition : Q)
    (horizontalDir : HorizontalDir) (verticalDir : VerticalDir)
    (horizontalOffset verticalOffset : Q) (l : Leader) : option Leader :=
  if hypot_lt (leaderX l - xPosition) (leaderY l - yPosition) MIN_LEADER_DISTANCE
  then
    match fuel with
    | O => None
    | S fuel' =>
        let horizontalOffset := horizontalOffset + 10 in
        let verticalOffset := verticalOffset + 5 in
        leaderLoop fuel' xPosition yPosition horizontalDir verticalDir
          horizontalOffset verticalOffset
          (leaderAt xPosition yPosition horizontalDir verticalDir
             horizontalOffset verticalOffset)
    end
  else Some l.

Definition computeLeaderOffset (fuel : nat) (xPosition yPosition : Q)
    (direction : option Direction) : option Leader :=
  let horizontalOffset := 30 in
  let verticalOffset := 15 in
  let horizontalDir :=
    match direction with
    | Some {| horizontal := Some h |} => h
    | _ => Right
    end in
  let verticalDir :=
    match direction with
    | Some {| vertical := Some v |} => v
    | _ => Down
    end in
  leaderLoop fuel xPosition yPosition horizontalDir verticalDir
    horizontalOffset verticalOffset
    (leaderAt xPosition yPosition horizontalDir verticalDir
       horizontalOffset verticalOffset).

(** ** Leader calculator in double precision

    The numbers of the source are doubles.  A finite double is a rational;
    [round] gives the double nearest to a rational, the one with the even
    last digit of two that are equally near, and the infinity of its sign
    beyond the largest double.  The sign of zero is not kept.  Sums and
    differences are the rounded exact ones. *)

Module Binary64.

(** [floor (log2 |q|)], for [q] other than 0. *)
Definition exponent (q : Q) : Z :=
  let e := (Z.log2 (Z.abs (Qnum q)) - Z.log2 (Zpos (Qden q)))%Z in
  if Qle_bool (2 ^ e) (Qabs q) then e else (e - 1)%Z.

(** The nearest integer, the even one of two that are equally near. *)
Definition nearestEven (q : Q) : Z :=
  let f := Qfloor q in
  let r := q - inject_Z f in
  if Qltb r (1 # 2) then f
  else if Qltb (1 # 2) r then (f + 1)%Z
  else if Z.even f then f else (f + 1)%Z.

(** The distance between the doubles around [q]: 52 binary digits below
    the leading one, and [2 ^ -1074] for the subnormal numbers. *)
Definition ulp (q : Q) : Q := 2 ^ (Z.max (exponent q) (-1022) - 52).

(** The double nearest to [q]. *)
Definition round (q : Q) : number :=
  if Qeq_bool q 0 then Fin 0
  else
    let r := inject_Z (nearestEven (q / ulp q)) * ulp q in
    if Qle_bool (2 ^ 1024) (Qabs r)
    then (if Qltb 0 q then PInf else NInf)
    else Fin (Qred r).

(** [- a], [a + b] and [a - b] *)
Definition neg (a : number) : number :=
  match a with
  | Fin p => Fin (- p)
  | PInf => NInf
  | NInf => PInf
  | NaN => NaN
  end.

Definition add (a b : number) : number :=
  match a, b with
  | NaN, _ | _, NaN => NaN
  | Fin p, Fin q => round (p + q)
  | PInf, NInf | NInf, PInf => NaN
  | PInf, _ | _, PInf => PInf
  | NInf, _ | _, NInf => NInf
  end.

Definition sub (a b : number) : number := add a (neg b).

(** [Math.hypot(a, b) < c] for a rational [c]: the value is [Infinity] when
    an argument is infinite and [NaN] when one is [NaN], neither of which is
    below [c]; for finite arguments the comparison is decided on the
    squares. *)
Definition hypotLt (a b : number) (c : Q) : bool :=
  match a, b with
  | Fin p, Fin q => hypot_lt p q c
  | _, _ => false
  end.

Record Leader : Type := mkLeader { leaderX : number; leaderY : number }.

Definition leaderAt (xPosition yPosition : number) (horizontalDir : HorizontalDir)
    (verticalDir : VerticalDir) (horizontalOffset verticalOffset : number) : Leader :=
  {| leaderX := add xPosition
                  (if isRight horizontalDir then horizontalOffset else neg horizontalOffset);
     leaderY := add yPosition
                  (if isDown verticalDir then verticalOffset else neg verticalOffset) |}.

(** The [while (distance < MIN_LEADER_DISTANCE)] loop; [fuel] bounds the
    iterations and [None] means the bound was reached with the loop still
    running. *)
Fixpoint leaderLoop (fuel : nat) (xPosition yPosition : number)
    (horizontalDir : HorizontalDir) (verticalDir : VerticalDir)
    (horizontalOffset verticalOffset : number) (l : Leader) : option Leader :=
  if hypotLt (sub (leaderX l) xPosition) (sub (leaderY l) yPosition) MIN_LEADER_DISTANCE
  then
    match fuel with
    | O => None
    | S fuel' =>
        let horizontalOffset := add horizontalOffset (Fin 10) in
        let verticalOffset := add verticalOffset (Fin 5) in
        leaderLoop fuel' xPosition yPosition horizontalDir verticalDir
          horizontalOffset verticalOffset
          (leaderAt xPosition yPosition horizontalDir verticalDir
             horizontalOffset verticalOffset)
    end
  else Some l.

Definition computeLeaderOffset (fuel : nat) (xPosition yPosition : number)
    (direction : option Direction) : option Leader :=
  let horizontalOffset := Fin 30 in
  let verticalOffset := Fin 15 in
  let horizontalDir :=
    match direction with
    | Some {| horizontal := Some h |} => h
    | _ => Right
    end in
  let verticalDir :=
    match direction with
    | Some {| vertical := Some v |} => v
    | _ => Down
    end in
  leaderLoop fuel xPosition yPosition horizontalDir verticalDir
    horizontalOffset verticalOffset
    (leaderAt xPosition yPosition horizontalDir verticalDir
       horizontalOffset verticalOffset).

End Binary64.

(** ** Balloon diameter *)

Definition calculateBalloonSize (totalCharacteristics : Z) : Z :=
  if (totalCharacteristics <=? 20)%Z then 24
  else if (totalCharacteristics <=? 40)%Z then 20
  else if (totalCharacteristics <=? 60)%Z then 18
  else if (totalCharacteristics <=? 80)%Z then 16
  else 14%Z.

(** ** Text matcher

    Strings.  A JavaScript string is a sequence of UTF-16 code units; the
    model covers the strings whose code units lie below 256 (Latin-1), one
    [ascii] per code unit, which holds [U+00B1] (plus-minus), [U+00B0]
    (degree) and [U+00D8] (O with stroke).  [U+2205] (empty set) lies
    outside: a text that holds it, or any other character from 256 on, is
    not covered by the model. *)

Local Open Scope string_scope.

Record PDFTextItem : Type := mkTextItem {
  itemText : string;
  itemX : Q;
  itemY : Q;
  itemWidth : Q;
  itemHeight : Q
}.

Record PDFPageInfo : Type := mkPageInfo {
  pageNumber : Z;
  pageWidth : Q;
  pageHeight : Q;
  textItems : list PDFTextItem
}.

Record TextMatch : Type := mkTextMatch {
  text : string;
  page : Z;
  x : Q;
  y : Q;
  width : Q;
  height : Q;
  confidence : number
}.

Definition codeOf (c : ascii) : nat := nat_of_ascii c.

Definition between (lo hi n : nat) : bool := (lo <=? n)%nat && (n <=? hi)%nat.

(** [String.prototype.toLowerCase] on one Latin-1 code unit: [A-Z] and the
    capitals [U+00C0]-[U+00DE] other than the multiplication sign [U+00D7]. *)
Definition lowerChar (c : ascii) : ascii :=
  let n := codeOf c in
  if between 65 90 n || (between 192 222 n && negb (n =? 215)%nat)
  then ascii_of_nat (n + 32)
  else c.

Fixpoint toLowerCase (s : string) : string :=
  match s with
  | EmptyString => EmptyString
  | String c s' => String (lowerChar c) (toLowerCase s')
  end.

(** The class [\s] (and the characters [trim] removes) below 256. *)
Definition isSpace (c : ascii) : bool :=
  let n := codeOf c in
  between 9 13 n || (n =? 32)%nat || (n =? 160)%nat.

(** The class [\w] *)
Definition isWord (c : ascii) : bool :=
  let n := codeOf c in
  between 48 57 n || between 65 90 n || (n =? 95)%nat || between 97 122 n.

(** [.replace(/\s+/g, ' ')]: [inRun] tells that the previous character
    belonged to the run of white space already replaced. *)
Fixpoint collapseSpaces (inRun : bool) (s : string) : string :=
  match s with
  | EmptyString => EmptyString
  | String c s' =>
      if isSpace c
      then (if inRun then collapseSpaces true s' else String " " (collapseSpaces true s'))
      else String c (collapseSpaces false s')
  end.

(** The characters below 256 kept by the second [replace]: word
    characters, white space, the dot, plus-minus (177), degree (176) and O
    with stroke (216).  The class of the source lists [U+2205] as well,
    which no string of the model holds. *)
Definition isKept (c : ascii) : bool :=
  let n := codeOf c in
  isWord c || isSpace c || (n =? 46)%nat || (n =? 177)%nat || (n =? 176)%nat
  || (n =? 216)%nat.

Fixpoint keepChars (s : string) : string :=
  match s with
  | EmptyString => EmptyString
  | String c s' => if isKept c then String c (keepChars s') else keepChars s'
  end.

Fixpoint trimStart (s : string) : string :=
  match s with
  | String c s' => if isSpace c then trimStart s' else s
  | EmptyString => EmptyString
  end.

(** White space at the end of the string is dropped: a character is kept
    when it is not white space or something is kept after it. *)
Fixpoint trimEnd (s : string) : string :=
  match s with
  | EmptyString => EmptyString
  | String c s' =>
      match trimEnd s' with
      | EmptyString => if isSpace c then EmptyString else String c EmptyString
      | rest => String c rest
      end
  end.

Definition trim (s : string) : string := trimEnd (trimStart s).

Definition cleanText (s : string) : string :=
  trim (keepChars (collapseSpaces false (toLowerCase s))).

(** Every character of a string passes a test. *)
Fixpoint allChars (test : ascii -> bool) (s : string) : bool :=
  match s with
  | EmptyString => true
  | String c s' => test c && allChars test s'
  end.

Definition firstChar (s : string) : option ascii :=
  match s with
  | EmptyString => None
  | String c _ => Some c
  end.

Fixpoint lastChar (s : string) : option ascii :=
  match s with
  | EmptyString => None
  | String c EmptyString => Some c
  | String _ s' => lastChar s'
  end.

(** The characters a cleaned text is made of: [a-z], [0-9], the underscore,
    the space, the dot, plus-minus (177) and degree (176). *)
Definition cleanAlphabet (c : ascii) : bool :=
  let n := codeOf c in
  between 97 122 n || between 48 57 n || (n =? 95)%nat || (n =? 32)%nat
  || (n =? 46)%nat || (n =? 177)%nat || (n =? 176)%nat.

(** A character that [toLowerCase] leaves alone and that, if it is white
    space, is the space. *)
Definition normalChar (c : ascii) : bool :=
  Ascii.eqb (lowerChar c) c && (negb (isSpace c) || Ascii.eqb c " ").

(** [s.includes(t)] *)
Fixpoint includes (s t : string) : bool :=
  prefix t s ||
  match s with
  | EmptyString => false
  | String _ s' => includes s' t
  end.

(** One row of the matrix of [levenshteinDistance]: the cells [matrix[i][j]]
    for [j] from the current column on, given the row above from column
    [j-1] on and the cell to the left. *)
Fixpoint levRow (c2 : ascii) (str1 : list ascii) (above : list nat) (leftCell : nat)
  : list nat :=
  match str1, above with
  | c1 :: str1', diag :: ((upper :: _) as above') =>
      let cell :=
        if Ascii.eqb c2 c1 then diag
        else Nat.min (diag + 1) (Nat.min (leftCell + 1) (upper + 1)) in
      cell :: levRow c2 str1' above' cell
  | _, _ => []
  end.

(** The rows [i], [i+1], ... of the matrix, one per character of [str2];
    the result is the last row. *)
Fixpoint levRows (str2 str1 : list ascii) (i : nat) (above : list nat) : list nat :=
  match str2 with
  | [] => above
  | c2 :: str2' => levRows str2' str1 (S i) (i :: levRow c2 str1 above i)
  end.

Definition levenshteinDistance (str1 str2 : string) : nat :=
  let s1 := list_ascii_of_string str1 in
  let s2 := list_ascii_of_string str2 in
  last (levRows s2 s1 1 (seq 0 (S (List.length s1)))) 0%nat.

(** The cells of a row of the matrix from column [j] on are bounded by the
    larger of the row index [i] and the column index. *)
Definition cellsBounded (i j : nat) (row : list nat) : Prop :=
  forall k v, nth_error row k = Some v -> (v <= Nat.max i (j + k))%nat.

Definition ofNat (n : nat) : number := Fin (inject_Z (Z.of_nat n)).

Definition calculateSimilarity (str1 str2 : string) : number :=
  let longer := if (String.length str2 <? String.length str1)%nat then str1 else str2 in
  let shorter := if (String.length str2 <? String.length str1)%nat then str2 else str1 in
  if (String.length longer =? 0)%nat then Fin 1
  else
    let editDistance := levenshteinDistance longer shorter in
    div (sub (ofNat (String.length longer)) (ofNat editDistance))
        (ofNat (String.length longer)).

Definition matchOf (pageInfo : PDFPageInfo) (textItem : PDFTextItem) (c : number)
  : TextMatch :=
  {| text := itemText textItem;
     page := (pageNumber pageInfo - 1)%Z;
     x := itemX textItem;
     y := itemY textItem;
     width := itemWidth textItem;
     height := itemHeight textItem;
     confidence := c |}.

(** The two loop variables of [findTextPosition]. *)
Record Best : Type := mkBest {
  bestMatch : option TextMatch;
  bestSimilarity : number
}.

(** One candidate offered to the best-so-far:
    [if (similarity > bestSimilarity && similarity >= minConfidence)]. *)
Definition offer (minConfidence : number) (pageInfo : PDFPageInfo)
    (textItem : PDFTextItem) (similarity : number) (b : Best) : Best :=
  if gtb similarity (bestSimilarity b) && geb similarity minConfidence
  then {| bestMatch := Some (matchOf pageInfo textItem similarity);
          bestSimilarity := similarity |}
  else b.

(** The similarity of the substring branch. *)
Definition substringSimilarity (cleanSearch cleanItem : string) : number :=
  JS.max (div (ofNat (String.length cleanSearch)) (ofNat (String.length cleanItem)))
         (div (ofNat (String.length cleanItem)) (ofNat (String.length cleanSearch))).

(** The body of the inner loop: [inl] is the [return] of the exact match,
    [inr] the loop variables after the iteration. *)
Definition scanItem (cleanSearch : string) (minConfidence : number)
    (pageInfo : PDFPageInfo) (textItem : PDFTextItem) (b : Best)
  : TextMatch + Best :=
  let cleanItem := cleanText (itemText textItem) in
  if String.eqb cleanItem cleanSearch
  then inl (matchOf pageInfo textItem (Fin 1))
  else
    let b :=
      if includes cleanItem cleanSearch || includes cleanSearch cleanItem
      then offer minConfidence pageInfo textItem
             (substringSimilarity cleanSearch cleanItem) b
      else b in
    let similarity := calculateSimilarity cleanSearch cleanItem in
    inr (offer minConfidence pageInfo textItem similarity b).

Fixpoint scanItems (cleanSearch : string) (minConfidence : number)
    (pageInfo : PDFPageInfo) (items : list PDFTextItem) (b : Best)
  : TextMatch + Best :=
  match items with
  | [] => inr b
  | textItem :: items' =>
      match scanItem cleanSearch minConfidence pageInfo textItem b with
      | inl m => inl m
      | inr b' => scanItems cleanSearch minConfidence pageInfo items' b'
      end
  end.

Fixpoint scanPages (cleanSearch : string) (minConfidence : number)
    (pdfPages : list PDFPageInfo) (b : Best) : TextMatch + Best :=
  match pdfPages with
  | [] => inr b
  | pageInfo :: pdfPages' =>
      match scanItems cleanSearch minConfidence pageInfo (textItems pageInfo) b with
      | inl m => inl m
      | inr b' => scanPages cleanSearch minConfidence pdfPages' b'
      end
  end.

Definition findTextPosition (searchText : string) (pdfPages : list PDFPageInfo)
    (minConfidence : number) : option TextMatch :=
  let cleanSearch := cleanText searchText in
  match scanPages cleanSearch minConfidence pdfPages
          {| bestMatch := None; bestSimilarity := Fin 0 |} with
  | inl m => Some m
  | inr b => bestMatch b
  end.

(** A match built from a text item of one of the pages. *)
Definition fromPages (pdfPages : list PDFPageInfo) (m : TextMatch) : Prop :=
  exists pageInfo textItem,
    In pageInfo pdfPages /\ In textItem (textItems pageInfo) /\
    m = matchOf pageInfo textItem (confidence m).

(** What holds of the loop variables of [findTextPosition] between two
    iterations: the best similarity is not negative, and the best match, if
    there is one, comes from a text item that is no exact match, has the
    best similarity as its confidence, above 0 and at least the minimum. *)
Definition bestInvariant (cleanSearch : string) (minConfidence : number)
    (pdfPages : list PDFPageInfo) (b : Best) : Prop :=
  leb (Fin 0) (bestSimilarity b) = true /\
  forall m, bestMatch b = Some m ->
    fromPages pdfPages m /\
    confidence m = bestSimilarity b /\
    geb (confidence m) minConfidence = true /\
    gtb (confidence m) (Fin 0) = true /\
    cleanText (text m) <> cleanSearch.

(** What holds of the match returned for an exact item. *)
Definition exactOutcome (cleanSearch : string) (pdfPages : list PDFPageInfo)
    (m : TextMatch) : Prop :=
  fromPages pdfPages m /\ confidence m = Fin 1 /\ cleanText (text m) = cleanSearch.

(** ** Balloon placer *)

Local Open Scope Q_scope.

(** A balloon already placed, as [existingBalloons] holds them. *)
Record Balloon : Type := mkBalloon {
  xPosition : Q;
  yPosition : Q;
  balloonDiameter : Q
}.

(** A bounding box: the target text position and the text items. *)
Record Box : Type := mkBox {
  boxX : Q;
  boxY : Q;
  boxWidth : Q;
  boxHeight : Q
}.

Record Point : Type := mkPoint { pointX : Q; pointY : Q }.

Inductive Side := SideLeft | SideRight.

Record Candidate : Type := mkCandidate {
  candX : Q;
  candY : Q;
  candSide : Side
}.

(** The position returned by the placer.  [placedX] is [None] where the
    source returns [undefined] (the four-column table read at a negative
    index). *)
Record Placement : Type := mkPlacement {
  placedX : option Q;
  placedY : Q;
  side : Side;
  placedDiameter : Q
}.

Definition MIN_TEXT_OFFSET : Q := 15.
Definition PREFERRED_TEXT_OFFSET : Q := 35.
Definition MARGIN : Q := 30.
Definition TITLE_BLOCK_HEIGHT : Q := 120.
Definition BORDER_MARGIN : Q := 60.

Section Placer.

Variables (pageW pageH : Q).
Variable existingBalloons : list Balloon.
Variable BALLOON_DIAMETER : Q.
Variable allTextItems : list Box.
Variable drawingOrigin : Point.

Definition boundsLeft : Q := pointX drawingOrigin + BORDER_MARGIN.
Definition boundsRight : Q := pageW - BORDER_MARGIN.
Definition boundsTop : Q := pointY drawingOrigin + BORDER_MARGIN.
Definition boundsBottom : Q := pageH - TITLE_BLOCK_HEIGHT - BORDER_MARGIN.

(** The test of the loop over [existingBalloons] in [isBlankSpace]. *)
Definition tooClose (x y radius : Q) (existing : Balloon) : bool :=
  let existingRadius := balloonDiameter existing / 2 in
  let minDistance := radius + existingRadius + 5 in
  hypot_lt (x - xPosition existing) (y - yPosition existing) minDistance.

(** The test of the loop over [allTextItems] in [isBlankSpace]. *)
Definition overlapsText (x y radius : Q) (textItem : Box) : bool :=
  let textLeft := boxX textItem - 5 in
  let textRight := boxX textItem + boxWidth textItem + 5 in
  let textTop := boxY textItem - 5 in
  let textBottom := boxY textItem + boxHeight textItem + 5 in
  let closestX := Qmax textLeft (Qmin x textRight) in
  let closestY := Qmax textTop (Qmin y textBottom) in
  hypot_lt (x - closestX) (y - closestY) radius.

Definition isBlankSpace (x y : Q) : bool :=
  let radius := BALLOON_DIAMETER / 2 in
  if Qltb (x - radius) boundsLeft || Qltb boundsRight (x + radius)
     || Qltb (y - radius) boundsTop || Qltb boundsBottom (y + radius)
  then false
  else if Qltb (x - radius) MARGIN || Qltb (pageW - MARGIN) (x + radius)
          || Qltb (y - radius) MARGIN || Qltb (pageH - MARGIN) (y + radius)
  then false
  else if existsb (tooClose x y radius) existingBalloons then false
  else if existsb (overlapsText x y radius) allTextItems then false
  else true.

(** The test of the loop in [isLeaderPathClear]; [lineLength === 0] is
    [dx*dx + dy*dy == 0] and [lineLength * lineLength] is that sum. *)
Definition leaderCrosses (balloonX balloonY targetX targetY : Q) (existing : Balloon)
  : bool :=
  let existingRadius := balloonDiameter existing / 2 in
  let lengthSquared :=
    (targetX - balloonX) * (targetX - balloonX)
    + (targetY - balloonY) * (targetY - balloonY) in
  if Qeq_bool lengthSquared 0 then false
  else
    let t := Qmax 0 (Qmin 1
      (((xPosition existing - balloonX) * (targetX - balloonX)
        + (yPosition existing - balloonY) * (targetY - balloonY)) / lengthSquared)) in
    let projX := balloonX + t * (targetX - balloonX) in
    let projY := balloonY + t * (targetY - balloonY) in
    hypot_lt (xPosition existing - projX) (yPosition existing - projY)
      (existingRadius + 3).

Definition isLeaderPathClear (balloonX balloonY targetX targetY : Q) : bool :=
  negb (existsb (leaderCrosses balloonX balloonY targetX targetY) existingBalloons).

Definition candidatePositions (textPosition : Box) : list Candidate :=
  let centerY := boxY textPosition + boxHeight textPosition / 2 in
  let centerX := boxX textPosition + boxWidth textPosition / 2 in
  [ mkCandidate (boxX textPosition + boxWidth textPosition + PREFERRED_TEXT_OFFSET) centerY SideRight;
    mkCandidate (boxX textPosition + boxWidth textPosition + MIN_TEXT_OFFSET) centerY SideRight;
    mkCandidate (boxX textPosition - PREFERRED_TEXT_OFFSET) centerY SideLeft;
    mkCandidate (boxX textPosition - MIN_TEXT_OFFSET) centerY SideLeft;
    mkCandidate (centerX + 10) (boxY textPosition - PREFERRED_TEXT_OFFSET) SideRight;
    mkCandidate (centerX + 10) (boxY textPosition - MIN_TEXT_OFFSET) SideRight;
    mkCandidate (centerX + 10) (boxY textPosition + boxHeight textPosition + PREFERRED_TEXT_OFFSET) SideRight;
    mkCandidate (centerX + 10) (boxY textPosition + boxHeight textPosition + MIN_TEXT_OFFSET) SideRight;
    mkCandidate (boxX textPosition + boxWidth textPosition + PREFERRED_TEXT_OFFSET) (centerY - 20) SideRight;
    mkCandidate (boxX textPosition + boxWidth textPosition + PREFERRED_TEXT_OFFSET) (centerY + 20) SideRight;
    mkCandidate (boxX textPosition - PREFERRED_TEXT_OFFSET) (centerY - 20) SideLeft;
    mkCandidate (boxX textPosition - PREFERRED_TEXT_OFFSET) (centerY + 20) SideLeft ].

(** The double test applied to every position that is tried. *)
Definition isClear (x y textCenterX textCenterY : Q) : bool :=
  isBlankSpace x y && isLeaderPathClear x y textCenterX textCenterY.

Definition placeAt (x y : Q) (s : Side) : Placement :=
  {| placedX := Some x; placedY := y; side := s; placedDiameter := BALLOON_DIAMETER |}.

(** First loop: the first candidate that passes both tests. *)
Fixpoint firstClear (textCenterX textCenterY : Q) (candidates : list Candidate)
  : option Placement :=
  match candidates with
  | [] => None
  | candidate :: rest =>
      if isClear (candX candidate) (candY candidate) textCenterX textCenterY
      then Some (placeAt (candX candidate) (candY candidate) (candSide candidate))
      else firstClear textCenterX textCenterY rest
  end.

(** [for (let offsetY = 10; offsetY <= 100; offsetY += 10)] *)
Definition verticalOffsets : list Q :=
  map (fun k => inject_Z (Z.of_nat k) * 10) (seq 1 10).

(** The inner loop of the fallback for one candidate: down, then up. *)
Fixpoint firstShifted (textCenterX textCenterY : Q) (candidate : Candidate)
    (offsets : list Q) : option Placement :=
  match offsets with
  | [] => None
  | offsetY :: rest =>
      if isClear (candX candidate) (candY candidate + offsetY) textCenterX textCenterY
      then Some (placeAt (candX candidate) (candY candidate + offsetY) (candSide candidate))
      else if isClear (candX candidate) (candY candidate - offsetY) textCenterX textCenterY
      then Some (placeAt (candX candidate) (candY candidate - offsetY) (candSide candidate))
      else firstShifted textCenterX textCenterY candidate rest
  end.

(** Second loop: the vertical adjustments of every candidate in turn. *)
Fixpoint firstAdjusted (textCenterX textCenterY : Q) (candidates : list Candidate)
  : option Placement :=
  match candidates with
  | [] => None
  | candidate :: rest =>
      match firstShifted textCenterX textCenterY candidate verticalOffsets with
      | Some p => Some p
      | None => firstAdjusted textCenterX textCenterY rest
      end
  end.

(** The search near the target: [Some] is a [return] from one of the two
    loops, [None] means that both ran to their end. *)
Definition smartSearch (textPosition : Box) : option Placement :=
  let textCenterX := boxX textPosition + boxWidth textPosition / 2 in
  let textCenterY := boxY textPosition + boxHeight textPosition / 2 in
  match firstClear textCenterX textCenterY (candidatePositions textPosition) with
  | Some p => Some p
  | None => firstAdjusted textCenterX textCenterY (candidatePositions textPosition)
  end.

(** A placement at a position that passed the double test against the
    target centre [(cx, cy)]. *)
Definition accepted (cx cy : Q) (p : Placement) : Prop :=
  exists x y s, p = placeAt x y s /\ isClear x y cx cy = true.

End Placer.

Record PerimeterPos : Type := mkPerimeterPos {
  perimeterX : option Q;
  perimeterY : Q;
  perimeterSide : Side
}.

Definition MARGIN_FROM_EDGE : Q := 40.
Definition TOP_MARGIN : Q := 120.
Definition BOTTOM_MARGIN : Q := 80.
Definition MIN_BALLOON_SPACING : Q := 25.
Definition PREFERRED_BALLOON_SPACING : Q := 35.

(** [computePerimeterBalloonLayout]; the warnings it logs are left out.
    [%] is the remainder that takes the sign of the dividend. *)
Definition computePerimeterBalloonLayout (balloonNumber totalBalloons : Z)
    (pageW pageH : Q) : PerimeterPos :=
  let availableHeight := pageH - TOP_MARGIN - BOTTOM_MARGIN in
  let maxBalloonsPerColumn := (Qfloor (availableHeight / MIN_BALLOON_SPACING) + 1)%Z in
  let numColumns := if (maxBalloonsPerColumn * 2 <? totalBalloons)%Z then 4%Z else 2%Z in
  let balloonsPerColumn := Qceiling (inject_Z totalBalloons / inject_Z numColumns) in
  let columnNumber := Z.rem (balloonNumber - 1) numColumns in
  let columnIndex := Qfloor (inject_Z (balloonNumber - 1) / inject_Z numColumns) in
  let balloonSpacing :=
    if (1 <? balloonsPerColumn)%Z
    then
      let requiredSpacing := availableHeight / inject_Z (balloonsPerColumn - 1) in
      Qmax MIN_BALLOON_SPACING (Qmin PREFERRED_BALLOON_SPACING requiredSpacing)
    else PREFERRED_BALLOON_SPACING in
  let '(xPos, s) :=
    if (numColumns =? 2)%Z
    then (Some (if (columnNumber =? 0)%Z then MARGIN_FROM_EDGE else pageW - MARGIN_FROM_EDGE),
          if (columnNumber =? 0)%Z then SideLeft else SideRight)
    else
      let columnPositions :=
        [ MARGIN_FROM_EDGE; pageW * (25 # 100); pageW * (75 # 100);
          pageW - MARGIN_FROM_EDGE ] in
      (index columnPositions (Fin columnNumber),
       if (columnNumber <? 2)%Z then SideLeft else SideRight) in
  let yPos := TOP_MARGIN + inject_Z columnIndex * balloonSpacing in
  let maxYPosition := pageH - BOTTOM_MARGIN in
  let clampedYPosition := Qmin yPos maxYPosition in
  {| perimeterX := xPos; perimeterY := clampedYPosition; perimeterSide := s |}.

(** The intermediate values of [computePerimeterBalloonLayout], by name:
    the capacity of one column, the number of columns and the spacing. *)
Definition perimeterCapacity (pageH : Q) : Z :=
  (Qfloor ((pageH - TOP_MARGIN - BOTTOM_MARGIN) / MIN_BALLOON_SPACING) + 1)%Z.

Definition perimeterColumns (totalBalloons : Z) (pageH : Q) : Z :=
  if (perimeterCapacity pageH * 2 <? totalBalloons)%Z then 4%Z else 2%Z.

Definition perimeterSpacing (totalBalloons : Z) (pageH : Q) : Q :=
  let balloonsPerColumn :=
    Qceiling (inject_Z totalBalloons / inject_Z (perimeterColumns totalBalloons pageH)) in
  if (1 <? balloonsPerColumn)%Z
  then Qmax MIN_BALLOON_SPACING
         (Qmin PREFERRED_BALLOON_SPACING
            ((pageH - TOP_MARGIN - BOTTOM_MARGIN) / inject_Z (balloonsPerColumn - 1)))
  else PREFERRED_BALLOON_SPACING.

(** [computeSmartBalloonPlacement]; the warning it logs before the fallback
    is left out. *)
Definition computeSmartBalloonPlacement (textPosition : option Box)
    (balloonNumber : Z) (pageW pageH : Q) (existingBalloons : list Balloon)
    (totalCharacteristics : Z) (allTextItems : list Box) (drawingOrigin : Point)
  : Placement :=
  let BALLOON_DIAMETER := inject_Z (calculateBalloonSize totalCharacteristics) in
  let perimeter :=
    let perimeterPos :=
      computePerimeterBalloonLayout balloonNumber totalCharacteristics pageW pageH in
    {| placedX := perimeterX perimeterPos;
       placedY := perimeterY perimeterPos;
       side := perimeterSide perimeterPos;
       placedDiameter := BALLOON_DIAMETER |} in
  match textPosition with
  | Some textPosition =>
      match smartSearch pageW pageH existingBalloons BALLOON_DIAMETER allTextItems
              drawingOrigin textPosition with
      | Some p => p
      | None => perimeter
      end
  | None => perimeter
  end.

(** Two circles overlap when their centres are closer than the sum of the
    radii. *)
Definition circlesOverlap (x y diameter : Q) (existing : Balloon) : bool :=
  hypot_lt (x - xPosition existing) (y - yPosition existing)
    (diameter / 2 + balloonDiameter existing / 2).

(** The returned position overlaps a balloon of the input. *)
Definition overlapsExisting (p : Placement) (existingBalloons : list Balloon) : bool :=
  match placedX p with
  | Some x => existsb (circlesOverlap x (placedY p) (placedDiameter p)) existingBalloons
  | None => false
  end.

(** ** The placement loop of the extraction route

    The balloons are placed in the order of the characteristics, each given
    by its target, if it has one, and its balloon number; every placement
    sees the balloons placed before it ([createdBalloonPositions]).  A
    position whose x is [undefined] compares as [NaN] in both tests of the
    search, so it is never an obstacle: the model leaves it out of the
    list. *)

Definition pushed (p : Placement) : list Balloon :=
  match placedX p with
  | Some x => [mkBalloon x (placedY p) (placedDiameter p)]
  | None => []
  end.

Fixpoint placeBalloons (pageW pageH : Q) (totalCharacteristics : Z)
    (allTextItems : list Box) (drawingOrigin : Point)
    (createdCharacteristics : list (option Box * Z))
    (createdBalloonPositions : list Balloon) : list Placement :=
  match createdCharacteristics with
  | [] => []
  | (targetPosition, balloonNumber) :: rest =>
      let smartPlacement :=
        computeSmartBalloonPlacement targetPosition balloonNumber pageW pageH
          createdBalloonPositions totalCharacteristics allTextItems drawingOrigin in
      smartPlacement
      :: placeBalloons pageW pageH totalCharacteristics allTextItems drawingOrigin rest
           (app createdBalloonPositions (pushed smartPlacement))
  end.

(** The perimeter slot of a balloon, the fallback of the placer. *)
Definition perimeterSlot (balloonNumber totalCharacteristics : Z) (pageW pageH : Q)
    : Placement :=
  let perimeterPos :=
    computePerimeterBalloonLayout balloonNumber totalCharacteristics pageW pageH in
  {| placedX := perimeterX perimeterPos;
     placedY := perimeterY perimeterPos;
     side := perimeterSide perimeterPos;
     placedDiameter := inject_Z (calculateBalloonSize totalCharacteristics) |}.

(** ** Leader of an auto-placed balloon

    The part of the extraction route that follows the placement of one
    balloon: the leader points to the centre of the target when there is
    one, else it is computed by [computeLeaderOffset] towards the middle of
    the page; a leader closer than 5 to the balloon is replaced by the
    computed one.  [Math.sqrt(s) < 5] is [s < 25]. *)

Definition towardsCentre (balloonSide : Side) : option Direction :=
  Some {| horizontal := Some (match balloonSide with
                              | SideLeft => Right
                              | SideRight => Left
                              end);
          vertical := Some Down |}.

Definition routeLeader (fuel : nat) (targetPosition : option Box)
    (xPosition yPosition : Q) (balloonSide : Side) : option Leader :=
  let first :=
    match targetPosition with
    | Some t =>
        Some {| leaderX := boxX t + boxWidth t / 2;
                leaderY := boxY t + boxHeight t / 2 |}
    | None =>
        computeLeaderOffset fuel xPosition yPosition (towardsCentre balloonSide)
    end in
  match first with
  | None => None
  | Some l =>
      let deltaX := leaderX l - xPosition in
      let deltaY := leaderY l - yPosition in
      if Qltb (deltaX * deltaX + deltaY * deltaY)
              (MIN_LEADER_DISTANCE * MIN_LEADER_DISTANCE)
      then computeLeaderOffset fuel xPosition yPosition (towardsCentre balloonSide)
      else Some l
  end.

(** [Math.round]: the nearest integer, halves upwards. *)
Definition Math_round (q : Q) : Z := Qfloor (q + (1 # 2)).

(** ** Manual balloon placement in the viewer

    A click on the canvas with the balloon tool places a balloon for one
    characteristic.  [characteristics.sort(cmp)] is a stable sort, here an
    insertion sort; the set of ballooned identifiers is the list of the
    saved balloons' [characteristicId]. *)

Inductive Tool : Type := ToolPan | ToolBalloon.

Record ViewerCharacteristic : Type := mkViewerCharacteristic {
  vcId : string;
  vcBalloonNumber : Z
}.

Record SavedBalloon : Type := mkSavedBalloon {
  savedCharacteristicId : string
}.

Record DOMRect : Type := mkDOMRect {
  rectLeft : Q;
  rectTop : Q
}.

Record CreateBalloonRequest : Type := mkCreateBalloonRequest {
  reqCharacteristicId : string;
  reqDrawingId : string;
  reqBalloonNumber : Z;
  reqXPosition : JS.number;
  reqYPosition : JS.number
}.

Inductive ClickResult : Type :=
| NoAction
| NoCharacteristicsToast
| AllBalloonedToast
| Mutate (request : CreateBalloonRequest).

(** [sorted.splice(i, 0, c)] at the first [i] whose element does not sort
    before [c] under [(a, b) => a.balloonNumber - b.balloonNumber]. *)
Fixpoint insertByBalloonNumber (c : ViewerCharacteristic)
    (sorted : list ViewerCharacteristic) : list ViewerCharacteristic :=
  match sorted with
  | [] => [c]
  | b :: rest =>
      if (vcBalloonNumber c - vcBalloonNumber b <=? 0)%Z
      then c :: b :: rest
      else b :: insertByBalloonNumber c rest
  end.

Fixpoint sortByBalloonNumber (cs : list ViewerCharacteristic)
    : list ViewerCharacteristic :=
  match cs with
  | [] => []
  | c :: rest => insertByBalloonNumber c (sortByBalloonNumber rest)
  end.

(** The order of the comparator. *)
Definition byBalloonNumber (a b : ViewerCharacteristic) : Prop :=
  (vcBalloonNumber a <= vcBalloonNumber b)%Z.

(** [balloonedCharacteristicIds.has(id)] *)
Definition hasId (ids : list string) (id : string) : bool :=
  existsb (String.eqb id) ids.

(** A string is truthy when it is neither [null] nor empty. *)
Definition truthy (s : option string) : bool :=
  match s with
  | Some EmptyString | None => false
  | Some _ => true
  end.

Definition balloonedCharacteristicIds (savedBalloons : option (list SavedBalloon))
    : list string :=
  match savedBalloons with
  | Some bs => map savedCharacteristicId bs
  | None => []
  end.

Definition handleCanvasClick (tool : Tool) (selectedDrawing : option string)
    (characteristics : option (list ViewerCharacteristic))
    (canvas : option DOMRect) (scale : Q)
    (savedBalloons : option (list SavedBalloon))
    (clientX clientY : Q) : ClickResult :=
  let noCharacteristics :=
    match characteristics with
    | None | Some [] => true
    | Some _ => false
    end in
  if match tool with ToolBalloon => false | ToolPan => true end
     || negb (truthy selectedDrawing) || noCharacteristics
  then (if noCharacteristics then NoCharacteristicsToast else NoAction)
  else
    match canvas with
    | None => NoAction
    | Some rect =>
        let x := JS.div (JS.Fin (clientX - rectLeft rect)) (JS.Fin scale) in
        let y := JS.div (JS.Fin (clientY - rectTop rect)) (JS.Fin scale) in
        let ballooned := balloonedCharacteristicIds savedBalloons in
        match find (fun c => negb (hasId ballooned (vcId c)))
                   (sortByBalloonNumber
                      (match characteristics with Some cs => cs | None => [] end)) with
        | None => AllBalloonedToast
        | Some c =>
            Mutate {| reqCharacteristicId := vcId c;
                      reqDrawingId :=
                        match selectedDrawing with Some d => d | None => EmptyString end;
                      reqBalloonNumber := vcBalloonNumber c;
                      reqXPosition := x;
                      reqYPosition := y |}
        end
    end.

(** ** Type-specific matchers and the annotation phase *)

Local Open Scope string_scope.

(** Truthiness of an optional number: defined, not zero, not [NaN]. *)
Definition truthyNumber (n : option number) : bool :=
  match n with
  | Some (Fin q) => negb (Qeq_bool q 0)
  | Some NaN => false
  | Some _ => true
  | None => false
  end.

(** Truthiness of an optional string: defined and not empty. *)
Definition truthyString (s : option string) : bool :=
  match s with
  | Some EmptyString => false
  | Some _ => true
  | None => false
  end.

(** [n !== 0] *)
Definition notZero (n : number) : bool :=
  match n with
  | Fin q => negb (Qeq_bool q 0)
  | _ => true
  end.

(** The plus-minus sign, code unit 177. *)
Definition plusMinus : string := String (ascii_of_nat 177) EmptyString.

(** The first pattern for which [findTextPosition] succeeds:
    [for (const pattern of searchPatterns) { ... if (match) return match; }] *)
Fixpoint firstMatch (searchPatterns : list string) (pdfPages : list PDFPageInfo)
    (minConfidence : number) : option TextMatch :=
  match searchPatterns with
  | [] => None
  | pattern :: rest =>
      match findTextPosition pattern pdfPages minConfidence with
      | Some m => Some m
      | None => firstMatch rest pdfPages minConfidence
      end
  end.

(** The characteristic as the annotation phase reads and writes it
    ([ExtractedCharacteristic]); [charUnit] is the field [unit]. *)
Record Location : Type := mkLocation {
  locX : number;
  locY : number;
  locWidth : number;
  locHeight : number;
  locPage : Z;
  locConfidence : number
}.

Record ExtractedCharacteristic : Type := mkCharacteristic {
  description : string;
  requirementType : string;
  gdtType : option string;
  nominalValue : option number;
  tolerancePlus : option number;
  toleranceMinus : option number;
  charUnit : option string;
  location : option Location
}.

Inductive AnnotationType :=
| AnnDimension | AnnGdt | AnnMaterial | AnnProcess | AnnNote | AnnFunctionalTest.

Record AnnotationBox : Type := mkAnnotationBox {
  annX : Q;
  annY : Q;
  annWidth : Q;
  annHeight : Q;
  annType : AnnotationType;
  annText : string;
  annPage : Z
}.

Record AnnotationRecord : Type := mkAnnotationRecord {
  recDrawingId : string;
  extractionKey : string;
  recPage : Z;
  annotationType : AnnotationType;
  recX : Q;
  recY : Q;
  recWidth : Q;
  recHeight : Q;
  textSnippet : string;
  aiConfidence : number;
  status : string
}.

Record AnnotationGenerationResult : Type := mkResult {
  success : bool;
  annotatedPdfUrl : option string;
  annotationCount : nat;
  matchedCount : nat;
  errors : option (list string)
}.

Definition Buffer := string.

(** The collaborators of the annotation phase: each call returns or throws
    an error, which is printed as its message. *)
Record Collaborators : Type := mkCollaborators {
  extractPDFTextPositions : Buffer -> outcome string (list PDFPageInfo);
  dbInsertAnnotations : list AnnotationRecord -> outcome string unit;
  generateAnnotatedPDF : Buffer -> list AnnotationBox -> outcome string Buffer;
  uploadFile : Buffer -> string -> string -> outcome string string;
  dbUpdateDrawing : string -> string -> outcome string unit
}.

(** The names that an object literal inherits from [Object.prototype].
    Their values are functions, and the prototype itself for [__proto__]. *)
Definition inheritedKeys : list string :=
  [ "constructor"; "hasOwnProperty"; "isPrototypeOf"; "propertyIsEnumerable";
    "toLocaleString"; "toString"; "valueOf"; "__proto__";
    "__defineGetter__"; "__defineSetter__";
    "__lookupGetter__"; "__lookupSetter__" ].

Definition inherited (requirementType : string) : bool :=
  existsb (String.eqb requirementType) inheritedKeys.

(** [CONFIDENCE_THRESHOLDS[requirementType] || 0.7].  The lookup also finds
    the inherited names; what it finds there is truthy, so it is the
    threshold, and in [confidence >= threshold], the one place the threshold
    is used in, a function or an object converts to [NaN]. *)
Definition acceptanceThreshold (requirementType : string) : number :=
  if String.eqb requirementType "note" then Fin (8 # 10)
  else if String.eqb requirementType "material" then Fin (8 # 10)
  else if String.eqb requirementType "process" then Fin (8 # 10)
  else if String.eqb requirementType "dimension" then Fin (55 # 100)
  else if String.eqb requirementType "gdt" then Fin (55 # 100)
  else if String.eqb requirementType "functional" then Fin (7 # 10)
  else if inherited requirementType then NaN
  else Fin (7 # 10).

(** What the matching loop has collected. *)
Record Pending : Type := mkPending {
  pendingMatched : nat;
  annotations : list AnnotationBox;
  annotationRecords : list AnnotationRecord;
  locationMatches : list (nat * TextMatch)
}.

Definition emptyPending : Pending :=
  {| pendingMatched := 0; annotations := [];
     annotationRecords := []; locationMatches := [] |}.

(** [list[i] = f(list[i])], nothing when [i] is out of range. *)
Fixpoint updateAt {A} (i : nat) (f : A -> A) (l : list A) : list A :=
  match l, i with
  | [], _ => []
  | a :: l', O => f a :: l'
  | a :: l', S i' => a :: updateAt i' f l'
  end.

Section Matchers.

(** [String(n)] and [n.toString()] for a number, a primitive of the
    language the matchers are built on. *)
Variable numberToString : number -> string.

Definition dimensionSearchPatterns (description : string)
    (nominalValue tolerancePlus toleranceMinus : option number) : list string :=
  (match nominalValue with
   | Some nominal =>
       if notZero nominal
       then
         (match tolerancePlus, toleranceMinus with
          | Some plus, Some minus =>
              if truthyNumber tolerancePlus && truthyNumber toleranceMinus
              then [ (numberToString nominal ++ " " ++ plusMinus ++ numberToString plus)%string;
                     (numberToString nominal ++ plusMinus ++ numberToString plus)%string;
                     (numberToString nominal ++ " +" ++ numberToString plus
                       ++ " -" ++ numberToString minus)%string ]
              else []
          | _, _ => []
          end ++ [numberToString nominal])%list
       else []
   | None => []
   end ++ [description])%list.

Definition findDimensionPosition (description : string)
    (nominalValue tolerancePlus toleranceMinus : option number)
    (unit : option string) (pdfPages : list PDFPageInfo) : option TextMatch :=
  firstMatch
    (dimensionSearchPatterns description nominalValue tolerancePlus toleranceMinus)
    pdfPages (Fin (6 # 10)).

Definition findGDTPosition (description : string) (gdtType : option string)
    (pdfPages : list PDFPageInfo) : option TextMatch :=
  let searchPatterns :=
    (match gdtType with
     | Some g => if truthyString gdtType then [g] else []
     | None => []
     end ++ [description])%list in
  firstMatch searchPatterns pdfPages (Fin (7 # 10)).

Definition findNotePosition (description : string) (pdfPages : list PDFPageInfo)
  : option TextMatch :=
  findTextPosition description pdfPages (Fin (8 # 10)).

(** Step 2, routing: the matcher chosen by requirement type. *)
Definition routeMatcher (pdfPages : list PDFPageInfo) (char : ExtractedCharacteristic)
  : option TextMatch :=
  if String.eqb (requirementType char) "dimension" && negb (truthyString (gdtType char))
  then findDimensionPosition (description char) (nominalValue char)
         (tolerancePlus char) (toleranceMinus char) (charUnit char) pdfPages
  else if truthyString (gdtType char)
  then findGDTPosition (description char) (gdtType char) pdfPages
  else findNotePosition (description char) pdfPages.

Definition annotationTypeOf (char : ExtractedCharacteristic) : AnnotationType :=
  if truthyString (gdtType char) then AnnGdt
  else if String.eqb (requirementType char) "material" then AnnMaterial
  else if String.eqb (requirementType char) "process" then AnnProcess
  else if String.eqb (requirementType char) "note" then AnnNote
  else if String.eqb (requirementType char) "functional" then AnnFunctionalTest
  else AnnDimension.

(** The body of the matching loop for the characteristic at index [i].
    Nothing in it throws, so the [catch] of the loop body is never entered.
    The characteristics of the array are distinct objects, so the map
    [locationMatches] is keyed by the index. *)
Definition matchStep (drawingId : string) (pdfPages : list PDFPageInfo)
    (i : nat) (char : ExtractedCharacteristic) (p : Pending) : Pending :=
  let extractionKey := intToString (Z.of_nat i) in
  let threshold := acceptanceThreshold (requirementType char) in
  match routeMatcher pdfPages char with
  | Some m =>
      if geb (confidence m) threshold
      then
        let annotationType := annotationTypeOf char in
        {| pendingMatched := S (pendingMatched p);
           annotations := app (annotations p)
             [ {| annX := x m; annY := y m; annWidth := width m;
                  annHeight := height m; annType := annotationType;
                  annText := text m; annPage := page m |} ];
           annotationRecords := app (annotationRecords p)
             [ {| recDrawingId := drawingId; extractionKey := extractionKey;
                  recPage := page m; annotationType := annotationType;
                  recX := x m; recY := y m; recWidth := width m;
                  recHeight := height m; textSnippet := text m;
                  aiConfidence := confidence m; status := "ai_generated" |} ];
           locationMatches := app (locationMatches p) [(i, m)] |}
      else p
  | None => p
  end.

Fixpoint matchLoop (drawingId : string) (pdfPages : list PDFPageInfo)
    (i : nat) (characteristics : list ExtractedCharacteristic) (p : Pending)
  : Pending :=
  match characteristics with
  | [] => p
  | char :: rest =>
      matchLoop drawingId pdfPages (S i) rest (matchStep drawingId pdfPages i char p)
  end.

(** [pdfPages.find(p => p.pageNumber === match.page + 1)] *)
Definition findPage (pdfPages : list PDFPageInfo) (m : TextMatch) : option PDFPageInfo :=
  find (fun p => (pageNumber p =? page m + 1)%Z) pdfPages.

Definition normalizedLocation (pageInfo : PDFPageInfo) (m : TextMatch) : Location :=
  {| locX := div (Fin (x m)) (Fin (pageWidth pageInfo));
     locY := div (Fin (y m)) (Fin (pageHeight pageInfo));
     locWidth := div (Fin (width m)) (Fin (pageWidth pageInfo));
     locHeight := div (Fin (height m)) (Fin (pageHeight pageInfo));
     locPage := page m;
     locConfidence := confidence m |}.

Definition setLocation (l : Location) (char : ExtractedCharacteristic)
  : ExtractedCharacteristic :=
  {| description := description char;
     requirementType := requirementType char;
     gdtType := gdtType char;
     nominalValue := nominalValue char;
     tolerancePlus := tolerancePlus char;
     toleranceMinus := toleranceMinus char;
     charUnit := charUnit char;
     location := Some l |}.

(** The loop that runs after the insert has succeeded: the only place where
    a characteristic is written. *)
Fixpoint applyLocations (pdfPages : list PDFPageInfo) (entries : list (nat * TextMatch))
    (characteristics : list ExtractedCharacteristic) : list ExtractedCharacteristic :=
  match entries with
  | [] => characteristics
  | (i, m) :: rest =>
      match findPage pdfPages m with
      | None => applyLocations pdfPages rest characteristics
      | Some pageInfo =>
          applyLocations pdfPages rest
            (updateAt i (setLocation (normalizedLocation pageInfo m)) characteristics)
      end
  end.

(** Step 4, best effort: the value of [annotatedPdfUrl] and the exception
    that was caught, if any.  The URL is assigned as soon as the upload
    returns, before the drawing is updated, so an update that throws leaves
    it assigned. *)
Definition renderAndUpload (env : Collaborators) (drawingId : string)
    (pdfBuffer : Buffer) (boxes : list AnnotationBox)
  : option string * option string :=
  match generateAnnotatedPDF env pdfBuffer boxes with
  | Throws e => (None, Some e)
  | Returns annotatedBuffer =>
      match uploadFile env annotatedBuffer
              ("drawings/" ++ drawingId ++ "_annotated.pdf") "application/pdf" with
      | Throws e => (None, Some e)
      | Returns url =>
          match dbUpdateDrawing env drawingId url with
          | Throws e => (Some url, Some e)
          | Returns _ => (Some url, None)
          end
      end
  end.

Definition failed (errs : list string) (e : string) : AnnotationGenerationResult :=
  {| success := false;
     annotatedPdfUrl := None;
     annotationCount := 0;
     matchedCount := 0;
     errors := Some (app errs ["Annotation generation failed: " ++ e]) |}.

(** [generateAnnotations]: the result and the characteristics as the call
    leaves them. *)
Definition generateAnnotations (env : Collaborators) (drawingId : string)
    (pdfBuffer : Buffer) (characteristics : list ExtractedCharacteristic)
  : AnnotationGenerationResult * list ExtractedCharacteristic :=
  match extractPDFTextPositions env pdfBuffer with
  | Throws e => (failed [] e, characteristics)
  | Returns pdfPages =>
      let p := matchLoop drawingId pdfPages 0 characteristics emptyPending in
      let persisted :=
        match annotationRecords p with
        | [] => Returns characteristics
        | _ :: _ =>
            match dbInsertAnnotations env (annotationRecords p) with
            | Returns _ =>
                Returns (applyLocations pdfPages (locationMatches p) characteristics)
            | Throws e => Throws e
            end
        end in
      match persisted with
      | Throws e =>
          (failed ["Failed to persist annotation records: " ++ e] e, characteristics)
      | Returns characteristics' =>
          let '(url, errs) :=
            match annotations p with
            | [] => (None, [])
            | _ :: _ =>
                let '(url, caught) :=
                  renderAndUpload env drawingId pdfBuffer (annotations p) in
                (url,
                 match caught with
                 | Some e => ["Failed to generate/upload annotated PDF: " ++ e]
                 | None => []
                 end)
            end in
          ({| success := true;
              annotatedPdfUrl := url;
              annotationCount := List.length (annotationRecords p);
              matchedCount := pendingMatched p;
              errors := match errs with [] => None | _ => Some errs end |},
           characteristics')
      end
  end.

End Matchers.

(** ** Highlights on the annotated PDF (pdfAnnotator.ts)

    [annotatePDF] groups the boxes by page in a [Map], which keeps its keys
    in the order of their first insertion, and outlines the boxes page by
    page.  The document is given by the heights of its pages; the result is
    the list of rectangles drawn, or the exception of reading the size of a
    page that does not exist. *)

Definition Color : Type := (Q * Q * Q)%type.

Definition ANNOTATION_COLORS (t : AnnotationType) : Color :=
  match t with
  | AnnDimension => (2 # 10, 4 # 10, 1)
  | AnnGdt => (2 # 10, 8 # 10, 3 # 10)
  | AnnMaterial => (1, 8 # 10, 2 # 10)
  | AnnProcess => (1, 5 # 10, 2 # 10)
  | AnnNote => (8 # 10, 2 # 10, 8 # 10)
  | AnnFunctionalTest => (1, 2 # 10, 2 # 10)
  end.

Record Rectangle : Type := mkRectangle {
  onPage : Z;
  rectX : Q;
  rectY : Q;
  rectWidth : Q;
  rectHeight : Q;
  borderColor : Color
}.

(** [annotationsByPage.set(page, (annotationsByPage.get(page) || []).concat(a))] *)
Fixpoint addToPage (page : Z) (a : AnnotationBox)
    (annotationsByPage : list (Z * list AnnotationBox))
    : list (Z * list AnnotationBox) :=
  match annotationsByPage with
  | [] => [(page, [a])]
  | (p, l) :: rest =>
      if (page =? p)%Z then (p, app l [a]) :: rest
      else (p, l) :: addToPage page a rest
  end.

Fixpoint groupByPage (annotations : list AnnotationBox)
    (annotationsByPage : list (Z * list AnnotationBox))
    : list (Z * list AnnotationBox) :=
  match annotations with
  | [] => annotationsByPage
  | a :: rest => groupByPage rest (addToPage (annPage a) a annotationsByPage)
  end.

Definition drawRectangle (pageIndex : Z) (pageHeight : Q) (annotation : AnnotationBox)
    : Rectangle :=
  let pdfY := pageHeight - annY annotation - annHeight annotation in
  {| onPage := pageIndex;
     rectX := annX annotation - 2;
     rectY := pdfY - 2;
     rectWidth := annWidth annotation + 4;
     rectHeight := annHeight annotation + 4;
     borderColor := ANNOTATION_COLORS (annType annotation) |}.

Fixpoint drawPages (pages : list Q) (annotationsByPage : list (Z * list AnnotationBox))
    (drawn : list Rectangle) : outcome string (list Rectangle) :=
  match annotationsByPage with
  | [] => Returns drawn
  | (pageIndex, pageAnnotations) :: rest =>
      if (Z.of_nat (List.length pages) <=? pageIndex)%Z
      then drawPages pages rest drawn
      else
        match JS.index pages (JS.Fin pageIndex) with
        | None => Throws "TypeError: Cannot read properties of undefined"%string
        | Some pageHeight =>
            drawPages pages rest
              (app drawn (map (drawRectangle pageIndex pageHeight) pageAnnotations))
        end
  end.

Definition annotatePDF (pages : list Q) (annotations : list AnnotationBox)
    : outcome string (list Rectangle) :=
  drawPages pages (groupByPage annotations []) [].

(** The outline of one box, when its page exists. *)
Definition outlineOf (pages : list Q) (a : AnnotationBox) : list Rectangle :=
  match nth_error pages (Z.to_nat (annPage a)) with
  | Some pageHeight => [drawRectangle (annPage a) pageHeight a]
  | None => []
  end.

Definition pagesAgree (annotationsByPage : list (Z * list AnnotationBox)) : Prop :=
  Forall (fun g => Forall (fun a => annPage a = fst g) (snd g)) annotationsByPage.

(** Two characteristics that agree on every field but [location]. *)
Definition sameButLocation (a b : ExtractedCharacteristic) : Prop :=
  description a = description b /\ requirementType a = requirementType b /\
  gdtType a = gdtType b /\ nominalValue a = nominalValue b /\
  tolerancePlus a = tolerancePlus b /\ toleranceMinus a = toleranceMinus b /\
  charUnit a = charUnit b.

(** The match held for the characteristic at index [i], if any. *)
Definition matchAt (i : nat) (entries : list (nat * TextMatch)) : option TextMatch :=
  option_map snd (find (fun e => (fst e =? i)%nat) entries).

(** What the matching loop keeps between two iterations, [i] being the
    index of the next characteristic: the four collections grow together,
    and the keys of the matches are increasing indices below [i]. *)
Definition pendingInvariant (i : nat) (p : Pending) : Prop :=
  pendingMatched p = List.length (annotationRecords p) /\
  List.length (annotations p) = List.length (annotationRecords p) /\
  List.length (locationMatches p) = List.length (annotationRecords p) /\
  map extractionKey (annotationRecords p)
  = map (fun e => intToString (Z.of_nat (fst e))) (locationMatches p) /\
  map aiConfidence (annotationRecords p)
  = map (fun e => confidence (snd e)) (locationMatches p) /\
  Sorted.StronglySorted lt (map fst (locationMatches p)) /\
  Forall (fun k => (k < i)%nat) (map fst (locationMatches p)).

(** The match of a characteristic that the loop records: the match of the
    routed matcher when its confidence reaches the acceptance table. *)
Definition acceptedMatch (numberToString : number -> string)
    (pdfPages : list PDFPageInfo) (char : ExtractedCharacteristic)
  : option TextMatch :=
  match routeMatcher numberToString pdfPages char with
  | Some m =>
      if geb (confidence m) (acceptanceThreshold (requirementType char))
      then Some m else None
  | None => None
  end.

(** The accepted matches of the characteristics from index [i] on, keyed
    by index. *)
Fixpoint acceptedEntries (numberToString : number -> string)
    (pdfPages : list PDFPageInfo) (i : nat)
    (characteristics : list ExtractedCharacteristic) : list (nat * TextMatch) :=
  match characteristics with
  | [] => []
  | char :: rest =>
      (match acceptedMatch numberToString pdfPages char with
       | Some m => [(i, m)]
       | None => []
       end ++ acceptedEntries numberToString pdfPages (S i) rest)%list
  end.

(** A formatter for the numbers of the examples: the digits of an integer,
    and of a number with a finite decimal expansion the integer part, a dot
    and up to twenty decimals.  It prints what [String(n)] prints for the
    short decimals used below. *)
Fixpoint fractionDigits (fuel : nat) (r : Q) : string :=
  match fuel with
  | O => EmptyString
  | S fuel' =>
      if Qeq_bool r 0 then EmptyString
      else
        let d := Qfloor (r * 10) in
        (intToString d ++ fractionDigits fuel' (r * 10 - inject_Z d))%string
  end.

Definition decimalToString (n : number) : string :=
  match n with
  | Fin q =>
      let a := Qabs q in
      let whole := Qfloor a in
      let frac := Qred (a - inject_Z whole) in
      ((if Qltb q 0 then "-" else "") ++ intToString whole
       ++ (if Qeq_bool frac 0 then "" else "." ++ fractionDigits 20 frac))%string
  | PInf => "Infinity"
  | NInf => "-Infinity"
  | NaN => "NaN"
  end.

(** ** The dimension candidates as specified *)

(** The candidate list of the dimension matcher in the words of the
    specification: the three toleranced forms, the bare nominal value and
    the raw description, for any nominal value and tolerances. *)
Definition specifiedDimensionPatterns (numberToString : number -> string)
    (description : string) (nominal plus minus : number) : list string :=
  [ (numberToString nominal ++ " " ++ plusMinus ++ numberToString plus)%string;
    (numberToString nominal ++ plusMinus ++ numberToString plus)%string;
    (numberToString nominal ++ " +" ++ numberToString plus
       ++ " -" ++ numberToString minus)%string;
    numberToString nominal;
    description ].

(** ** Sample data *)

(** One page of 800 by 600 points with the given text items. *)
Definition samplePage (items : list PDFTextItem) : PDFPageInfo :=
  mkPageInfo 1 800 600 items.

Definition itemAbcd : PDFTextItem := mkTextItem "abcd" 10 20 30 5.
Definition itemDashes : PDFTextItem := mkTextItem "--" 10 20 30 5.

(** The text "0 " followed by plus-minus and "1". *)
Definition itemZeroTolerance : PDFTextItem :=
  mkTextItem ("0 " ++ plusMinus ++ "1") 100 200 40 10.

(** The texts "5 " plus-minus "2" and "5" plus-minus "1". *)
Definition itemFiveTwo : PDFTextItem :=
  mkTextItem ("5 " ++ plusMinus ++ "2") 100 200 40 10.
Definition itemFiveOne : PDFTextItem :=
  mkTextItem ("5" ++ plusMinus ++ "1") 300 200 40 10.

(** The text "10.5 " followed by plus-minus and "0.1". *)
Definition itemToleranced : PDFTextItem :=
  mkTextItem ("10.5 " ++ plusMinus ++ "0.1") 100 200 40 10.

Definition sampleDimension : ExtractedCharacteristic :=
  {| description := "bore diameter";
     requirementType := "dimension";
     gdtType := None;
     nominalValue := Some (Fin (105 # 10));
     tolerancePlus := Some (Fin (1 # 10));
     toleranceMinus := Some (Fin (1 # 10));
     charUnit := Some "mm";
     location := None |}.

(** Collaborators that all succeed, and the same with a failing insert. *)
Definition workingStore : Collaborators :=
  {| extractPDFTextPositions := fun _ => Returns [samplePage [itemToleranced]];
     dbInsertAnnotations := fun _ => Returns tt;
     generateAnnotatedPDF := fun pdfBuffer _ => Returns pdfBuffer;
     uploadFile := fun _ path _ => Returns path;
     dbUpdateDrawing := fun _ _ => Returns tt |}.

Definition failingStore : Collaborators :=
  {| extractPDFTextPositions := extractPDFTextPositions workingStore;
     dbInsertAnnotations := fun _ => Throws "insert failed";
     generateAnnotatedPDF := generateAnnotatedPDF workingStore;
     uploadFile := uploadFile workingStore;
     dbUpdateDrawing := dbUpdateDrawing workingStore |}.

(** Collaborators whose update of the drawing throws, after the upload has
    returned. *)
Definition brokenUpdate : Collaborators :=
  {| extractPDFTextPositions := extractPDFTextPositions workingStore;
     dbInsertAnnotations := dbInsertAnnotations workingStore;
     generateAnnotatedPDF := generateAnnotatedPDF workingStore;
     uploadFile := uploadFile workingStore;
     dbUpdateDrawing := fun _ _ => Throws "update failed" |}.

(** A note with a GD&T type, and a text two letters away from that type. *)
Definition flatnessNote : ExtractedCharacteristic :=
  {| description := "surface";
     requirementType := "note";
     gdtType := Some "flatness";
     nominalValue := None;
     tolerancePlus := None;
     toleranceMinus := None;
     charUnit := None;
     location := None |}.

Definition itemFlatnexx : PDFTextItem := mkTextItem "flatnexx" 50 60 70 8.

(** A characteristic whose requirement type is the name of an inherited
    property, and a text equal to its description. *)
Definition constructorNote : ExtractedCharacteristic :=
  {| description := "anodize";
     requirementType := "constructor";
     gdtType := None;
     nominalValue := None;
     tolerancePlus := None;
     toleranceMinus := None;
     charUnit := None;
     location := None |}.

Definition itemAnodize : PDFTextItem := mkTextItem "anodize" 50 60 70 8.

(** A balloon at the first perimeter slot of an 800 by 600 page. *)
Definition balloonAtSlot : Balloon := mkBalloon 40 120 24.

Definition sampleTarget : Box := mkBox 300 300 40 10.

(** * Properties *)

Local Open Scope Q_scope.

(** ** Comparisons on rationals *)

Lemma Qltb_lt (a b : Q) : Qltb a b = true <-> a < b.
Proof.
  unfold Qltb. rewrite negb_true_iff. split.
  - intros H. apply Qnot_le_lt. intros L.
    apply Qle_bool_iff in L. congruence.
  - intros H. destruct (Qle_bool b a) eqn:E; [|reflexivity].
    apply Qle_bool_iff in E. exfalso. apply (Qlt_not_le _ _ H E).
Qed.

Lemma Qltb_ge (a b : Q) : Qltb a b = false <-> b <= a.
Proof.
  unfold Qltb. rewrite negb_false_iff. apply Qle_bool_iff.
Qed.

Lemma Qeq_bool_false (a b : Q) : ~ a == b -> Qeq_bool a b = false.
Proof.
  intros H. destruct (Qeq_bool a b) eqn:E; [|reflexivity].
  apply Qeq_bool_iff in E. contradiction.
Qed.

Lemma hypot_lt_false (a b c : Q) :
  hypot_lt a b c = false <-> (0 < c -> c * c <= a * a + b * b).
Proof.
  unfold hypot_lt. rewrite andb_false_iff, !Qltb_ge. split.
  - intros [H|H] Hc; [exfalso; apply (Qlt_not_le _ _ Hc H) | exact H].
  - intros H. destruct (Qlt_le_dec 0 c) as [Hc|Hc]; [right; auto | left; exact Hc].
Qed.

(** ** Balloon diameter *)

(** C9: the balloon diameter is the step function 24, 20, 18, 16, 14 with
    steps after 20, 40, 60 and 80; it never grows with the count; and it
    takes the stated values at the boundaries. *)
Theorem calculateBalloonSize_step_function :
  (forall n : Z,
      ((n <= 20)%Z -> calculateBalloonSize n = 24%Z) /\
      ((20 < n <= 40)%Z -> calculateBalloonSize n = 20%Z) /\
      ((40 < n <= 60)%Z -> calculateBalloonSize n = 18%Z) /\
      ((60 < n <= 80)%Z -> calculateBalloonSize n = 16%Z) /\
      ((80 < n)%Z -> calculateBalloonSize n = 14%Z)) /\
  (forall n m : Z, (n <= m)%Z -> (calculateBalloonSize m <= calculateBalloonSize n)%Z) /\
  calculateBalloonSize 20 = 24%Z /\ calculateBalloonSize 21 = 20%Z /\
  calculateBalloonSize 40 = 20%Z /\ calculateBalloonSize 41 = 18%Z /\
  calculateBalloonSize 80 = 16%Z /\ calculateBalloonSize 81 = 14%Z.
Proof.
  split; [|split].
  - intros n. unfold calculateBalloonSize.
    repeat split; intros H;
      repeat match goal with
             | |- context [(?a <=? ?b)%Z] => destruct (Z.leb_spec a b)
             end; try reflexivity; lia.
  - intros n m H. unfold calculateBalloonSize.
    repeat match goal with
           | |- context [(?a <=? ?b)%Z] => destruct (Z.leb_spec a b)
           end; lia.
  - repeat split; reflexivity.
Qed.

(** ** Leader calculator *)


(** ** Zone calculator *)

Lemma finite_guard (n : number) :
  negb (isFinite n) || leb n (Fin 0) = false <-> finitePositive n.
Proof.
  destruct n as [q| | |]; cbn [isFinite negb orb leb finitePositive];
    try (split; [discriminate | contradiction]).
  rewrite <- Qltb_lt. unfold Qltb. rewrite negb_true_iff. reflexivity.
Qed.

Lemma zone_guard (w h : number) :
  negb (isFinite w) || leb w (Fin 0) || negb (isFinite h) || leb h (Fin 0) = false
  <-> finitePositive w /\ finitePositive h.
Proof.
  rewrite <- !finite_guard, <- orb_assoc, orb_false_iff. reflexivity.
Qed.

Lemma zone_throws (x y w h : number) :
  calculateDrawingZone x y w h = Throws InvalidPageDimensions
  <-> ~ (finitePositive w /\ finitePositive h).
Proof.
  rewrite <- zone_guard. unfold calculateDrawingZone.
  destruct (negb (isFinite w) || leb w (Fin 0) || negb (isFinite h) || leb h (Fin 0)).
  - split; [discriminate | reflexivity].
  - split; [discriminate | intros H; exfalso; apply H; reflexivity].
Qed.

Lemma zone_returns (x y w h : number) :
  (exists code, calculateDrawingZone x y w h = Returns code)
  <-> finitePositive w /\ finitePositive h.
Proof.
  rewrite <- zone_guard. unfold calculateDrawingZone.
  destruct (negb (isFinite w) || leb w (Fin 0) || negb (isFinite h) || leb h (Fin 0)).
  - split; [intros [c H]; discriminate | discriminate].
  - split; [reflexivity | intros _; eexists; reflexivity].
Qed.

(** C7: the zone calculation throws exactly when the page width or the page
    height is not a finite positive number, whatever the point is, and
    returns a code otherwise; in particular it throws for width 0, height
    NaN, width Infinity and any negative dimension. *)
Theorem calculateDrawingZone_throws_iff_invalid :
  (forall x y w h : number,
      calculateDrawingZone x y w h = Throws InvalidPageDimensions
      <-> ~ (finitePositive w /\ finitePositive h)) /\
  (forall x y w h : number,
      (exists code, calculateDrawingZone x y w h = Returns code)
      <-> finitePositive w /\ finitePositive h) /\
  (forall x y h : number,
      calculateDrawingZone x y (Fin 0) h = Throws InvalidPageDimensions) /\
  (forall x y w : number,
      calculateDrawingZone x y w NaN = Throws InvalidPageDimensions) /\
  (forall x y h : number,
      calculateDrawingZone x y PInf h = Throws InvalidPageDimensions) /\
  (forall (x y n : number) (q : Q), q < 0 ->
      calculateDrawingZone x y (Fin q) n = Throws InvalidPageDimensions /\
      calculateDrawingZone x y n (Fin q) = Throws InvalidPageDimensions).
Proof.
  split; [exact zone_throws|].
  split; [exact zone_returns|].
  split; [|split; [|split]].
  - intros x y h. apply zone_throws. intros [H _]. cbn in H.
    revert H. apply Qlt_irrefl.
  - intros x y w. apply zone_throws. intros [_ H]. exact H.
  - intros x y h. apply zone_throws. intros [H _]. exact H.
  - intros x y n q Hq. split; apply zone_throws.
    + intros [H' _]. cbn in H'.
      apply (Qlt_irrefl 0). apply (Qlt_trans _ q); assumption.
    + intros [_ H']. cbn in H'.
      apply (Qlt_irrefl 0). apply (Qlt_trans _ q); assumption.
Qed.

Lemma div_fin (p q : Q) : ~ q == 0 -> div (Fin p) (Fin q) = Fin (p / q).
Proof.
  intros H. cbn [div]. rewrite (Qeq_bool_false _ _ H). reflexivity.
Qed.

Lemma eighth_pos (w : Q) : 0 < w -> 0 < w / 8.
Proof.
  intros H. apply Qlt_shift_div_l; [reflexivity|]. rewrite Qmult_0_l. exact H.
Qed.

Lemma zoneColumnIndex_fin (x w : Q) :
  0 < w -> zoneColumnIndex (Fin x) (Fin w) = Fin (Z.min (Qfloor (x / (w / 8))) 7).
Proof.
  intros H. unfold zoneColumnIndex.
  change (inject_Z (Z.of_nat (List.length columns))) with 8.
  change (Z.of_nat (List.length columns) - 1)%Z with 7%Z.
  rewrite div_fin by discriminate.
  rewrite div_fin.
  - reflexivity.
  - intros E. pose proof (eighth_pos w H) as P. rewrite E in P.
    revert P. apply Qlt_irrefl.
Qed.

Lemma zoneRowIndex_fin (y h : Q) :
  0 < h -> zoneRowIndex (Fin y) (Fin h) = Fin (Z.min (Qfloor ((h - y) / (h / 8))) 7).
Proof.
  intros H. unfold zoneRowIndex.
  change (inject_Z numRows) with 8.
  change (numRows - 1)%Z with 7%Z.
  rewrite div_fin by discriminate.
  cbn [sub]. rewrite div_fin.
  - reflexivity.
  - intros E. pose proof (eighth_pos h H) as P. rewrite E in P.
    revert P. apply Qlt_irrefl.
Qed.

(** Left of the page the column read from the table is undefined, on any
    page of finite positive width. *)
Lemma zoneColumn_undefined_left_of_page (x w : Q) :
  x < 0 -> 0 < w -> index columns (zoneColumnIndex (Fin x) (Fin w)) = None.
Proof.
  intros Hx Hw. rewrite zoneColumnIndex_fin by exact Hw. cbn [index].
  assert (N : (Qfloor (x / (w / 8)) < 0)%Z).
  { rewrite Zlt_Qlt. apply Qle_lt_trans with (x / (w / 8)); [apply Qfloor_le|].
    apply Qlt_shift_div_r; [apply eighth_pos; exact Hw|].
    rewrite Qmult_0_l. exact Hx. }
  destruct (Z.ltb_spec (Z.min (Qfloor (x / (w / 8))) 7) 0) as [_|G]; [reflexivity|lia].
Qed.

(** C5: at a negative [x] the column read from the table is undefined, and
    above the page height the row is not one of 1 to 8: neither result is
    one of the 64 zone codes.  The column is undefined for every negative
    [x] on every page of finite positive size. *)
Theorem calculateDrawingZone_no_lower_clamp :
  calculateDrawingZone (Fin (-1)) (Fin 0) (Fin 800) (Fin 800)
    = Returns "undefined-8"%string /\
  calculateDrawingZone (Fin 0) (Fin 900) (Fin 800) (Fin 800)
    = Returns "A-0"%string /\
  ~ In "undefined-8"%string zoneCodes /\ ~ In "A-0"%string zoneCodes /\
  (forall x y w h : Q, x < 0 -> 0 < w -> 0 < h ->
     exists row : string,
       calculateDrawingZone (Fin x) (Fin y) (Fin w) (Fin h)
       = Returns ("undefined-" ++ row)%string).
Proof.
  split; [vm_compute; reflexivity|].
  split; [vm_compute; reflexivity|].
  split; [|split].
  - intros H; vm_compute in H;
      repeat (destruct H as [H|H]; [discriminate H|]); exact H.
  - intros H; vm_compute in H;
      repeat (destruct H as [H|H]; [discriminate H|]); exact H.
  - intros x y w h Hx Hw Hh. unfold calculateDrawingZone.
    assert (G : negb (isFinite (Fin w)) || leb (Fin w) (Fin 0)
                || negb (isFinite (Fin h)) || leb (Fin h) (Fin 0) = false).
    { apply zone_guard. split; assumption. }
    rewrite G, (zoneColumn_undefined_left_of_page x w Hx Hw).
    eexists. reflexivity.
Qed.

(** The cell index grows with the coordinate and is not negative at a
    coordinate that is not negative. *)
Lemma cell_monotone (a b w : Q) :
  0 < w -> a <= b ->
  (Z.min (Qfloor (a / (w / 8))) 7 <= Z.min (Qfloor (b / (w / 8))) 7)%Z.
Proof.
  intros Hw Hab. apply Z.min_le_compat_r. apply Qfloor_resp_le.
  unfold Qdiv at 1 3. apply Qmult_le_compat_r; [exact Hab|].
  apply Qinv_le_0_compat. apply Qlt_le_weak. apply eighth_pos. exact Hw.
Qed.

Lemma cell_range (a w : Q) :
  0 < w -> 0 <= a -> (0 <= Z.min (Qfloor (a / (w / 8))) 7 <= 7)%Z.
Proof.
  intros Hw Ha. split; [|apply Z.le_min_r].
  apply Z.min_glb; [|lia].
  change 0%Z with (Qfloor 0). apply Qfloor_resp_le.
  apply Qle_shift_div_l; [apply eighth_pos; exact Hw|].
  rewrite Qmult_0_l. exact Ha.
Qed.

Lemma zone_fin (x y w h : Q) :
  0 < w -> 0 < h ->
  let c := Z.min (Qfloor (x / (w / 8))) 7 in
  let r := Z.min (Qfloor ((h - y) / (h / 8))) 7 in
  (0 <= c)%Z -> (0 <= r)%Z ->
  calculateDrawingZone (Fin x) (Fin y) (Fin w) (Fin h)
  = Returns (zoneCode (Z.to_nat c) (Z.to_nat r)).
Proof.
  intros Hw Hh c r Hc Hr. unfold calculateDrawingZone.
  assert (G : negb (isFinite (Fin w)) || leb (Fin w) (Fin 0)
              || negb (isFinite (Fin h)) || leb (Fin h) (Fin 0) = false).
  { apply zone_guard. split; assumption. }
  rewrite G, zoneColumnIndex_fin, zoneRowIndex_fin by assumption.
  fold c r. f_equal. unfold zoneCode.
  cbn [index iadd toString].
  destruct (Z.ltb_spec c 0) as [L|_]; [lia|].
  rewrite Z2Nat.id by exact Hr.
  assert (Hc7 : (Z.to_nat c < 8)%nat) by (unfold c; lia).
  f_equal.
  destruct (Z.to_nat c) as [|[|[|[|[|[|[|[|n]]]]]]]]; try reflexivity; lia.
Qed.

Lemma zoneCode_parts (c r : nat) :
  (c < 8)%nat -> (r < 8)%nat ->
  zoneLetter (zoneCode c r) = (65 + c)%nat /\ zoneRow (zoneCode c r) = (r + 1)%nat.
Proof.
  intros Hc Hr.
  destruct c as [|[|[|[|[|[|[|[|c]]]]]]]]; try lia;
    destruct r as [|[|[|[|[|[|[|[|r]]]]]]]]; try lia; split; reflexivity.
Qed.

Lemma zoneCode_listed (c r : nat) :
  (c < 8)%nat -> (r < 8)%nat -> In (zoneCode c r) zoneCodes.
Proof.
  intros Hc Hr. unfold zoneCodes. apply in_flat_map. exists c. split.
  - apply in_seq. lia.
  - apply in_map. apply in_seq. lia.
Qed.

(** C6: on a page of finite positive size every point of the page gets one
    of the 64 codes A-1 to H-8; moving the point to the right within the
    page never lowers the column letter and leaves the row unchanged, and
    moving it down (a larger [y]) never raises the row number and leaves
    the column unchanged. *)
Theorem calculateDrawingZone_grid_monotone (w h x y : Q) :
  0 < w -> 0 < h -> 0 <= x <= w -> 0 <= y <= h ->
  (exists code, calculateDrawingZone (Fin x) (Fin y) (Fin w) (Fin h) = Returns code
                /\ In code zoneCodes /\ List.length zoneCodes = 64%nat) /\
  (forall x', x <= x' <= w ->
     exists code code',
       calculateDrawingZone (Fin x) (Fin y) (Fin w) (Fin h) = Returns code /\
       calculateDrawingZone (Fin x') (Fin y) (Fin w) (Fin h) = Returns code' /\
       (zoneLetter code <= zoneLetter code')%nat /\ zoneRow code = zoneRow code') /\
  (forall y', y <= y' <= h ->
     exists code code',
       calculateDrawingZone (Fin x) (Fin y) (Fin w) (Fin h) = Returns code /\
       calculateDrawingZone (Fin x) (Fin y') (Fin w) (Fin h) = Returns code' /\
       (zoneRow code' <= zoneRow code)%nat /\ zoneLetter code = zoneLetter code').
Proof.
  intros Hw Hh [Hx0 Hxw] [Hy0 Hyh].
  assert (Hhy : 0 <= h - y) by lra.
  pose proof (cell_range x w Hw Hx0) as Cx.
  pose proof (cell_range (h - y) h Hh Hhy) as Cy.
  pose proof (zone_fin x y w h Hw Hh (proj1 Cx) (proj1 Cy)) as Z0.
  cbv zeta in Z0.
  split; [|split].
  - eexists. split; [exact Z0|]. split; [|reflexivity].
    apply zoneCode_listed; lia.
  - intros x' [Hxx' Hx'w].
    assert (Hx'0 : 0 <= x') by lra.
    pose proof (cell_range x' w Hw Hx'0) as Cx'.
    pose proof (zone_fin x' y w h Hw Hh (proj1 Cx') (proj1 Cy)) as Z1.
    cbv zeta in Z1.
    pose proof (cell_monotone x x' w Hw Hxx') as M.
    do 2 eexists. split; [exact Z0|]. split; [exact Z1|].
    destruct (zoneCode_parts (Z.to_nat (Z.min (Qfloor (x / (w / 8))) 7))
                (Z.to_nat (Z.min (Qfloor ((h - y) / (h / 8))) 7))) as [L R];
      [lia | lia |].
    destruct (zoneCode_parts (Z.to_nat (Z.min (Qfloor (x' / (w / 8))) 7))
                (Z.to_nat (Z.min (Qfloor ((h - y) / (h / 8))) 7))) as [L' R'];
      [lia | lia |].
    rewrite L, L', R, R'. split; lia.
  - intros y' [Hyy' Hy'h].
    assert (Hhy' : 0 <= h - y') by lra.
    assert (Hle : h - y' <= h - y) by lra.
    pose proof (cell_range (h - y') h Hh Hhy') as Cy'.
    pose proof (zone_fin x y' w h Hw Hh (proj1 Cx) (proj1 Cy')) as Z1.
    cbv zeta in Z1.
    pose proof (cell_monotone (h - y') (h - y) h Hh Hle) as M.
    do 2 eexists. split; [exact Z0|]. split; [exact Z1|].
    destruct (zoneCode_parts (Z.to_nat (Z.min (Qfloor (x / (w / 8))) 7))
                (Z.to_nat (Z.min (Qfloor ((h - y) / (h / 8))) 7))) as [L R];
      [lia | lia |].
    destruct (zoneCode_parts (Z.to_nat (Z.min (Qfloor (x / (w / 8))) 7))
                (Z.to_nat (Z.min (Qfloor ((h - y') / (h / 8))) 7))) as [L' R'];
      [lia | lia |].
    rewrite L, L', R, R'. split; lia.
Qed.

(** The page of 800 by 600 points and the point (100, 100). *)
Lemma calculateDrawingZone_grid_monotone_witness :
  (exists code, calculateDrawingZone (Fin 100) (Fin 100) (Fin 800) (Fin 600) = Returns code
                /\ In code zoneCodes /\ List.length zoneCodes = 64%nat) /\
  (forall x', 100 <= x' <= 800 ->
     exists code code',
       calculateDrawingZone (Fin 100) (Fin 100) (Fin 800) (Fin 600) = Returns code /\
       calculateDrawingZone (Fin x') (Fin 100) (Fin 800) (Fin 600) = Returns code' /\
       (zoneLetter code <= zoneLetter code')%nat /\ zoneRow code = zoneRow code') /\
  (forall y', 100 <= y' <= 600 ->
     exists code code',
       calculateDrawingZone (Fin 100) (Fin 100) (Fin 800) (Fin 600) = Returns code /\
       calculateDrawingZone (Fin 100) (Fin y') (Fin 800) (Fin 600) = Returns code' /\
       (zoneRow code' <= zoneRow code)%nat /\ zoneLetter code = zoneLetter code').
Proof.
  apply (calculateDrawingZone_grid_monotone 800 600 100 100).
  - reflexivity.
  - reflexivity.
  - split; discriminate.
  - split; discriminate.
Defined.

(** ** Text matcher *)

Local Open Scope string_scope.

Example levenshteinDistance_kitten_sitting :
  levenshteinDistance "kitten" "sitting" = 3%nat.
Proof. reflexivity. Qed.

Example calculateSimilarity_identical :
  calculateSimilarity "abc" "abc" = Fin (3 # 3) /\ (3 # 3 == 1)%Q /\
  calculateSimilarity "" "" = Fin 1.
Proof. repeat split. Qed.

Example findTextPosition_exact :
  findTextPosition "10.5mm" [samplePage [mkTextItem "10.5mm" 100 200 40 10]]
    (Fin (7 # 10))
  = Some {| text := "10.5mm"; page := 0; x := 100; y := 200; width := 40;
            height := 10; confidence := Fin 1 |}.
Proof. vm_compute. reflexivity. Qed.

Example findTextPosition_below_threshold :
  findTextPosition "flatness" [samplePage [itemAbcd]] (Fin (7 # 10)) = None.
Proof. vm_compute. reflexivity. Qed.

Lemma ofNat_pos (n : nat) : 0 < inject_Z (Z.of_nat (S n)).
Proof. change 0 with (inject_Z 0). rewrite <- Zlt_Qlt. lia. Qed.

Lemma ratio_gt_one (a b : Q) : 0 < a -> a < b -> 1 < b / a.
Proof.
  intros Ha Hab. apply Qlt_shift_div_l; [exact Ha|]. rewrite Qmult_1_l. exact Hab.
Qed.

Lemma div_positive_by_zero (p : Q) : 0 < p -> div (Fin p) (Fin 0) = PInf.
Proof.
  intros H. cbn [div]. change (Qeq_bool 0 0) with true. cbv iota.
  rewrite Qeq_bool_false.
  - apply Qltb_lt in H. rewrite H. reflexivity.
  - intros E. rewrite E in H. revert H. apply Qlt_irrefl.
Qed.

Lemma div_zero_by_positive (p : Q) : 0 < p -> div (Fin 0) (Fin p) = Fin (0 / p).
Proof.
  intros H. apply div_fin. intros E. rewrite E in H. revert H. apply Qlt_irrefl.
Qed.

(** Whenever the two lengths differ, the score of the substring branch is
    above 1 (infinite when the shorter string is empty). *)
Lemma lengthRatio_above_one (m n : nat) :
  m <> n ->
  ltb (Fin 1) (JS.max (div (ofNat m) (ofNat n)) (div (ofNat n) (ofNat m))) = true.
Proof.
  intros Hmn. unfold ofNat. destruct m as [|m], n as [|n]; try congruence.
  - pose proof (ofNat_pos n) as P.
    change (inject_Z (Z.of_nat 0)) with 0.
    rewrite div_positive_by_zero, div_zero_by_positive by exact P. reflexivity.
  - pose proof (ofNat_pos m) as P.
    change (inject_Z (Z.of_nat 0)) with 0.
    rewrite div_positive_by_zero, div_zero_by_positive by exact P. reflexivity.
  - pose proof (ofNat_pos m) as Pm. pose proof (ofNat_pos n) as Pn.
    assert (D : inject_Z (Z.of_nat (S m)) < inject_Z (Z.of_nat (S n))
                \/ inject_Z (Z.of_nat (S n)) < inject_Z (Z.of_nat (S m))).
    { rewrite <- !Zlt_Qlt. lia. }
    revert Pm Pn D.
    generalize (inject_Z (Z.of_nat (S m))) as M.
    generalize (inject_Z (Z.of_nat (S n))) as N.
    intros N M Pm Pn D.
    assert (Em : ~ M == 0) by (intros E; rewrite E in Pm; revert Pm; apply Qlt_irrefl).
    assert (En : ~ N == 0) by (intros E; rewrite E in Pn; revert Pn; apply Qlt_irrefl).
    rewrite !div_fin by assumption.
    cbn [JS.max]. destruct (Qle_bool (M / N) (N / M)) eqn:L; cbn [ltb]; apply Qltb_lt.
    + apply Qle_bool_iff in L. destruct D as [D|D].
      * apply ratio_gt_one; assumption.
      * apply Qlt_le_trans with (M / N); [apply ratio_gt_one; assumption | exact L].
    + destruct D as [D|D]; [|apply ratio_gt_one; assumption].
      exfalso.
      assert (G : M / N <= N / M).
      { apply Qle_trans with 1.
        - apply Qle_shift_div_r; [exact Pn|]. rewrite Qmult_1_l.
          apply Qlt_le_weak. exact D.
        - apply Qlt_le_weak. apply ratio_gt_one; assumption. }
      apply Qle_bool_iff in G. congruence.
Qed.

(** C3: the query "abc" and the text item "abcd" are unequal after cleaning
    and the first is a substring of the second; the substring branch scores
    the item 4/3, the longer length over the shorter, and not 3/4, and that
    score is the confidence of the match returned.  For every pair of
    strings of different lengths the score of the substring branch is above
    1. *)
Theorem substringSimilarity_longer_over_shorter :
  cleanText "abc" = "abc" /\ cleanText "abcd" = "abcd" /\
  includes "abcd" "abc" = true /\
  substringSimilarity "abc" "abcd" = Fin (4 # 3) /\
  ~ (4 # 3 == inject_Z (Z.of_nat (String.length "abc"))
              / inject_Z (Z.of_nat (String.length "abcd")))%Q /\
  findTextPosition "abc" [samplePage [itemAbcd]] (Fin (7 # 10))
  = Some {| text := "abcd"; page := 0; x := 10; y := 20; width := 30;
            height := 5; confidence := Fin (4 # 3) |} /\
  (forall cleanSearch cleanItem : string,
      String.length cleanSearch <> String.length cleanItem ->
      ltb (Fin 1) (substringSimilarity cleanSearch cleanItem) = true).
Proof.
  split; [reflexivity|]. split; [reflexivity|]. split; [reflexivity|].
  split; [vm_compute; reflexivity|].
  split; [vm_compute; discriminate|].
  split; [vm_compute; reflexivity|].
  intros a b. apply lengthRatio_above_one.
Qed.

(** C4: a match returned by [findTextPosition] with a confidence above 1,
    and one with an infinite confidence (the item cleans to the empty
    string). *)
Theorem findTextPosition_confidence_above_one :
  (exists m, findTextPosition "abc" [samplePage [itemAbcd]] (Fin (7 # 10)) = Some m
             /\ confidence m = Fin (4 # 3)
             /\ leb (confidence m) (Fin 1) = false) /\
  (exists m, findTextPosition "abc" [samplePage [itemDashes]] (Fin (7 # 10)) = Some m
             /\ confidence m = PInf
             /\ leb (confidence m) (Fin 1) = false).
Proof.
  split; eexists; (split; [vm_compute; reflexivity|]); split; reflexivity.
Qed.

(** The loop over the search patterns returns the match of the first
    pattern that has one. *)
Lemma firstMatch_some (patterns : list string) (pdfPages : list PDFPageInfo)
    (c : number) (m : TextMatch) :
  firstMatch patterns pdfPages c = Some m <->
  exists before pattern after,
    patterns = (before ++ pattern :: after)%list /\
    Forall (fun q => findTextPosition q pdfPages c = None) before /\
    findTextPosition pattern pdfPages c = Some m.
Proof.
  induction patterns as [|p ps IH]; cbn [firstMatch].
  - split; [discriminate|].
    intros (before & pattern & after & E & _). destruct before; discriminate E.
  - destruct (findTextPosition p pdfPages c) as [m'|] eqn:Ep.
    + split.
      * intros H. exists [], p, ps. repeat split; [constructor | congruence].
      * intros (before & pattern & after & E & F & Hm).
        destruct before as [|b bs]; cbn in E; injection E as -> ->.
        -- congruence.
        -- inversion F; subst. congruence.
    + rewrite IH. split.
      * intros (before & pattern & after & E & F & Hm).
        exists (p :: before), pattern, after. subst ps.
        repeat split; [constructor; assumption | assumption].
      * intros (before & pattern & after & E & F & Hm).
        destruct before as [|b bs]; cbn in E; injection E as -> ->.
        -- congruence.
        -- inversion F; subst. exists bs, pattern, after. repeat split; assumption.
Qed.

Lemma firstMatch_none (patterns : list string) (pdfPages : list PDFPageInfo)
    (c : number) :
  firstMatch patterns pdfPages c = None <->
  Forall (fun q => findTextPosition q pdfPages c = None) patterns.
Proof.
  induction patterns as [|p ps IH]; cbn [firstMatch].
  - split; [constructor | reflexivity].
  - destruct (findTextPosition p pdfPages c) as [m'|] eqn:Ep.
    + split; [discriminate|]. intros F. inversion F; subst. congruence.
    + rewrite IH. split.
      * intros F. constructor; assumption.
      * intros F. inversion F; assumption.
Qed.

(** C10, as amended: the candidate list is the three toleranced forms, the
    bare nominal value and the description when the nominal value is defined
    and not zero and both tolerances are defined, not zero and not NaN; the
    bare nominal value and the description when only the first holds; the
    description alone otherwise.  The result is the match of the first
    candidate of that list for which [findTextPosition] succeeds at
    threshold 0.6, and there is none exactly when every candidate fails. *)
Theorem findDimensionPosition_first_success :
  forall (numberToString : number -> string) (description : string)
         (nominalValue tolerancePlus toleranceMinus : option number)
         (unit : option string) (pdfPages : list PDFPageInfo),
  let patterns :=
    dimensionSearchPatterns numberToString description
      nominalValue tolerancePlus toleranceMinus in
  let result :=
    findDimensionPosition numberToString description
      nominalValue tolerancePlus toleranceMinus unit pdfPages in
  (forall nominal plus minus,
      nominalValue = Some nominal -> notZero nominal = true ->
      tolerancePlus = Some plus -> truthyNumber tolerancePlus = true ->
      toleranceMinus = Some minus -> truthyNumber toleranceMinus = true ->
      patterns =
      [ numberToString nominal ++ " " ++ plusMinus ++ numberToString plus;
        numberToString nominal ++ plusMinus ++ numberToString plus;
        numberToString nominal ++ " +" ++ numberToString plus
          ++ " -" ++ numberToString minus;
        numberToString nominal;
        description ]) /\
  (forall nominal,
      nominalValue = Some nominal -> notZero nominal = true ->
      truthyNumber tolerancePlus && truthyNumber toleranceMinus = false ->
      patterns = [numberToString nominal; description]) /\
  ((nominalValue = None
    \/ exists nominal, nominalValue = Some nominal /\ notZero nominal = false) ->
   patterns = [description]) /\
  (forall m,
      result = Some m <->
      exists before pattern after,
        patterns = (before ++ pattern :: after)%list /\
        Forall (fun q => findTextPosition q pdfPages (Fin (6 # 10)) = None) before /\
        findTextPosition pattern pdfPages (Fin (6 # 10)) = Some m) /\
  (result = None <->
   Forall (fun q => findTextPosition q pdfPages (Fin (6 # 10)) = None) patterns).
Proof.
  intros fmt description nominalValue tolerancePlus toleranceMinus unit pdfPages
         patterns result.
  split; [|split; [|split; [|split]]].
  - intros nominal plus minus -> Hn -> Hp -> Hm.
    unfold patterns, dimensionSearchPatterns. rewrite Hn, Hp, Hm. reflexivity.
  - intros nominal -> Hn Ht.
    unfold patterns, dimensionSearchPatterns. rewrite Hn.
    destruct tolerancePlus as [plus|], toleranceMinus as [minus|];
      try reflexivity.
    rewrite Ht. reflexivity.
  - intros [->|(nominal & -> & Hn)]; unfold patterns, dimensionSearchPatterns.
    + reflexivity.
    + rewrite Hn. reflexivity.
  - intros m. apply firstMatch_some.
  - apply firstMatch_none.
Qed.

Example dimensionSearchPatterns_sample :
  dimensionSearchPatterns decimalToString "bore diameter"
    (Some (Fin (105 # 10))) (Some (Fin (1 # 10))) (Some (Fin (1 # 10)))
  = [ "10.5 " ++ plusMinus ++ "0.1"; "10.5" ++ plusMinus ++ "0.1";
      "10.5 +0.1 -0.1"; "10.5"; "bore diameter" ] /\
  dimensionSearchPatterns decimalToString "bore diameter"
    (Some (Fin (105 # 10))) (Some (Fin (1 # 10))) (Some (Fin 0))
  = [ "10.5"; "bore diameter" ] /\
  dimensionSearchPatterns decimalToString "bore diameter"
    (Some (Fin 0)) (Some (Fin (1 # 10))) (Some (Fin (1 # 10)))
  = [ "bore diameter" ].
Proof. repeat split; vm_compute; reflexivity. Qed.

(** C10, the claim as stated fails: with nominal value 0 and tolerances 1
    the page holds the text of the first toleranced form, which the
    specified list would find, and the code searches the description only
    and finds nothing. *)
Lemma findDimensionPosition_skips_zero_nominal :
  firstMatch
    (specifiedDimensionPatterns decimalToString "zzzzzz" (Fin 0) (Fin 1) (Fin 1))
    [samplePage [itemZeroTolerance]] (Fin (6 # 10))
  = Some {| text := itemText itemZeroTolerance; page := 0; x := 100; y := 200;
            width := 40; height := 10; confidence := Fin 1 |} /\
  findDimensionPosition decimalToString "zzzzzz"
    (Some (Fin 0)) (Some (Fin 1)) (Some (Fin 1)) None
    [samplePage [itemZeroTolerance]]
  = None.
Proof.
  split; vm_compute; reflexivity.
Qed.

(** The first success is returned even where a later candidate matches
    better: the first form matches a neighbouring text at 3/4 and the second
    form, which is on the page as it stands, is not tried. *)
Example findDimensionPosition_not_best :
  findDimensionPosition decimalToString "bore"
    (Some (Fin 5)) (Some (Fin 1)) (Some (Fin 1)) None
    [samplePage [itemFiveTwo; itemFiveOne]]
  = Some {| text := itemText itemFiveTwo; page := 0; x := 100; y := 200;
            width := 40; height := 10; confidence := Fin (3 # 4) |} /\
  findTextPosition ("5" ++ plusMinus ++ "1")
    [samplePage [itemFiveTwo; itemFiveOne]] (Fin (6 # 10))
  = Some {| text := itemText itemFiveOne; page := 0; x := 300; y := 200;
            width := 40; height := 10; confidence := Fin 1 |}.
Proof.
  split; vm_compute; reflexivity.
Qed.

(** ** Annotation phase *)

(** C2: when the batch insert of the pending annotation records throws, the
    result has [success = false] and the characteristics are left as they
    were, so none of them has had its location set; and the characteristics
    differ from the input only in a run whose batch insert has returned. *)
Theorem generateAnnotations_persistence_gate :
  forall (numberToString : number -> string) (env : Collaborators)
         (drawingId : string) (pdfBuffer : Buffer)
         (characteristics : list ExtractedCharacteristic),
  let run := generateAnnotations numberToString env drawingId pdfBuffer characteristics in
  let pending pdfPages :=
    matchLoop numberToString drawingId pdfPages 0 characteristics emptyPending in
  (forall pdfPages e,
      extractPDFTextPositions env pdfBuffer = Returns pdfPages ->
      annotationRecords (pending pdfPages) <> [] ->
      dbInsertAnnotations env (annotationRecords (pending pdfPages)) = Throws e ->
      success (fst run) = false /\ snd run = characteristics /\
      map location (snd run) = map location characteristics) /\
  (snd run <> characteristics ->
   exists pdfPages,
     extractPDFTextPositions env pdfBuffer = Returns pdfPages /\
     annotationRecords (pending pdfPages) <> [] /\
     dbInsertAnnotations env (annotationRecords (pending pdfPages)) = Returns tt /\
     success (fst run) = true).
Proof.
  intros fmt env drawingId pdfBuffer characteristics run pending.
  unfold run, generateAnnotations. split.
  - intros pdfPages e Hx Hne Hins. rewrite Hx. fold (pending pdfPages).
    destruct (annotationRecords (pending pdfPages)) as [|r rs] eqn:Er;
      [congruence|].
    rewrite Hins. cbn. repeat split; reflexivity.
  - destruct (extractPDFTextPositions env pdfBuffer) as [pdfPages|e] eqn:Hx;
      [|cbn; congruence].
    fold (pending pdfPages).
    destruct (annotationRecords (pending pdfPages)) as [|r rs] eqn:Er.
    + destruct (annotations (pending pdfPages));
        [|destruct (renderAndUpload env drawingId pdfBuffer _) as [u [c|]]]; cbn; congruence.
    + destruct (dbInsertAnnotations env (r :: rs)) as [[]|e] eqn:Hins;
        [|cbn; congruence].
      intros _. exists pdfPages. repeat split; try congruence.
      destruct (annotations (pending pdfPages));
        [|destruct (renderAndUpload env drawingId pdfBuffer _) as [u [c|]]]; reflexivity.
Qed.

(** The failing insert on the sample drawing: one record is pending when it
    throws. *)
Lemma generateAnnotations_persistence_gate_witness :
  success (fst (generateAnnotations decimalToString failingStore "d1" "pdf"
                  [sampleDimension])) = false /\
  snd (generateAnnotations decimalToString failingStore "d1" "pdf" [sampleDimension])
  = [sampleDimension] /\
  map location
    (snd (generateAnnotations decimalToString failingStore "d1" "pdf" [sampleDimension]))
  = map location [sampleDimension].
Proof.
  apply (proj1 (generateAnnotations_persistence_gate decimalToString failingStore
                  "d1" "pdf" [sampleDimension])
           [samplePage [itemToleranced]] "insert failed").
  - reflexivity.
  - vm_compute. discriminate.
  - reflexivity.
Defined.

(** End to end on the sample drawing: with a working store the match is
    counted, one record is written and the location is the matched box
    divided by the page size; with the failing insert the location stays
    unset. *)
Example generateAnnotations_end_to_end :
  (let '(result, after) :=
     generateAnnotations decimalToString workingStore "d1" "pdf" [sampleDimension] in
   success result = true /\ matchedCount result = 1%nat /\
   annotationCount result = 1%nat /\
   map (fun c => option_map locX (location c)) after = [Some (Fin (100 / 800))]) /\
  (let '(result, after) :=
     generateAnnotations decimalToString failingStore "d1" "pdf" [sampleDimension] in
   success result = false /\ map location after = [None]).
Proof.
  split; vm_compute; repeat split; reflexivity.
Qed.

(** ** Balloon placer *)

Local Open Scope Q_scope.

Section PlacerFacts.

Variables (pageW pageH : Q).
Variable existingBalloons : list Balloon.
Variable BALLOON_DIAMETER : Q.
Variable allTextItems : list Box.
Variable drawingOrigin : Point.

Lemma firstClear_accepted (cx cy : Q) (candidates : list Candidate) (p : Placement) :
  firstClear pageW pageH existingBalloons BALLOON_DIAMETER allTextItems
    drawingOrigin cx cy candidates = Some p ->
  accepted pageW pageH existingBalloons BALLOON_DIAMETER allTextItems
    drawingOrigin cx cy p.
Proof.
  induction candidates as [|c cs IH]; cbn [firstClear]; [discriminate|].
  destruct (isClear _ _ _ _ _ _ (candX c) (candY c) cx cy) eqn:E; [|exact IH].
  intros [= <-]. exists (candX c), (candY c), (candSide c).
  split; [reflexivity|exact E].
Qed.

Lemma firstShifted_accepted (cx cy : Q) (c : Candidate) (offsets : list Q)
    (p : Placement) :
  firstShifted pageW pageH existingBalloons BALLOON_DIAMETER allTextItems
    drawingOrigin cx cy c offsets = Some p ->
  accepted pageW pageH existingBalloons BALLOON_DIAMETER allTextItems
    drawingOrigin cx cy p.
Proof.
  induction offsets as [|o os IH]; cbn [firstShifted]; [discriminate|].
  destruct (isClear _ _ _ _ _ _ (candX c) (candY c + o) cx cy) eqn:E.
  - intros [= <-]. exists (candX c), (candY c + o), (candSide c).
    split; [reflexivity|exact E].
  - destruct (isClear _ _ _ _ _ _ (candX c) (candY c - o) cx cy) eqn:E';
      [|exact IH].
    intros [= <-]. exists (candX c), (candY c - o), (candSide c).
    split; [reflexivity|exact E'].
Qed.

Lemma firstAdjusted_accepted (cx cy : Q) (candidates : list Candidate)
    (p : Placement) :
  firstAdjusted pageW pageH existingBalloons BALLOON_DIAMETER allTextItems
    drawingOrigin cx cy candidates = Some p ->
  accepted pageW pageH existingBalloons BALLOON_DIAMETER allTextItems
    drawingOrigin cx cy p.
Proof.
  induction candidates as [|c cs IH]; cbn [firstAdjusted]; [discriminate|].
  destruct (firstShifted pageW pageH existingBalloons BALLOON_DIAMETER allTextItems
              drawingOrigin cx cy c verticalOffsets) as [q|] eqn:E; [|exact IH].
  intros [= <-]. apply (firstShifted_accepted _ _ _ _ _ E).
Qed.

Lemma smartSearch_accepted (textPosition : Box) (p : Placement) :
  smartSearch pageW pageH existingBalloons BALLOON_DIAMETER allTextItems
    drawingOrigin textPosition = Some p ->
  accepted pageW pageH existingBalloons BALLOON_DIAMETER allTextItems
    drawingOrigin
    (boxX textPosition + boxWidth textPosition / 2)
    (boxY textPosition + boxHeight textPosition / 2) p.
Proof.
  unfold smartSearch.
  destruct (firstClear _ _ _ _ _ _ _ _ _) as [q|] eqn:E.
  - intros [= <-]. apply (firstClear_accepted _ _ _ _ E).
  - apply firstAdjusted_accepted.
Qed.

(** A position that passes [isBlankSpace] keeps the buffered distance to
    every balloon of the input. *)
Lemma isBlankSpace_apart (x y : Q) (e : Balloon) :
  isBlankSpace pageW pageH existingBalloons BALLOON_DIAMETER allTextItems
    drawingOrigin x y = true ->
  In e existingBalloons ->
  tooClose x y (BALLOON_DIAMETER / 2) e = false.
Proof.
  unfold isBlankSpace. intros H He.
  destruct (_ || _ || _ || _) in H; [discriminate|].
  destruct (_ || _ || _ || _) in H; [discriminate|].
  destruct (existsb (tooClose x y (BALLOON_DIAMETER / 2)) existingBalloons) eqn:E;
    [discriminate|].
  destruct (tooClose x y (BALLOON_DIAMETER / 2) e) eqn:T; [|reflexivity].
  assert (X : existsb (tooClose x y (BALLOON_DIAMETER / 2)) existingBalloons = true).
  { apply existsb_exists. exists e. split; assumption. }
  congruence.
Qed.

End PlacerFacts.

(** A circle that keeps the distance [c + 5] keeps the distance [c]. *)
Lemma hypot_lt_buffer (a b c : Q) :
  hypot_lt a b (c + 5) = false -> hypot_lt a b c = false.
Proof.
  rewrite !hypot_lt_false. intros H Hc.
  assert (H5 : 0 < c + 5) by lra.
  specialize (H H5). nra.
Qed.

Lemma tooClose_circlesOverlap (x y d : Q) (e : Balloon) :
  tooClose x y (d / 2) e = false -> circlesOverlap x y d e = false.
Proof.
  unfold tooClose, circlesOverlap. apply hypot_lt_buffer.
Qed.

(** C1, as amended: when the search near the target accepts a position (one
    of the twelve candidates or one of their vertical adjustments), that
    position is what [computeSmartBalloonPlacement] returns, it lies at
    least the sum of the radii plus 5 away from every balloon of the input,
    and its circle overlaps none of them. *)
Theorem computeSmartBalloonPlacement_search_no_overlap :
  forall (textPosition : Box) (balloonNumber : Z) (pageW pageH : Q)
         (existingBalloons : list Balloon) (totalCharacteristics : Z)
         (allTextItems : list Box) (drawingOrigin : Point) (p : Placement),
  smartSearch pageW pageH existingBalloons
    (inject_Z (calculateBalloonSize totalCharacteristics)) allTextItems
    drawingOrigin textPosition = Some p ->
  computeSmartBalloonPlacement (Some textPosition) balloonNumber pageW pageH
    existingBalloons totalCharacteristics allTextItems drawingOrigin = p /\
  overlapsExisting p existingBalloons = false /\
  exists x, placedX p = Some x /\
    forall e, In e existingBalloons ->
      tooClose x (placedY p) (placedDiameter p / 2) e = false /\
      circlesOverlap x (placedY p) (placedDiameter p) e = false.
Proof.
  intros textPosition balloonNumber pageW pageH existingBalloons total
         allTextItems drawingOrigin p H.
  split; [unfold computeSmartBalloonPlacement; rewrite H; reflexivity|].
  destruct (smartSearch_accepted _ _ _ _ _ _ _ _ H) as (x & y & s & -> & C).
  unfold isClear in C. apply andb_true_iff in C. destruct C as [B _].
  assert (A : forall e, In e existingBalloons ->
              tooClose x y (inject_Z (calculateBalloonSize total) / 2) e = false).
  { intros e He. apply (isBlankSpace_apart _ _ _ _ _ _ _ _ _ B He). }
  split.
  - cbn [overlapsExisting placeAt placedX placedY placedDiameter].
    destruct (existsb _ existingBalloons) eqn:E; [|reflexivity].
    apply existsb_exists in E. destruct E as (e & He & O).
    rewrite (tooClose_circlesOverlap _ _ _ _ (A e He)) in O. discriminate.
  - exists x. split; [reflexivity|]. intros e He.
    cbn [placeAt placedY placedDiameter]. split; [exact (A e He)|].
    apply tooClose_circlesOverlap. exact (A e He).
Qed.

(** A target in the middle of an 800 by 600 page and one balloon at the
    first perimeter slot: the first candidate, right of the target, is
    accepted. *)
Lemma computeSmartBalloonPlacement_search_no_overlap_witness :
  computeSmartBalloonPlacement (Some sampleTarget) 2 800 600 [balloonAtSlot] 2 []
    (mkPoint 0 0) = mkPlacement (Some (300 + 40 + 35)) (300 + 10 / 2) SideRight 24 /\
  overlapsExisting (mkPlacement (Some (300 + 40 + 35)) (300 + 10 / 2) SideRight 24)
    [balloonAtSlot] = false /\
  exists x, placedX (mkPlacement (Some (300 + 40 + 35)) (300 + 10 / 2) SideRight 24)
            = Some x /\
    forall e, In e [balloonAtSlot] ->
      tooClose x (300 + 10 / 2) (24 / 2) e = false /\
      circlesOverlap x (300 + 10 / 2) 24 e = false.
Proof.
  apply (computeSmartBalloonPlacement_search_no_overlap sampleTarget 2 800 600
           [balloonAtSlot] 2 [] (mkPoint 0 0)
           (mkPlacement (Some (300 + 40 + 35)) (300 + 10 / 2) SideRight 24)).
  vm_compute. reflexivity.
Defined.

(** C1, the claim as stated fails: without a target the placer returns the
    first perimeter slot, where a balloon of the input already sits; and a
    target whose candidates are all rejected (here by the borders of a
    narrow page) ends at the perimeter slot in the same way. *)
Lemma computeSmartBalloonPlacement_fallback_overlaps :
  computeSmartBalloonPlacement None 1 800 600 [balloonAtSlot] 1 [] (mkPoint 0 0)
  = mkPlacement (Some 40) 120 SideLeft 24 /\
  overlapsExisting
    (computeSmartBalloonPlacement None 1 800 600 [balloonAtSlot] 1 [] (mkPoint 0 0))
    [balloonAtSlot] = true /\
  smartSearch 100 400 [balloonAtSlot] 24 [] (mkPoint 0 0) (mkBox 30 100 40 10) = None /\
  overlapsExisting
    (computeSmartBalloonPlacement (Some (mkBox 30 100 40 10)) 1 100 400
       [balloonAtSlot] 1 [] (mkPoint 0 0))
    [balloonAtSlot] = true.
Proof.
  repeat split; vm_compute; reflexivity.
Qed.

(** * Further properties *)

Local Open Scope Q_scope.

(** ** Zone calculator: cells, clamping and scale *)

Lemma Qfloor_bounds (q : Q) : inject_Z (Qfloor q) <= q < inject_Z (Qfloor q) + 1.
Proof.
  split; [apply Qfloor_le|].
  pose proof (Qlt_floor q) as H. rewrite inject_Z_plus in H. exact H.
Qed.

Lemma cell_unclamped (a w : Q) :
  0 < w -> a < w -> Z.min (Qfloor (a / (w / 8))) 7 = Qfloor (a / (w / 8)).
Proof.
  intros Hw Ha. apply Z.min_l.
  assert (L : a / (w / 8) < 8).
  { apply Qlt_shift_div_r; [apply eighth_pos; exact Hw|].
    setoid_replace (8 * (w / 8)) with w by (field). exact Ha. }
  assert (Z : (Qfloor (a / (w / 8)) < 8)%Z).
  { rewrite Zlt_Qlt. apply Qle_lt_trans with (a / (w / 8)); [apply Qfloor_le|exact L]. }
  lia.
Qed.

Lemma cell_bounds (a w : Q) :
  0 < w ->
  inject_Z (Qfloor (a / (w / 8))) * (w / 8) <= a
  /\ a < (inject_Z (Qfloor (a / (w / 8))) + 1) * (w / 8).
Proof.
  intros Hw. pose proof (eighth_pos w Hw) as P.
  destruct (Qfloor_bounds (a / (w / 8))) as [L U].
  assert (E : a / (w / 8) * (w / 8) == a).
  { field. intros Z. rewrite Z in Hw. revert Hw. apply Qlt_irrefl. }
  split.
  - rewrite <- E at 2. apply Qmult_le_compat_r; [exact L | apply Qlt_le_weak; exact P].
  - rewrite <- E at 1. apply Qmult_lt_compat_r; [exact P | exact U].
Qed.

(** X1: on a page of finite positive size, a point with [0 <= x < w] and
    [0 < y <= h] gets the code of the cell it lies in: column [c] when [x]
    is in the [c]-th eighth of the width, row [r + 1] when the height above
    the bottom edge, [h - y], is in the [r]-th eighth of the height. *)
Theorem calculateDrawingZone_cell (w h x y : Q) :
  0 < w -> 0 < h -> 0 <= x < w -> 0 < y <= h ->
  exists c r : nat,
    (c < 8)%nat /\ (r < 8)%nat /\
    calculateDrawingZone (Fin x) (Fin y) (Fin w) (Fin h) = Returns (zoneCode c r) /\
    inject_Z (Z.of_nat c) * (w / 8) <= x < (inject_Z (Z.of_nat c) + 1) * (w / 8) /\
    inject_Z (Z.of_nat r) * (h / 8) <= h - y < (inject_Z (Z.of_nat r) + 1) * (h / 8).
Proof.
  intros Hw Hh [Hx0 Hxw] [Hy0 Hyh].
  assert (Hhy0 : 0 <= h - y) by lra.
  assert (Hhyh : h - y < h) by lra.
  pose proof (cell_range x w Hw Hx0) as Cx.
  pose proof (cell_range (h - y) h Hh Hhy0) as Cy.
  pose proof (zone_fin x y w h Hw Hh (proj1 Cx) (proj1 Cy)) as Z0.
  cbv zeta in Z0.
  rewrite (cell_unclamped x w Hw Hxw) in *.
  rewrite (cell_unclamped (h - y) h Hh Hhyh) in *.
  exists (Z.to_nat (Qfloor (x / (w / 8)))), (Z.to_nat (Qfloor ((h - y) / (h / 8)))).
  split; [lia|]. split; [lia|]. split; [exact Z0|].
  rewrite !Z2Nat.id by lia.
  split; apply cell_bounds; assumption.
Qed.

Lemma calculateDrawingZone_cell_witness :
  exists c r : nat,
    (c < 8)%nat /\ (r < 8)%nat /\
    calculateDrawingZone (Fin 250) (Fin 100) (Fin 800) (Fin 600) = Returns (zoneCode c r) /\
    inject_Z (Z.of_nat c) * (800 / 8) <= 250 < (inject_Z (Z.of_nat c) + 1) * (800 / 8) /\
    inject_Z (Z.of_nat r) * (600 / 8) <= 600 - 100 < (inject_Z (Z.of_nat r) + 1) * (600 / 8).
Proof.
  apply (calculateDrawingZone_cell 800 600 250 100).
  - reflexivity.
  - reflexivity.
  - split; [discriminate | reflexivity].
  - split; [reflexivity | discriminate].
Defined.

Lemma cell_clamped (a w : Q) :
  0 < w -> w <= a -> Z.min (Qfloor (a / (w / 8))) 7 = 7%Z.
Proof.
  intros Hw Ha. apply Z.min_r.
  assert (L : 8 <= a / (w / 8)).
  { apply Qle_shift_div_l; [apply eighth_pos; exact Hw|].
    setoid_replace (8 * (w / 8)) with w by field. exact Ha. }
  apply Qfloor_resp_le in L. change (Qfloor 8) with 8%Z in L. lia.
Qed.

Lemma zone_parts (x y w h : Q) :
  0 < w -> 0 < h ->
  calculateDrawingZone (Fin x) (Fin y) (Fin w) (Fin h)
  = Returns (template (index columns (Fin (Z.min (Qfloor (x / (w / 8))) 7)))
             ++ "-"
             ++ intToString (Z.min (Qfloor ((h - y) / (h / 8))) 7 + 1))%string.
Proof.
  intros Hw Hh. unfold calculateDrawingZone.
  assert (G : negb (isFinite (Fin w)) || leb (Fin w) (Fin 0)
              || negb (isFinite (Fin h)) || leb (Fin h) (Fin 0) = false).
  { apply zone_guard. split; assumption. }
  rewrite G, zoneColumnIndex_fin, zoneRowIndex_fin by assumption.
  reflexivity.
Qed.

(** X2: the indices are clamped at the far side, each on its own.  On a
    page of finite positive size every point at or right of the right edge,
    however far and whatever its height, has the column letter H, with the
    row computed from the height as for any point; every point at or above
    the top edge, whatever its horizontal position, has the row number 8,
    with the column read from the table as for any point; and a point
    beyond both is in zone H-8. *)
Theorem calculateDrawingZone_upper_clamp (w h : Q) :
  0 < w -> 0 < h ->
  (forall x y, w <= x ->
     calculateDrawingZone (Fin x) (Fin y) (Fin w) (Fin h)
     = Returns ("H-" ++ intToString (Z.min (Qfloor ((h - y) / (h / 8))) 7 + 1))%string) /\
  (forall x y, y <= 0 ->
     calculateDrawingZone (Fin x) (Fin y) (Fin w) (Fin h)
     = Returns (template (index columns (Fin (Z.min (Qfloor (x / (w / 8))) 7)))
                ++ "-8")%string) /\
  (forall x y, w <= x -> y <= 0 ->
     calculateDrawingZone (Fin x) (Fin y) (Fin w) (Fin h) = Returns "H-8"%string).
Proof.
  intros Hw Hh. split; [|split].
  - intros x y Hx. rewrite zone_parts by assumption.
    rewrite (cell_clamped x) by assumption. reflexivity.
  - intros x y Hy. rewrite zone_parts by assumption.
    rewrite (cell_clamped (h - y)) by (try assumption; lra). reflexivity.
  - intros x y Hx Hy. rewrite zone_parts by assumption.
    rewrite (cell_clamped x), (cell_clamped (h - y)) by (try assumption; lra).
    reflexivity.
Qed.

Lemma calculateDrawingZone_upper_clamp_witness :
  (forall x y, 800 <= x ->
     calculateDrawingZone (Fin x) (Fin y) (Fin 800) (Fin 600)
     = Returns ("H-" ++ intToString (Z.min (Qfloor ((600 - y) / (600 / 8))) 7 + 1))%string) /\
  (forall x y, y <= 0 ->
     calculateDrawingZone (Fin x) (Fin y) (Fin 800) (Fin 600)
     = Returns (template (index columns (Fin (Z.min (Qfloor (x / (800 / 8))) 7)))
                ++ "-8")%string) /\
  (forall x y, 800 <= x -> y <= 0 ->
     calculateDrawingZone (Fin x) (Fin y) (Fin 800) (Fin 600) = Returns "H-8"%string).
Proof.
  apply (calculateDrawingZone_upper_clamp 800 600); reflexivity.
Defined.

(** The clamps on an 800 by 600 page: far right of the page at mid height,
    far right and above the top edge, far right and below the bottom edge
    (the row is not clamped from below), and above the top edge left of the
    page (nor is the column). *)
Example calculateDrawingZone_upper_clamp_points :
  calculateDrawingZone (Fin 5000) (Fin 100) (Fin 800) (Fin 600) = Returns "H-7"%string /\
  calculateDrawingZone (Fin 5000) (Fin (-100)) (Fin 800) (Fin 600) = Returns "H-8"%string /\
  calculateDrawingZone (Fin 5000) (Fin 601) (Fin 800) (Fin 600) = Returns "H-0"%string /\
  calculateDrawingZone (Fin (-1)) (Fin (-5)) (Fin 800) (Fin 600)
  = Returns "undefined-8"%string.
Proof. repeat split. Qed.

(** X3: the zone depends on the proportions only.  Scaling the point and
    the page by the same positive factor leaves the result unchanged, for
    every point (on the page or not) and every page size (valid or not). *)
Theorem calculateDrawingZone_scale_invariant (k w h x y : Q) :
  0 < k ->
  calculateDrawingZone (Fin (k * x)) (Fin (k * y)) (Fin (k * w)) (Fin (k * h))
  = calculateDrawingZone (Fin x) (Fin y) (Fin w) (Fin h).
Proof.
  intros Hk.
  assert (Kn : ~ k == 0) by (intros E; rewrite E in Hk; revert Hk; apply Qlt_irrefl).
  destruct (Qlt_le_dec 0 w) as [Hw|Hw]; [destruct (Qlt_le_dec 0 h) as [Hh|Hh]|].
  - assert (Hkw : 0 < k * w) by (apply Qmult_lt_0_compat; assumption).
    assert (Hkh : 0 < k * h) by (apply Qmult_lt_0_compat; assumption).
    assert (Wn : ~ w == 0) by (intros E; rewrite E in Hw; revert Hw; apply Qlt_irrefl).
    assert (Hn : ~ h == 0) by (intros E; rewrite E in Hh; revert Hh; apply Qlt_irrefl).
    unfold calculateDrawingZone.
    assert (G : forall a b, 0 < a -> 0 < b ->
                negb (isFinite (Fin a)) || leb (Fin a) (Fin 0)
                || negb (isFinite (Fin b)) || leb (Fin b) (Fin 0) = false).
    { intros a b Ha Hb. apply zone_guard. split; assumption. }
    rewrite !G by assumption.
    rewrite !zoneColumnIndex_fin, !zoneRowIndex_fin by assumption.
    assert (Ec : k * x / (k * w / 8) == x / (w / 8)) by (field; split; assumption).
    assert (Er : (k * h - k * y) / (k * h / 8) == (h - y) / (h / 8))
      by (field; split; assumption).
    rewrite Ec, Er. reflexivity.
  - assert (T : forall a b c d, ~ (finitePositive (Fin c) /\ finitePositive (Fin d)) ->
                calculateDrawingZone a b (Fin c) (Fin d) = Throws InvalidPageDimensions).
    { intros a b c d N. apply zone_throws. exact N. }
    rewrite !T; [reflexivity| |].
    + intros [_ P]. cbn in P. apply (Qlt_not_le _ _ P Hh).
    + intros [_ P]. cbn in P. apply (Qlt_not_le _ _ P).
      setoid_replace 0 with (k * 0) by ring.
      apply Qmult_le_l; assumption.
  - assert (T : forall a b c d, ~ (finitePositive (Fin c) /\ finitePositive (Fin d)) ->
                calculateDrawingZone a b (Fin c) (Fin d) = Throws InvalidPageDimensions).
    { intros a b c d N. apply zone_throws. exact N. }
    rewrite !T; [reflexivity| |].
    + intros [P _]. cbn in P. apply (Qlt_not_le _ _ P Hw).
    + intros [P _]. cbn in P. apply (Qlt_not_le _ _ P).
      setoid_replace 0 with (k * 0) by ring.
      apply Qmult_le_l; assumption.
Qed.

Lemma calculateDrawingZone_scale_invariant_witness :
  calculateDrawingZone (Fin (2 * 250)) (Fin (2 * 100)) (Fin (2 * 800)) (Fin (2 * 600))
  = calculateDrawingZone (Fin 250) (Fin 100) (Fin 800) (Fin 600).
Proof.
  apply (calculateDrawingZone_scale_invariant 2 800 600 250 100). reflexivity.
Defined.

(** ** Balloon placer: what an accepted position guarantees *)

Section SearchFacts.

Variables (pageW pageH : Q).
Variable existingBalloons : list Balloon.
Variable BALLOON_DIAMETER : Q.
Variable allTextItems : list Box.
Variable drawingOrigin : Point.

Lemma firstClear_candidate (cx cy : Q) (candidates : list Candidate) (p : Placement) :
  firstClear pageW pageH existingBalloons BALLOON_DIAMETER allTextItems
    drawingOrigin cx cy candidates = Some p ->
  exists c, In c candidates /\
    p = placeAt BALLOON_DIAMETER (candX c) (candY c) (candSide c).
Proof.
  induction candidates as [|c cs IH]; cbn [firstClear]; [discriminate|].
  destruct (isClear _ _ _ _ _ _ (candX c) (candY c) cx cy).
  - intros [= <-]. exists c. split; [left; reflexivity | reflexivity].
  - intros H. destruct (IH H) as (c' & Hin & E). exists c'. split; [right|]; assumption.
Qed.

Lemma firstShifted_offset (cx cy : Q) (c : Candidate) (offsets : list Q) (p : Placement) :
  firstShifted pageW pageH existingBalloons BALLOON_DIAMETER allTextItems
    drawingOrigin cx cy c offsets = Some p ->
  exists o, In o offsets /\
    (p = placeAt BALLOON_DIAMETER (candX c) (candY c + o) (candSide c)
     \/ p = placeAt BALLOON_DIAMETER (candX c) (candY c - o) (candSide c)).
Proof.
  induction offsets as [|o os IH]; cbn [firstShifted]; [discriminate|].
  destruct (isClear _ _ _ _ _ _ (candX c) (candY c + o) cx cy).
  - intros [= <-]. exists o. split; [left; reflexivity | left; reflexivity].
  - destruct (isClear _ _ _ _ _ _ (candX c) (candY c - o) cx cy).
    + intros [= <-]. exists o. split; [left; reflexivity | right; reflexivity].
    + intros H. destruct (IH H) as (o' & Hin & E). exists o'. split; [right|]; assumption.
Qed.

Lemma firstAdjusted_candidate (cx cy : Q) (candidates : list Candidate) (p : Placement) :
  firstAdjusted pageW pageH existingBalloons BALLOON_DIAMETER allTextItems
    drawingOrigin cx cy candidates = Some p ->
  exists c o, In c candidates /\ In o verticalOffsets /\
    (p = placeAt BALLOON_DIAMETER (candX c) (candY c + o) (candSide c)
     \/ p = placeAt BALLOON_DIAMETER (candX c) (candY c - o) (candSide c)).
Proof.
  induction candidates as [|c cs IH]; cbn [firstAdjusted]; [discriminate|].
  destruct (firstShifted pageW pageH existingBalloons BALLOON_DIAMETER allTextItems
              drawingOrigin cx cy c verticalOffsets) as [q|] eqn:E.
  - intros [= <-]. destruct (firstShifted_offset _ _ _ _ _ E) as (o & Ho & D).
    exists c, o. split; [left; reflexivity|]. split; assumption.
  - intros H. destruct (IH H) as (c' & o & Hin & Ho & D).
    exists c', o. split; [right; exact Hin|]. split; assumption.
Qed.

(** A position that passes [isBlankSpace] has its circle inside the drawing
    bounds and inside the page margins. *)
Lemma isBlankSpace_inside (x y : Q) :
  isBlankSpace pageW pageH existingBalloons BALLOON_DIAMETER allTextItems
    drawingOrigin x y = true ->
  (pointX drawingOrigin + BORDER_MARGIN <= x - BALLOON_DIAMETER / 2
   /\ x + BALLOON_DIAMETER / 2 <= pageW - BORDER_MARGIN
   /\ pointY drawingOrigin + BORDER_MARGIN <= y - BALLOON_DIAMETER / 2
   /\ y + BALLOON_DIAMETER / 2 <= pageH - TITLE_BLOCK_HEIGHT - BORDER_MARGIN)
  /\ (MARGIN <= x - BALLOON_DIAMETER / 2
      /\ x + BALLOON_DIAMETER / 2 <= pageW - MARGIN
      /\ MARGIN <= y - BALLOON_DIAMETER / 2
      /\ y + BALLOON_DIAMETER / 2 <= pageH - MARGIN).
Proof.
  unfold isBlankSpace, boundsLeft, boundsRight, boundsTop, boundsBottom.
  cbv zeta. intros H.
  destruct (_ || _ || _ || _) eqn:B in H; [discriminate|].
  destruct (_ || _ || _ || _) eqn:M in H; [discriminate|].
  rewrite !orb_false_iff, !Qltb_ge in B, M.
  destruct B as [[[B1 B2] B3] B4]. destruct M as [[[M1 M2] M3] M4].
  repeat split; assumption.
Qed.

(** A position that passes [isBlankSpace] passes the text test for every
    item. *)
Lemma isBlankSpace_text (x y : Q) (t : Box) :
  isBlankSpace pageW pageH existingBalloons BALLOON_DIAMETER allTextItems
    drawingOrigin x y = true ->
  In t allTextItems ->
  overlapsText x y (BALLOON_DIAMETER / 2) t = false.
Proof.
  unfold isBlankSpace. intros H Ht.
  destruct (_ || _ || _ || _) in H; [discriminate|].
  destruct (_ || _ || _ || _) in H; [discriminate|].
  destruct (existsb (tooClose _ _ _) existingBalloons) in H; [discriminate|].
  destruct (existsb (overlapsText x y (BALLOON_DIAMETER / 2)) allTextItems) eqn:E;
    [discriminate|].
  destruct (overlapsText x y (BALLOON_DIAMETER / 2) t) eqn:T; [|reflexivity].
  assert (X : existsb (overlapsText x y (BALLOON_DIAMETER / 2)) allTextItems = true).
  { apply existsb_exists. exists t. split; assumption. }
  congruence.
Qed.

Lemma isLeaderPathClear_each (bx by_ tx ty : Q) (e : Balloon) :
  isLeaderPathClear existingBalloons bx by_ tx ty = true ->
  In e existingBalloons ->
  leaderCrosses bx by_ tx ty e = false.
Proof.
  unfold isLeaderPathClear. rewrite negb_true_iff. intros H He.
  destruct (leaderCrosses bx by_ tx ty e) eqn:T; [|reflexivity].
  assert (X : existsb (leaderCrosses bx by_ tx ty) existingBalloons = true).
  { apply existsb_exists. exists e. split; assumption. }
  congruence.
Qed.

End SearchFacts.

Lemma Qsquare_nonneg (a : Q) : 0 <= a * a.
Proof.
  destruct (Qlt_le_dec a 0) as [N|P].
  - setoid_replace (a * a) with ((- a) * (- a)) by ring.
    apply Qmult_le_0_compat; lra.
  - apply Qmult_le_0_compat; assumption.
Qed.

Lemma Qsquare_le (a b : Q) : 0 <= a -> a <= b -> a * a <= b * b.
Proof.
  intros Ha Hab. apply Qmult_le_compat_nonneg; split; assumption.
Qed.

(** The point of an interval nearest to [x] is [x] clamped to it. *)
Lemma clamp_nearest (x lo hi p : Q) :
  lo <= p <= hi ->
  (x - Qmax lo (Qmin x hi)) * (x - Qmax lo (Qmin x hi)) <= (x - p) * (x - p).
Proof.
  intros [Hlo Hhi].
  destruct (Q.min_spec x hi) as [[H1 E1]|[H1 E1]];
    destruct (Q.max_spec lo (Qmin x hi)) as [[H2 E2]|[H2 E2]];
    rewrite E2; rewrite ?E1 in *.
  - setoid_replace ((x - x) * (x - x)) with 0 by ring. apply Qsquare_nonneg.
  - setoid_replace ((x - lo) * (x - lo)) with ((lo - x) * (lo - x)) by ring.
    setoid_replace ((x - p) * (x - p)) with ((p - x) * (p - x)) by ring.
    apply Qsquare_le; lra.
  - apply Qsquare_le; lra.
  - apply Qsquare_le; lra.
Qed.

Lemma clamp01_cases (q : Q) :
  (Qmax 0 (Qmin 1 q) == q /\ 0 <= q <= 1)
  \/ (Qmax 0 (Qmin 1 q) == 0 /\ q <= 0)
  \/ (Qmax 0 (Qmin 1 q) == 1 /\ 1 <= q).
Proof.
  destruct (Q.min_spec 1 q) as [[H1 E1]|[H1 E1]];
    destruct (Q.max_spec 0 (Qmin 1 q)) as [[H2 E2]|[H2 E2]];
    rewrite E2; rewrite ?E1 in *.
  - right. right. split; [reflexivity | lra].
  - exfalso. lra.
  - left. split; [reflexivity | lra].
  - right. left. split; [reflexivity | lra].
Qed.

(** The point of a segment nearest to a given point is its projection with
    the parameter clamped to [0, 1]. *)
Lemma segment_nearest (u v dx dy s : Q) :
  ~ dx * dx + dy * dy == 0 -> 0 <= s <= 1 ->
  let t := Qmax 0 (Qmin 1 ((u * dx + v * dy) / (dx * dx + dy * dy))) in
  (u - t * dx) * (u - t * dx) + (v - t * dy) * (v - t * dy)
  <= (u - s * dx) * (u - s * dx) + (v - s * dy) * (v - s * dy).
Proof.
  intros Hn [Hs0 Hs1] t.
  set (L := dx * dx + dy * dy) in *.
  set (q := (u * dx + v * dy) / L) in *.
  assert (HL : 0 < L).
  { assert (0 <= L).
    { unfold L. pose proof (Qsquare_nonneg dx). pose proof (Qsquare_nonneg dy). lra. }
    destruct (Qlt_le_dec 0 L) as [P|P]; [exact P|].
    exfalso. apply Hn. apply Qle_antisym; assumption. }
  assert (Eq : u * dx + v * dy == q * L) by (unfold q; field; exact Hn).
  assert (D : (u - s * dx) * (u - s * dx) + (v - s * dy) * (v - s * dy)
              - ((u - t * dx) * (u - t * dx) + (v - t * dy) * (v - t * dy))
              == L * ((s - t) * (s + t - 2 * q))).
  { setoid_replace ((u - s * dx) * (u - s * dx) + (v - s * dy) * (v - s * dy)
              - ((u - t * dx) * (u - t * dx) + (v - t * dy) * (v - t * dy)))
      with ((s - t) * ((s + t) * L - 2 * (u * dx + v * dy))) by (unfold L; ring).
    rewrite Eq. ring. }
  assert (P : 0 <= (s - t) * (s + t - 2 * q)).
  { destruct (clamp01_cases q) as [[E _]|[[E H]|[E H]]]; fold t in E; rewrite E.
    - setoid_replace ((s - q) * (s + q - 2 * q)) with ((s - q) * (s - q)) by ring.
      apply Qsquare_nonneg.
    - setoid_replace ((s - 0) * (s + 0 - 2 * q)) with (s * (s - 2 * q)) by ring.
      apply Qmult_le_0_compat; lra.
    - setoid_replace ((s - 1) * (s + 1 - 2 * q)) with ((1 - s) * (2 * q - 1 - s)) by ring.
      apply Qmult_le_0_compat; lra. }
  assert (0 <= L * ((s - t) * (s + t - 2 * q))).
  { apply Qmult_le_0_compat; [apply Qlt_le_weak; exact HL | exact P]. }
  lra.
Qed.

Lemma calculateBalloonSize_positive (n : Z) : 0 < inject_Z (calculateBalloonSize n).
Proof.
  change 0 with (inject_Z 0). rewrite <- Zlt_Qlt. unfold calculateBalloonSize.
  repeat match goal with
         | |- context [(?a <=? ?b)%Z] => destruct (Z.leb_spec a b)
         end; lia.
Qed.

Lemma placement_of_search (textPosition : Box) (balloonNumber : Z) (pageW pageH : Q)
    (existingBalloons : list Balloon) (totalCharacteristics : Z)
    (allTextItems : list Box) (drawingOrigin : Point) (p : Placement) :
  smartSearch pageW pageH existingBalloons
    (inject_Z (calculateBalloonSize totalCharacteristics)) allTextItems
    drawingOrigin textPosition = Some p ->
  computeSmartBalloonPlacement (Some textPosition) balloonNumber pageW pageH
    existingBalloons totalCharacteristics allTextItems drawingOrigin = p.
Proof.
  intros H. unfold computeSmartBalloonPlacement. rewrite H. reflexivity.
Qed.

(** X5: a position accepted by the search keeps the whole circle inside the
    drawing bounds (60 inside the drawing origin and the right edge, 180
    above the bottom edge) and inside the page margin of 30. *)
Theorem computeSmartBalloonPlacement_inside_bounds :
  forall (textPosition : Box) (balloonNumber : Z) (pageW pageH : Q)
         (existingBalloons : list Balloon) (totalCharacteristics : Z)
         (allTextItems : list Box) (drawingOrigin : Point) (p : Placement),
  smartSearch pageW pageH existingBalloons
    (inject_Z (calculateBalloonSize totalCharacteristics)) allTextItems
    drawingOrigin textPosition = Some p ->
  computeSmartBalloonPlacement (Some textPosition) balloonNumber pageW pageH
    existingBalloons totalCharacteristics allTextItems drawingOrigin = p /\
  exists x, placedX p = Some x /\
    (pointX drawingOrigin + BORDER_MARGIN <= x - placedDiameter p / 2
     /\ x + placedDiameter p / 2 <= pageW - BORDER_MARGIN
     /\ pointY drawingOrigin + BORDER_MARGIN <= placedY p - placedDiameter p / 2
     /\ placedY p + placedDiameter p / 2 <= pageH - TITLE_BLOCK_HEIGHT - BORDER_MARGIN)
    /\ (MARGIN <= x - placedDiameter p / 2
        /\ x + placedDiameter p / 2 <= pageW - MARGIN
        /\ MARGIN <= placedY p - placedDiameter p / 2
        /\ placedY p + placedDiameter p / 2 <= pageH - MARGIN).
Proof.
  intros tp bn pageW pageH existing total items origin p H.
  split; [apply placement_of_search; exact H|].
  destruct (smartSearch_accepted _ _ _ _ _ _ _ _ H) as (x & y & s & -> & C).
  unfold isClear in C. apply andb_true_iff in C. destruct C as [B _].
  exists x. split; [reflexivity|].
  cbn [placeAt placedY placedDiameter].
  apply (isBlankSpace_inside _ _ _ _ _ _ _ _ B).
Qed.

Lemma computeSmartBalloonPlacement_inside_bounds_witness :
  computeSmartBalloonPlacement (Some sampleTarget) 2 800 600 [balloonAtSlot] 2 []
    (mkPoint 0 0) = mkPlacement (Some (300 + 40 + 35)) (300 + 10 / 2) SideRight 24 /\
  exists x,
    placedX (mkPlacement (Some (300 + 40 + 35)) (300 + 10 / 2) SideRight 24) = Some x /\
    (0 + BORDER_MARGIN <= x - 24 / 2
     /\ x + 24 / 2 <= 800 - BORDER_MARGIN
     /\ 0 + BORDER_MARGIN <= (300 + 10 / 2) - 24 / 2
     /\ (300 + 10 / 2) + 24 / 2 <= 600 - TITLE_BLOCK_HEIGHT - BORDER_MARGIN)
    /\ (MARGIN <= x - 24 / 2
        /\ x + 24 / 2 <= 800 - MARGIN
        /\ MARGIN <= (300 + 10 / 2) - 24 / 2
        /\ (300 + 10 / 2) + 24 / 2 <= 600 - MARGIN).
Proof.
  apply (computeSmartBalloonPlacement_inside_bounds sampleTarget 2 800 600
           [balloonAtSlot] 2 [] (mkPoint 0 0)
           (mkPlacement (Some (300 + 40 + 35)) (300 + 10 / 2) SideRight 24)).
  vm_compute. reflexivity.
Defined.

(** X6: the circle of a position accepted by the search contains no point
    of any text item's box grown by 5 on every side: every such point is at
    least a radius away from the centre. *)
Theorem computeSmartBalloonPlacement_clear_of_text :
  forall (textPosition : Box) (balloonNumber : Z) (pageW pageH : Q)
         (existingBalloons : list Balloon) (totalCharacteristics : Z)
         (allTextItems : list Box) (drawingOrigin : Point) (p : Placement),
  smartSearch pageW pageH existingBalloons
    (inject_Z (calculateBalloonSize totalCharacteristics)) allTextItems
    drawingOrigin textPosition = Some p ->
  computeSmartBalloonPlacement (Some textPosition) balloonNumber pageW pageH
    existingBalloons totalCharacteristics allTextItems drawingOrigin = p /\
  exists x, placedX p = Some x /\
    forall (textItem : Box) (px py : Q),
      In textItem allTextItems ->
      boxX textItem - 5 <= px <= boxX textItem + boxWidth textItem + 5 ->
      boxY textItem - 5 <= py <= boxY textItem + boxHeight textItem + 5 ->
      (placedDiameter p / 2) * (placedDiameter p / 2)
      <= (x - px) * (x - px) + (placedY p - py) * (placedY p - py).
Proof.
  intros tp bn pageW pageH existing total items origin p H.
  split; [apply placement_of_search; exact H|].
  destruct (smartSearch_accepted _ _ _ _ _ _ _ _ H) as (x & y & s & -> & C).
  unfold isClear in C. apply andb_true_iff in C. destruct C as [B _].
  exists x. split; [reflexivity|].
  intros t px py Ht Hx Hy. cbn [placeAt placedY placedDiameter].
  pose proof (isBlankSpace_text _ _ _ _ _ _ _ _ t B Ht) as T.
  unfold overlapsText in T. apply hypot_lt_false in T.
  - eapply Qle_trans; [exact T|].
    apply Qplus_le_compat; apply clamp_nearest; assumption.
  - apply Qlt_shift_div_l; [reflexivity|]. rewrite Qmult_0_l.
    apply calculateBalloonSize_positive.
Qed.

Lemma computeSmartBalloonPlacement_clear_of_text_witness :
  computeSmartBalloonPlacement (Some sampleTarget) 2 800 600 [balloonAtSlot] 2
    [sampleTarget; mkBox 360 300 20 10] (mkPoint 0 0)
  = mkPlacement (Some (300 - 35)) (300 + 10 / 2) SideLeft 24 /\
  exists x,
    placedX (mkPlacement (Some (300 - 35)) (300 + 10 / 2) SideLeft 24) = Some x /\
    forall (textItem : Box) (px py : Q),
      In textItem [sampleTarget; mkBox 360 300 20 10] ->
      boxX textItem - 5 <= px <= boxX textItem + boxWidth textItem + 5 ->
      boxY textItem - 5 <= py <= boxY textItem + boxHeight textItem + 5 ->
      (24 / 2) * (24 / 2)
      <= (x - px) * (x - px) + ((300 + 10 / 2) - py) * ((300 + 10 / 2) - py).
Proof.
  apply (computeSmartBalloonPlacement_clear_of_text sampleTarget 2 800 600
           [balloonAtSlot] 2 [sampleTarget; mkBox 360 300 20 10] (mkPoint 0 0)
           (mkPlacement (Some (300 - 35)) (300 + 10 / 2) SideLeft 24)).
  vm_compute. reflexivity.
Defined.

Lemma sum_squares_zero (a b : Q) : a * a + b * b == 0 -> a == 0 /\ b == 0.
Proof.
  intros H. pose proof (Qsquare_nonneg a) as A. pose proof (Qsquare_nonneg b) as B.
  assert (A0 : a * a == 0) by (apply Qle_antisym; lra).
  assert (B0 : b * b == 0) by (apply Qle_antisym; lra).
  split.
  - destruct (Qmult_integral _ _ A0); assumption.
  - destruct (Qmult_integral _ _ B0); assumption.
Qed.

(** X7: the leader of a position accepted by the search stays clear of the
    balloons already placed.  Every point of the segment from the accepted
    centre to the centre of the target is at least the balloon's radius
    plus 3 away from the centre of each placed balloon (of positive
    buffered radius). *)
Theorem computeSmartBalloonPlacement_leader_clear :
  forall (textPosition : Box) (balloonNumber : Z) (pageW pageH : Q)
         (existingBalloons : list Balloon) (totalCharacteristics : Z)
         (allTextItems : list Box) (drawingOrigin : Point) (p : Placement),
  smartSearch pageW pageH existingBalloons
    (inject_Z (calculateBalloonSize totalCharacteristics)) allTextItems
    drawingOrigin textPosition = Some p ->
  computeSmartBalloonPlacement (Some textPosition) balloonNumber pageW pageH
    existingBalloons totalCharacteristics allTextItems drawingOrigin = p /\
  exists x, placedX p = Some x /\
    forall (existing : Balloon) (s : Q),
      In existing existingBalloons ->
      0 < balloonDiameter existing / 2 + 3 ->
      0 <= s <= 1 ->
      let targetX := boxX textPosition + boxWidth textPosition / 2 in
      let targetY := boxY textPosition + boxHeight textPosition / 2 in
      let onLeaderX := x + s * (targetX - x) in
      let onLeaderY := placedY p + s * (targetY - placedY p) in
      (balloonDiameter existing / 2 + 3) * (balloonDiameter existing / 2 + 3)
      <= (xPosition existing - onLeaderX) * (xPosition existing - onLeaderX)
         + (yPosition existing - onLeaderY) * (yPosition existing - onLeaderY).
Proof.
  intros tp bn pageW pageH existing total items origin p H.
  split; [apply placement_of_search; exact H|].
  destruct (smartSearch_accepted _ _ _ _ _ _ _ _ H) as (x & y & sd & -> & C).
  unfold isClear in C. apply andb_true_iff in C. destruct C as [B L].
  exists x. split; [reflexivity|].
  intros e s He Hr Hs. cbn [placeAt placedY placedDiameter]. cbv zeta.
  set (tx := boxX tp + boxWidth tp / 2) in *.
  set (ty := boxY tp + boxHeight tp / 2) in *.
  pose proof (isLeaderPathClear_each _ _ _ _ _ _ L He) as X.
  unfold leaderCrosses in X.
  destruct (Qeq_bool ((tx - x) * (tx - x) + (ty - y) * (ty - y)) 0) eqn:Z.
  - apply Qeq_bool_iff in Z. destruct (sum_squares_zero _ _ Z) as [Zx Zy].
    pose proof (isBlankSpace_apart _ _ _ _ _ _ _ _ _ B He) as T.
    unfold tooClose in T. apply hypot_lt_false in T.
    + rewrite Zx, Zy.
      setoid_replace ((xPosition e - (x + s * 0)) * (xPosition e - (x + s * 0))
                      + (yPosition e - (y + s * 0)) * (yPosition e - (y + s * 0)))
        with ((x - xPosition e) * (x - xPosition e)
              + (y - yPosition e) * (y - yPosition e)) by ring.
      eapply Qle_trans; [|exact T].
      pose proof (calculateBalloonSize_positive total) as P.
      apply Qsquare_le; [lra|].
      assert (0 <= inject_Z (calculateBalloonSize total) / 2).
      { apply Qle_shift_div_l; [reflexivity|]. rewrite Qmult_0_l.
        apply Qlt_le_weak. exact P. }
      lra.
    + pose proof (calculateBalloonSize_positive total) as P.
      assert (0 <= inject_Z (calculateBalloonSize total) / 2).
      { apply Qle_shift_div_l; [reflexivity|]. rewrite Qmult_0_l.
        apply Qlt_le_weak. exact P. }
      lra.
  - apply hypot_lt_false in X; [|exact Hr].
    eapply Qle_trans; [exact X|].
    assert (N : ~ (tx - x) * (tx - x) + (ty - y) * (ty - y) == 0).
    { intros E. apply Qeq_bool_iff in E. congruence. }
    pose proof (segment_nearest (xPosition e - x) (yPosition e - y)
                  (tx - x) (ty - y) s N Hs) as G.
    cbv zeta in G.
    match goal with
    | |- ?a <= ?b =>
        match type of G with
        | ?c <= ?d =>
            setoid_replace a with c by ring; setoid_replace b with d by ring
        end
    end.
    exact G.
Qed.

Lemma computeSmartBalloonPlacement_leader_clear_witness :
  computeSmartBalloonPlacement (Some sampleTarget) 2 800 600 [balloonAtSlot] 2 []
    (mkPoint 0 0) = mkPlacement (Some (300 + 40 + 35)) (300 + 10 / 2) SideRight 24 /\
  exists x,
    placedX (mkPlacement (Some (300 + 40 + 35)) (300 + 10 / 2) SideRight 24) = Some x /\
    forall (existing : Balloon) (s : Q),
      In existing [balloonAtSlot] ->
      0 < balloonDiameter existing / 2 + 3 ->
      0 <= s <= 1 ->
      let targetX := 300 + 40 / 2 in
      let targetY := 300 + 10 / 2 in
      let onLeaderX := x + s * (targetX - x) in
      let onLeaderY := (300 + 10 / 2) + s * (targetY - (300 + 10 / 2)) in
      (balloonDiameter existing / 2 + 3) * (balloonDiameter existing / 2 + 3)
      <= (xPosition existing - onLeaderX) * (xPosition existing - onLeaderX)
         + (yPosition existing - onLeaderY) * (yPosition existing - onLeaderY).
Proof.
  apply (computeSmartBalloonPlacement_leader_clear sampleTarget 2 800 600
           [balloonAtSlot] 2 [] (mkPoint 0 0)
           (mkPlacement (Some (300 + 40 + 35)) (300 + 10 / 2) SideRight 24)).
  vm_compute. reflexivity.
Defined.

Lemma verticalOffsets_steps (o : Q) :
  In o verticalOffsets ->
  exists k : nat, (1 <= k <= 10)%nat /\ o = inject_Z (Z.of_nat k) * 10.
Proof.
  unfold verticalOffsets. intros H. apply in_map_iff in H.
  destruct H as (k & E & Hk). apply in_seq in Hk.
  exists k. split; [lia | symmetry; exact E].
Qed.

(** X8: a position accepted by the search is one of the twelve candidates
    of the target, or one of them moved up or down by a multiple of 10
    between 10 and 100: the horizontal coordinate and the side are always
    those of a candidate. *)
Theorem computeSmartBalloonPlacement_vertical_adjustment_only :
  forall (textPosition : Box) (balloonNumber : Z) (pageW pageH : Q)
         (existingBalloons : list Balloon) (totalCharacteristics : Z)
         (allTextItems : list Box) (drawingOrigin : Point) (p : Placement),
  smartSearch pageW pageH existingBalloons
    (inject_Z (calculateBalloonSize totalCharacteristics)) allTextItems
    drawingOrigin textPosition = Some p ->
  computeSmartBalloonPlacement (Some textPosition) balloonNumber pageW pageH
    existingBalloons totalCharacteristics allTextItems drawingOrigin = p /\
  exists candidate,
    In candidate (candidatePositions textPosition) /\
    placedX p = Some (candX candidate) /\
    side p = candSide candidate /\
    placedDiameter p = inject_Z (calculateBalloonSize totalCharacteristics) /\
    (placedY p = candY candidate
     \/ exists k : nat, (1 <= k <= 10)%nat /\
          (placedY p = candY candidate + inject_Z (Z.of_nat k) * 10
           \/ placedY p = candY candidate - inject_Z (Z.of_nat k) * 10)).
Proof.
  intros tp bn pageW pageH existing total items origin p H.
  split; [apply placement_of_search; exact H|].
  unfold smartSearch in H.
  destruct (firstClear _ _ _ _ _ _ _ _ _) as [q|] eqn:E.
  - injection H as <-.
    destruct (firstClear_candidate _ _ _ _ _ _ _ _ _ _ E) as (c & Hc & ->).
    exists c. repeat split; try assumption. left. reflexivity.
  - destruct (firstAdjusted_candidate _ _ _ _ _ _ _ _ _ _ H) as (c & o & Hc & Ho & D).
    destruct (verticalOffsets_steps o Ho) as (k & Hk & ->).
    exists c. destruct D as [-> | ->]; repeat split; try assumption;
      right; exists k; (split; [exact Hk|]); [left | right]; reflexivity.
Qed.

Lemma computeSmartBalloonPlacement_vertical_adjustment_only_witness :
  computeSmartBalloonPlacement (Some sampleTarget) 2 800 600 [balloonAtSlot] 2 []
    (mkPoint 0 0) = mkPlacement (Some (300 + 40 + 35)) (300 + 10 / 2) SideRight 24 /\
  exists candidate,
    In candidate (candidatePositions sampleTarget) /\
    placedX (mkPlacement (Some (300 + 40 + 35)) (300 + 10 / 2) SideRight 24)
    = Some (candX candidate) /\
    side (mkPlacement (Some (300 + 40 + 35)) (300 + 10 / 2) SideRight 24)
    = candSide candidate /\
    placedDiameter (mkPlacement (Some (300 + 40 + 35)) (300 + 10 / 2) SideRight 24)
    = inject_Z (calculateBalloonSize 2) /\
    (placedY (mkPlacement (Some (300 + 40 + 35)) (300 + 10 / 2) SideRight 24)
     = candY candidate
     \/ exists k : nat, (1 <= k <= 10)%nat /\
          (placedY (mkPlacement (Some (300 + 40 + 35)) (300 + 10 / 2) SideRight 24)
           = candY candidate + inject_Z (Z.of_nat k) * 10
           \/ placedY (mkPlacement (Some (300 + 40 + 35)) (300 + 10 / 2) SideRight 24)
              = candY candidate - inject_Z (Z.of_nat k) * 10)).
Proof.
  apply (computeSmartBalloonPlacement_vertical_adjustment_only sampleTarget 2 800 600
           [balloonAtSlot] 2 [] (mkPoint 0 0)
           (mkPlacement (Some (300 + 40 + 35)) (300 + 10 / 2) SideRight 24)).
  vm_compute. reflexivity.
Defined.

(** The first loop returns the first candidate that passes the double
    test. *)
Lemma firstClear_first (pageW pageH : Q) (existingBalloons : list Balloon)
    (D : Q) (allTextItems : list Box) (drawingOrigin : Point) (cx cy : Q)
    (candidates : list Candidate) :
  (exists c, In c candidates /\
     isClear pageW pageH existingBalloons D allTextItems drawingOrigin
       (candX c) (candY c) cx cy = true) ->
  exists before c after,
    candidates = (before ++ c :: after)%list /\
    Forall (fun c' => isClear pageW pageH existingBalloons D allTextItems
                        drawingOrigin (candX c') (candY c') cx cy = false) before /\
    isClear pageW pageH existingBalloons D allTextItems drawingOrigin
      (candX c) (candY c) cx cy = true /\
    firstClear pageW pageH existingBalloons D allTextItems drawingOrigin cx cy
      candidates = Some (placeAt D (candX c) (candY c) (candSide c)).
Proof.
  induction candidates as [|c cs IH]; intros (c0 & Hin & Hc); [destruct Hin|].
  cbn [firstClear].
  destruct (isClear _ _ _ _ _ _ (candX c) (candY c) cx cy) eqn:E.
  - exists [], c, cs. repeat split; [constructor | exact E].
  - destruct Hin as [->|Hin]; [congruence|].
    destruct IH as (before & c1 & after & -> & F & C1 & R);
      [exists c0; split; assumption|].
    exists (c :: before), c1, after. repeat split; try assumption.
    constructor; assumption.
Qed.

(** X9: when some candidate of the target passes both tests, the placer
    returns the first such candidate in priority order, unadjusted: every
    candidate before it fails a test. *)
Theorem computeSmartBalloonPlacement_priority :
  forall (textPosition : Box) (balloonNumber : Z) (pageW pageH : Q)
         (existingBalloons : list Balloon) (totalCharacteristics : Z)
         (allTextItems : list Box) (drawingOrigin : Point),
  let D := inject_Z (calculateBalloonSize totalCharacteristics) in
  let clear c :=
    isClear pageW pageH existingBalloons D allTextItems drawingOrigin
      (candX c) (candY c)
      (boxX textPosition + boxWidth textPosition / 2)
      (boxY textPosition + boxHeight textPosition / 2) in
  (exists c, In c (candidatePositions textPosition) /\ clear c = true) ->
  exists before c after,
    candidatePositions textPosition = (before ++ c :: after)%list /\
    Forall (fun c' => clear c' = false) before /\
    clear c = true /\
    computeSmartBalloonPlacement (Some textPosition) balloonNumber pageW pageH
      existingBalloons totalCharacteristics allTextItems drawingOrigin
    = mkPlacement (Some (candX c)) (candY c) (candSide c) D.
Proof.
  intros tp bn pageW pageH existing total items origin D clear H.
  destruct (firstClear_first pageW pageH existing D items origin _ _ _ H)
    as (before & c & after & E & F & C & R).
  exists before, c, after. repeat split; try assumption.
  unfold computeSmartBalloonPlacement, smartSearch. fold D. rewrite R. reflexivity.
Qed.

Lemma computeSmartBalloonPlacement_priority_witness :
  exists before c after,
    candidatePositions sampleTarget = (before ++ c :: after)%list /\
    Forall (fun c' =>
      isClear 800 600 [balloonAtSlot] (inject_Z (calculateBalloonSize 2))
        [sampleTarget; mkBox 360 300 20 10] (mkPoint 0 0)
        (candX c') (candY c') (300 + 40 / 2) (300 + 10 / 2) = false) before /\
    isClear 800 600 [balloonAtSlot] (inject_Z (calculateBalloonSize 2))
        [sampleTarget; mkBox 360 300 20 10] (mkPoint 0 0)
        (candX c) (candY c) (300 + 40 / 2) (300 + 10 / 2) = true /\
    computeSmartBalloonPlacement (Some sampleTarget) 2 800 600 [balloonAtSlot] 2
      [sampleTarget; mkBox 360 300 20 10] (mkPoint 0 0)
    = mkPlacement (Some (candX c)) (candY c) (candSide c)
        (inject_Z (calculateBalloonSize 2)).
Proof.
  apply (computeSmartBalloonPlacement_priority sampleTarget 2 800 600
           [balloonAtSlot] 2 [sampleTarget; mkBox 360 300 20 10] (mkPoint 0 0)).
  exists (mkCandidate (300 - 35) (300 + 10 / 2) SideLeft). split.
  - right. right. left. reflexivity.
  - vm_compute. reflexivity.
Defined.

(** ** Perimeter fallback *)

Lemma Qfloor_quotient (a : Z) (n : positive) :
  Qfloor (inject_Z a / inject_Z (Zpos n)) = (a / Zpos n)%Z.
Proof.
  unfold Qdiv, Qinv, Qmult, Qfloor, inject_Z. cbn.
  rewrite Z.mul_1_r. reflexivity.
Qed.

Lemma Qceiling_quotient (a : Z) (n : positive) :
  Qceiling (inject_Z a / inject_Z (Zpos n)) = (- ((- a) / Zpos n))%Z.
Proof.
  unfold Qceiling. f_equal.
  unfold Qdiv, Qinv, Qmult, Qopp, Qfloor, inject_Z. cbn.
  rewrite Z.mul_1_r. reflexivity.
Qed.

Lemma perimeter_spacing_min (pageH : Q) (bpc : Z) :
  MIN_BALLOON_SPACING <=
  (if (1 <? bpc)%Z
   then Qmax MIN_BALLOON_SPACING
          (Qmin PREFERRED_BALLOON_SPACING
             ((pageH - TOP_MARGIN - BOTTOM_MARGIN) / inject_Z (bpc - 1)))
   else PREFERRED_BALLOON_SPACING).
Proof.
  destruct (1 <? bpc)%Z.
  - apply Q.le_max_l.
  - discriminate.
Qed.

(** X10: for a balloon number of at least 1 the fallback slot has a defined
    horizontal coordinate, which is 40 or a quarter of the page width on the
    left side and three quarters of the width or 40 short of it on the right
    side; the slot is never below the bottom margin of 80, and on a page at
    least 200 high never above the top margin of 120. *)
Theorem computePerimeterBalloonLayout_slot (balloonNumber totalBalloons : Z)
    (pageW pageH : Q) :
  (1 <= balloonNumber)%Z ->
  let slot := computePerimeterBalloonLayout balloonNumber totalBalloons pageW pageH in
  (exists x, perimeterX slot = Some x /\
     ((perimeterSide slot = SideLeft
       /\ (x = MARGIN_FROM_EDGE \/ x = pageW * (25 # 100)))
      \/ (perimeterSide slot = SideRight
          /\ (x = pageW * (75 # 100) \/ x = pageW - MARGIN_FROM_EDGE)))) /\
  perimeterY slot <= pageH - BOTTOM_MARGIN /\
  (200 <= pageH -> TOP_MARGIN <= perimeterY slot).
Proof.
  intros Hb slot. unfold slot, computePerimeterBalloonLayout.
  set (A := pageH - TOP_MARGIN - BOTTOM_MARGIN).
  set (M := (Qfloor (A / MIN_BALLOON_SPACING) + 1)%Z).
  set (n := if (M * 2 <? totalBalloons)%Z then 4%Z else 2%Z).
  assert (Hn : n = 2%Z \/ n = 4%Z) by (unfold n; destruct (_ <? _)%Z; auto).
  set (bpc := Qceiling (inject_Z totalBalloons / inject_Z n)).
  set (col := Z.rem (balloonNumber - 1) n).
  assert (Hcol : (0 <= col < n)%Z).
  { unfold col. apply Z.rem_bound_pos; lia. }
  set (sp := if (1 <? bpc)%Z then _ else _).
  assert (Hsp : MIN_BALLOON_SPACING <= sp) by apply perimeter_spacing_min.
  set (idx := Qfloor (inject_Z (balloonNumber - 1) / inject_Z n)).
  assert (Hidx : (0 <= idx)%Z).
  { unfold idx. destruct Hn as [-> | ->]; rewrite Qfloor_quotient;
      apply Z.div_pos; lia. }
  split; [|split].
  - destruct Hn as [E|E]; rewrite E in *; cbn [Z.eqb Pos.eqb].
    + assert (C : col = 0%Z \/ col = 1%Z) by lia.
      destruct C as [-> | ->]; cbn; eexists; (split; [reflexivity|]); auto.
    + assert (C : col = 0%Z \/ col = 1%Z \/ col = 2%Z \/ col = 3%Z) by lia.
      destruct C as [-> | [-> | [-> | ->]]]; cbn; eexists;
        (split; [reflexivity|]); auto.
  - destruct (if (n =? 2)%Z then _ else _) as [xPos s]. cbn [perimeterY].
    apply Q.le_min_r.
  - intros H200. destruct (if (n =? 2)%Z then _ else _) as [xPos s]. cbn [perimeterY].
    apply Q.min_glb.
    + assert (0 <= inject_Z idx * sp).
      { apply Qmult_le_0_compat.
        - change 0 with (inject_Z 0). rewrite <- Zle_Qle. exact Hidx.
        - unfold MIN_BALLOON_SPACING in Hsp. lra. }
      lra.
    + unfold TOP_MARGIN, BOTTOM_MARGIN. lra.
Qed.

Lemma computePerimeterBalloonLayout_slot_witness :
  let slot := computePerimeterBalloonLayout 3 10 800 600 in
  (exists x, perimeterX slot = Some x /\
     ((perimeterSide slot = SideLeft
       /\ (x = MARGIN_FROM_EDGE \/ x = 800 * (25 # 100)))
      \/ (perimeterSide slot = SideRight
          /\ (x = 800 * (75 # 100) \/ x = 800 - MARGIN_FROM_EDGE)))) /\
  perimeterY slot <= 600 - BOTTOM_MARGIN /\
  (200 <= 600 -> TOP_MARGIN <= perimeterY slot).
Proof.
  apply (computePerimeterBalloonLayout_slot 3 10 800 600). lia.
Defined.

Lemma perimeterY_eq (b total : Z) (pageW pageH : Q) :
  perimeterY (computePerimeterBalloonLayout b total pageW pageH)
  = Qmin (TOP_MARGIN
          + inject_Z (Qfloor (inject_Z (b - 1)
                              / inject_Z (perimeterColumns total pageH)))
            * perimeterSpacing total pageH)
         (pageH - BOTTOM_MARGIN).
Proof.
  unfold computePerimeterBalloonLayout, perimeterSpacing, perimeterColumns,
    perimeterCapacity.
  destruct (if (_ =? 2)%Z then _ else _) as [xPos s]. reflexivity.
Qed.

Lemma perimeterX_eq (b total : Z) (pageW pageH : Q) :
  perimeterX (computePerimeterBalloonLayout b total pageW pageH)
  = let n := perimeterColumns total pageH in
    let col := Z.rem (b - 1) n in
    if (n =? 2)%Z
    then Some (if (col =? 0)%Z then MARGIN_FROM_EDGE else pageW - MARGIN_FROM_EDGE)
    else index [MARGIN_FROM_EDGE; pageW * (25 # 100); pageW * (75 # 100);
                pageW - MARGIN_FROM_EDGE] (Fin col).
Proof.
  unfold computePerimeterBalloonLayout, perimeterColumns, perimeterCapacity.
  cbv zeta.
  destruct ((if (_ <? _)%Z then 4%Z else 2%Z) =? 2)%Z; reflexivity.
Qed.

Lemma perimeterColumns_cases (total : Z) (pageH : Q) :
  (perimeterColumns total pageH = 2%Z /\ (total <= 2 * perimeterCapacity pageH)%Z)
  \/ (perimeterColumns total pageH = 4%Z /\ (2 * perimeterCapacity pageH < total)%Z).
Proof.
  unfold perimeterColumns.
  destruct (Z.ltb_spec (perimeterCapacity pageH * 2) total); [right | left];
    split; try reflexivity; lia.
Qed.

Lemma perimeterCapacity_fits (pageH : Q) :
  200 <= pageH ->
  (1 <= perimeterCapacity pageH)%Z /\
  MIN_BALLOON_SPACING * inject_Z (perimeterCapacity pageH - 1)
  <= pageH - TOP_MARGIN - BOTTOM_MARGIN.
Proof.
  intros H. unfold perimeterCapacity, TOP_MARGIN, BOTTOM_MARGIN, MIN_BALLOON_SPACING.
  set (A := pageH - 120 - 80).
  assert (HA : 0 <= A) by (unfold A; lra).
  assert (F : (0 <= Qfloor (A / 25))%Z).
  { change 0%Z with (Qfloor 0). apply Qfloor_resp_le.
    apply Qle_shift_div_l; [reflexivity|]. lra. }
  split; [lia|].
  replace (Qfloor (A / 25) + 1 - 1)%Z with (Qfloor (A / 25)) by lia.
  pose proof (Qfloor_le (A / 25)) as L.
  assert (E : 25 * (A / 25) == A) by field.
  rewrite <- E at 2. apply Qmult_le_l; [reflexivity | exact L].
Qed.

Lemma perimeterSpacing_min (total : Z) (pageH : Q) :
  MIN_BALLOON_SPACING <= perimeterSpacing total pageH.
Proof.
  unfold perimeterSpacing. cbv zeta. apply perimeter_spacing_min.
Qed.

(** Within the capacity of the layout no slot is clamped: the balloons of a
    column are a full spacing apart. *)
Lemma perimeter_unclamped (b total : Z) (pageW pageH : Q) :
  200 <= pageH -> (1 <= b <= total)%Z ->
  (total <= 4 * perimeterCapacity pageH)%Z ->
  perimeterY (computePerimeterBalloonLayout b total pageW pageH)
  == TOP_MARGIN
     + inject_Z ((b - 1) / perimeterColumns total pageH)
       * perimeterSpacing total pageH.
Proof.
  intros HH Hb Hcap. rewrite perimeterY_eq.
  destruct (perimeterCapacity_fits pageH HH) as [HM HfitM].
  set (M := perimeterCapacity pageH) in *.
  set (A := pageH - TOP_MARGIN - BOTTOM_MARGIN) in *.
  assert (Hn : exists n : positive,
             perimeterColumns total pageH = Zpos n /\ (total <= Zpos n * M)%Z
             /\ (Zpos n = 2 \/ Zpos n = 4)%Z).
  { destruct (perimeterColumns_cases total pageH) as [[E L]|[E L]]; fold M in L.
    - exists 2%positive. repeat split; [exact E | lia | left; reflexivity].
    - exists 4%positive. repeat split; [exact E | lia | right; reflexivity]. }
  destruct Hn as (n & En & HnM & Hn24).
  unfold perimeterSpacing. rewrite En. rewrite Qfloor_quotient, Qceiling_quotient.
  set (idx := ((b - 1) / Zpos n)%Z).
  set (bpc := (- (- total / Zpos n))%Z).
  assert (Hidx0 : (0 <= idx)%Z) by (apply Z.div_pos; lia).
  assert (Hidx : (idx <= bpc - 1)%Z).
  { unfold idx, bpc. destruct Hn24 as [E|E]; rewrite E;
      Z.div_mod_to_equations; lia. }
  assert (Hbpc : (bpc <= M)%Z).
  { unfold bpc. destruct Hn24 as [E|E]; rewrite E in *;
      Z.div_mod_to_equations; lia. }
  cbv zeta. fold A.
  apply Q.min_l.
  assert (G : inject_Z idx
              * (if (1 <? bpc)%Z
                 then Qmax MIN_BALLOON_SPACING
                        (Qmin PREFERRED_BALLOON_SPACING (A / inject_Z (bpc - 1)))
                 else PREFERRED_BALLOON_SPACING) <= A).
  { destruct (Z.ltb_spec 1 bpc) as [B1|B1].
    - assert (P : 0 < inject_Z (bpc - 1)).
      { change 0 with (inject_Z 0). rewrite <- Zlt_Qlt. lia. }
      assert (R : MIN_BALLOON_SPACING <= A / inject_Z (bpc - 1)).
      { apply Qle_shift_div_l; [exact P|].
        eapply Qle_trans; [|exact HfitM].
        apply Qmult_le_l; [reflexivity|]. rewrite <- Zle_Qle. lia. }
      assert (S : Qmax MIN_BALLOON_SPACING
                    (Qmin PREFERRED_BALLOON_SPACING (A / inject_Z (bpc - 1)))
                  <= A / inject_Z (bpc - 1)).
      { apply Q.max_lub; [exact R | apply Q.le_min_r]. }
      assert (E : inject_Z (bpc - 1) * (A / inject_Z (bpc - 1)) == A).
      { field. intros Z. rewrite Z in P. revert P. apply Qlt_irrefl. }
      rewrite <- E at 2.
      apply Qmult_le_compat_nonneg.
      + split; [change 0 with (inject_Z 0); rewrite <- Zle_Qle; exact Hidx0|].
        rewrite <- Zle_Qle. exact Hidx.
      + split; [|exact S].
        eapply Qle_trans; [|apply Q.le_max_l]. discriminate.
    - assert (idx = 0%Z) by lia. rewrite H. rewrite Qmult_0_l.
      unfold A, TOP_MARGIN, BOTTOM_MARGIN. lra. }
  unfold A in *. lra.
Qed.

Lemma calculateBalloonSize_at_most_24 (n : Z) : inject_Z (calculateBalloonSize n) <= 24.
Proof.
  change 24 with (inject_Z 24). rewrite <- Zle_Qle. unfold calculateBalloonSize.
  repeat match goal with
         | |- context [(?a <=? ?b)%Z] => destruct (Z.leb_spec a b)
         end; lia.
Qed.

(** Centres that are 24 apart along one axis belong to circles of diameter
    at most 24 that do not overlap. *)
Lemma apart_no_overlap (x1 y1 x2 y2 d : Q) :
  d <= 24 ->
  (24 <= x2 - x1 \/ 24 <= x1 - x2 \/ 24 <= y2 - y1) ->
  circlesOverlap x1 y1 d (mkBalloon x2 y2 d) = false.
Proof.
  intros Hd H. unfold circlesOverlap. cbn [xPosition yPosition balloonDiameter].
  apply hypot_lt_false. intros Hc.
  assert (C : (d / 2 + d / 2) * (d / 2 + d / 2) <= 24 * 24).
  { apply Qsquare_le; [apply Qlt_le_weak; exact Hc|].
    setoid_replace (d / 2 + d / 2) with d by field. exact Hd. }
  eapply Qle_trans; [exact C|].
  pose proof (Qsquare_nonneg (x1 - x2)) as Sx.
  pose proof (Qsquare_nonneg (y1 - y2)) as Sy.
  destruct H as [H|[H|H]].
  - assert (24 * 24 <= (x1 - x2) * (x1 - x2)).
    { setoid_replace ((x1 - x2) * (x1 - x2)) with ((x2 - x1) * (x2 - x1)) by ring.
      apply Qsquare_le; [discriminate | exact H]. }
    lra.
  - assert (24 * 24 <= (x1 - x2) * (x1 - x2)).
    { apply Qsquare_le; [discriminate | exact H]. }
    lra.
  - assert (24 * 24 <= (y1 - y2) * (y1 - y2)).
    { setoid_replace ((y1 - y2) * (y1 - y2)) with ((y2 - y1) * (y2 - y1)) by ring.
      apply Qsquare_le; [discriminate | exact H]. }
    lra.
Qed.

(** X11: fallback slots do not collide with one another.  On a page at
    least 256 wide and 200 high, with the total count within four times the
    capacity of a column, two different balloon numbers get slots that are
    at least 24 apart horizontally or, in the same column, at least 25
    apart vertically; balloons of the diameter chosen for the count, placed
    at the two slots, do not overlap. *)
Theorem computePerimeterBalloonLayout_slots_apart
    (b1 b2 total : Z) (pageW pageH : Q) :
  200 <= pageH -> 256 <= pageW ->
  (1 <= b1 < b2)%Z -> (b2 <= total)%Z ->
  (total <= 4 * perimeterCapacity pageH)%Z ->
  let slot1 := computePerimeterBalloonLayout b1 total pageW pageH in
  let slot2 := computePerimeterBalloonLayout b2 total pageW pageH in
  exists x1 x2,
    perimeterX slot1 = Some x1 /\ perimeterX slot2 = Some x2 /\
    (24 <= x2 - x1 \/ 24 <= x1 - x2
     \/ (x1 = x2 /\ 25 <= perimeterY slot2 - perimeterY slot1)) /\
    circlesOverlap x1 (perimeterY slot1) (inject_Z (calculateBalloonSize total))
      (mkBalloon x2 (perimeterY slot2) (inject_Z (calculateBalloonSize total)))
    = false.
Proof.
  intros HH HW Hb1 Hb2 Hcap slot1 slot2.
  assert (Y1 := perimeter_unclamped b1 total pageW pageH HH ltac:(lia) Hcap).
  assert (Y2 := perimeter_unclamped b2 total pageW pageH HH ltac:(lia) Hcap).
  fold slot1 in Y1. fold slot2 in Y2.
  pose proof (perimeterSpacing_min total pageH) as Hsp.
  unfold MIN_BALLOON_SPACING in Hsp.
  pose proof (perimeterX_eq b1 total pageW pageH) as X1.
  pose proof (perimeterX_eq b2 total pageW pageH) as X2.
  fold slot1 in X1. fold slot2 in X2. cbv zeta in X1, X2.
  rewrite !Z.rem_mod_nonneg in X1, X2 by
    (destruct (perimeterColumns_cases total pageH) as [[E _]|[E _]]; rewrite ?E; lia).
  set (n := perimeterColumns total pageH) in *.
  assert (Hn : n = 2%Z \/ n = 4%Z).
  { destruct (perimeterColumns_cases total pageH) as [[E _]|[E _]]; auto. }
  set (c1 := ((b1 - 1) mod n)%Z) in *.
  set (c2 := ((b2 - 1) mod n)%Z) in *.
  assert (Hc1 : (0 <= c1 < n)%Z) by (apply Z.mod_pos_bound; lia).
  assert (Hc2 : (0 <= c2 < n)%Z) by (apply Z.mod_pos_bound; lia).
  assert (Hy : c1 = c2 -> 25 <= perimeterY slot2 - perimeterY slot1).
  { intros Ec.
    assert (I : ((b1 - 1) / n + 1 <= (b2 - 1) / n)%Z).
    { unfold c1, c2 in Ec. destruct Hn as [E|E]; rewrite E in *;
        Z.div_mod_to_equations; lia. }
    rewrite Y1, Y2.
    rewrite Zle_Qle, inject_Z_plus in I. change (inject_Z 1) with 1 in I.
    set (i1 := inject_Z ((b1 - 1) / n)) in *.
    set (i2 := inject_Z ((b2 - 1) / n)) in *.
    set (sp := perimeterSpacing total pageH) in *.
    assert (G : 1 * sp <= (i2 - i1) * sp).
    { apply Qmult_le_compat_r; lra. }
    setoid_replace (TOP_MARGIN + i2 * sp - (TOP_MARGIN + i1 * sp))
      with ((i2 - i1) * sp) by ring.
    lra. }
  assert (G : exists x1 x2,
             perimeterX slot1 = Some x1 /\ perimeterX slot2 = Some x2 /\
             (24 <= x2 - x1 \/ 24 <= x1 - x2
              \/ (x1 = x2 /\ 25 <= perimeterY slot2 - perimeterY slot1))).
  { unfold MARGIN_FROM_EDGE in *.
    destruct Hn as [E|E]; rewrite E in *; cbn [Z.eqb Pos.eqb] in X1, X2.
    - assert (C1 : c1 = 0%Z \/ c1 = 1%Z) by lia.
      assert (C2 : c2 = 0%Z \/ c2 = 1%Z) by lia.
      destruct C1 as [D1|D1], C2 as [D2|D2]; rewrite D1 in X1; rewrite D2 in X2;
        cbn in X1, X2; do 2 eexists; (split; [exact X1|]); (split; [exact X2|]).
      + right. right. split; [reflexivity | apply Hy; congruence].
      + left. lra.
      + right. left. lra.
      + right. right. split; [reflexivity | apply Hy; congruence].
    - assert (C1 : c1 = 0%Z \/ c1 = 1%Z \/ c1 = 2%Z \/ c1 = 3%Z) by lia.
      assert (C2 : c2 = 0%Z \/ c2 = 1%Z \/ c2 = 2%Z \/ c2 = 3%Z) by lia.
      destruct C1 as [D1|[D1|[D1|D1]]], C2 as [D2|[D2|[D2|D2]]];
        rewrite D1 in X1; rewrite D2 in X2;
        cbn in X1, X2; do 2 eexists; (split; [exact X1|]); (split; [exact X2|]);
        first [ right; right; split; [reflexivity | apply Hy; congruence]
              | left; lra
              | right; left; lra ]. }
  destruct G as (x1 & x2 & E1 & E2 & D).
  exists x1, x2. repeat split; try assumption.
  apply apart_no_overlap; [apply calculateBalloonSize_at_most_24|].
  destruct D as [D|[D|[_ D]]]; [left; exact D | right; left; exact D |].
  right. right. lra.
Qed.

Lemma computePerimeterBalloonLayout_slots_apart_witness :
  let slot1 := computePerimeterBalloonLayout 1 10 800 600 in
  let slot2 := computePerimeterBalloonLayout 3 10 800 600 in
  exists x1 x2,
    perimeterX slot1 = Some x1 /\ perimeterX slot2 = Some x2 /\
    (24 <= x2 - x1 \/ 24 <= x1 - x2
     \/ (x1 = x2 /\ 25 <= perimeterY slot2 - perimeterY slot1)) /\
    circlesOverlap x1 (perimeterY slot1) (inject_Z (calculateBalloonSize 10))
      (mkBalloon x2 (perimeterY slot2) (inject_Z (calculateBalloonSize 10)))
    = false.
Proof.
  apply (computePerimeterBalloonLayout_slots_apart 1 3 10 800 600).
  - discriminate.
  - discriminate.
  - lia.
  - lia.
  - vm_compute. discriminate.
Defined.

(** ** Text matcher: edit distance and similarity *)

Local Open Scope nat_scope.

Lemma levRow_bounded (c2 : ascii) (str1 : list ascii) :
  forall (above : list nat) (leftCell i j : nat),
    cellsBounded i j above ->
    cellsBounded (S i) (S j) (levRow c2 str1 above leftCell).
Proof.
  induction str1 as [|c1 str1' IH]; intros above leftCell i j B k v H.
  - destruct k; discriminate H.
  - cbn [levRow] in H.
    destruct above as [|diag [|upper above']];
      try (destruct k; discriminate H).
    assert (Hd : diag <= Nat.max i j).
    { specialize (B 0 diag eq_refl). rewrite Nat.add_0_r in B. exact B. }
    destruct k as [|k].
    + cbn in H. injection H as <-.
      destruct (Ascii.eqb c2 c1); lia.
    + cbn [nth_error] in H.
      apply (IH (upper :: above') _ i (S j)) in H.
      * lia.
      * intros k' v' H'. specialize (B (S k') v' H'). lia.
Qed.

Lemma levRow_length (c2 : ascii) (str1 : list ascii) :
  forall (above : list nat) (leftCell : nat),
    List.length above = S (List.length str1) ->
    List.length (levRow c2 str1 above leftCell) = List.length str1.
Proof.
  induction str1 as [|c1 str1' IH]; intros above leftCell H.
  - destruct above as [|? [|? ?]]; reflexivity.
  - destruct above as [|diag [|upper above']]; try discriminate H.
    cbn [levRow List.length]. f_equal. apply IH. cbn in H |- *. lia.
Qed.

Lemma levRows_bounded (str2 str1 : list ascii) :
  forall (i : nat) (above : list nat),
    cellsBounded i 0 above ->
    List.length above = S (List.length str1) ->
    cellsBounded (i + List.length str2) 0 (levRows str2 str1 (S i) above)
    /\ List.length (levRows str2 str1 (S i) above) = S (List.length str1).
Proof.
  induction str2 as [|c2 str2' IH]; intros i above B L.
  - cbn [levRows List.length]. rewrite Nat.add_0_r. split; assumption.
  - cbn [levRows List.length].
    replace (i + S (List.length str2')) with (S i + List.length str2') by lia.
    apply IH.
    + intros k v H. destruct k as [|k].
      * cbn in H. injection H as <-. lia.
      * cbn [nth_error] in H.
        apply (levRow_bounded c2 str1 above (S i) i 0 B) in H. lia.
    + cbn [List.length]. f_equal. apply levRow_length. exact L.
Qed.

Lemma last_bounded (l : list nat) (b : nat) :
  (forall k v, nth_error l k = Some v -> v <= b) -> last l 0 <= b.
Proof.
  induction l as [|a l IH]; intros H; [cbn; lia|].
  destruct l as [|a' l'].
  - cbn. apply (H 0). reflexivity.
  - change (last (a :: a' :: l') 0) with (last (a' :: l') 0).
    apply IH. intros k v Hk. apply (H (S k)). exact Hk.
Qed.

Lemma length_list_ascii_of_string (s : string) :
  List.length (list_ascii_of_string s) = String.length s.
Proof.
  induction s as [|c s IH]; [reflexivity|]. cbn. f_equal. exact IH.
Qed.

Lemma levenshteinDistance_bounded (str1 str2 : string) :
  levenshteinDistance str1 str2 <= Nat.max (String.length str1) (String.length str2).
Proof.
  unfold levenshteinDistance.
  set (s1 := list_ascii_of_string str1). set (s2 := list_ascii_of_string str2).
  destruct (levRows_bounded s2 s1 0 (seq 0 (S (List.length s1)))) as [B L].
  - intros k v H. apply nth_error_nth with (d := 0) in H.
    destruct (Nat.lt_ge_cases k (S (List.length s1))) as [K|K].
    + rewrite seq_nth in H by exact K. lia.
    + rewrite nth_overflow in H by (rewrite length_seq; exact K). lia.
  - apply length_seq.
  - apply last_bounded. intros k v H.
    assert (K : k < S (List.length s1)).
    { rewrite <- L. apply nth_error_Some. congruence. }
    specialize (B k v H). cbn in B.
    unfold s1, s2 in *. rewrite !length_list_ascii_of_string in *. lia.
Qed.

Lemma last_nth_error (l : list nat) (n v d : nat) :
  List.length l = S n -> nth_error l n = Some v -> last l d = v.
Proof.
  revert n. induction l as [|a l IH]; intros n L H; [discriminate L|].
  destruct l as [|a' l'].
  - destruct n; [|discriminate L]. cbn in H. injection H as <-. reflexivity.
  - destruct n as [|n]; [discriminate L|].
    change (last (a :: a' :: l') d) with (last (a' :: l') d).
    apply (IH n); [cbn in L |- *; lia | exact H].
Qed.

Lemma levRow_diagonal (c2 : ascii) (str1 : list ascii) :
  forall (above : list nat) (leftCell k d : nat),
    List.length above = S (List.length str1) ->
    nth_error str1 k = Some c2 ->
    nth_error above k = Some d ->
    nth_error (levRow c2 str1 above leftCell) k = Some d.
Proof.
  induction str1 as [|c1 str1' IH]; intros above leftCell k d L Hc Hd.
  - destruct k; discriminate Hc.
  - destruct above as [|diag [|upper above']]; try discriminate L.
    cbn [levRow]. destruct k as [|k].
    + cbn in Hc, Hd. injection Hc as ->. injection Hd as ->.
      rewrite Ascii.eqb_refl. reflexivity.
    + cbn [nth_error] in *. apply IH; [cbn in L |- *; lia | exact Hc | exact Hd].
Qed.

Lemma levRows_diagonal (t : list ascii) :
  forall (pre : list ascii) (above : list nat),
    List.length above = S (List.length (pre ++ t)) ->
    nth_error above (List.length pre) = Some 0 ->
    nth_error (levRows t (pre ++ t) (S (List.length pre)) above)
      (List.length (pre ++ t)) = Some 0
    /\ List.length (levRows t (pre ++ t) (S (List.length pre)) above)
       = S (List.length (pre ++ t)).
Proof.
  induction t as [|c t' IH]; intros pre above L H.
  - cbn [levRows]. rewrite app_nil_r in *. split; assumption.
  - cbn [levRows].
    replace (pre ++ c :: t')%list with ((pre ++ [c]) ++ t')%list in *
      by (rewrite <- app_assoc; reflexivity).
    replace (S (List.length pre)) with (List.length (pre ++ [c]))
      by (rewrite length_app; cbn; lia).
    apply IH.
    + cbn [List.length]. f_equal. apply levRow_length. exact L.
    + rewrite length_app. cbn [List.length]. rewrite Nat.add_1_r.
      cbn [nth_error]. apply levRow_diagonal.
      * exact L.
      * rewrite <- app_assoc. rewrite nth_error_app2 by lia.
        rewrite Nat.sub_diag. reflexivity.
      * exact H.
Qed.

Lemma last_seq (n : nat) : last (seq 0 (S n)) 0 = n.
Proof.
  apply (last_nth_error _ n).
  - apply length_seq.
  - rewrite nth_error_nth' with (d := 0) by (rewrite length_seq; lia).
    rewrite seq_nth by lia. reflexivity.
Qed.

Lemma levRows_empty_columns (str2 : list ascii) :
  forall i, levRows str2 [] (S i) [i] = [i + List.length str2].
Proof.
  induction str2 as [|c str2' IH]; intros i.
  - cbn. rewrite Nat.add_0_r. reflexivity.
  - cbn [levRows levRow List.length]. rewrite IH. f_equal. lia.
Qed.

Lemma levenshteinDistance_self (str : string) : levenshteinDistance str str = 0.
Proof.
  unfold levenshteinDistance.
  set (s := list_ascii_of_string str).
  destruct (levRows_diagonal s [] (seq 0 (S (List.length s)))) as [D L].
  - apply length_seq.
  - reflexivity.
  - cbn [app List.length] in D, L. apply (last_nth_error _ _ _ _ L D).
Qed.

Lemma levenshteinDistance_empty_r (str : string) :
  levenshteinDistance str "" = String.length str.
Proof.
  unfold levenshteinDistance. cbn [list_ascii_of_string levRows].
  rewrite last_seq. apply length_list_ascii_of_string.
Qed.

Lemma levenshteinDistance_empty_l (str : string) :
  levenshteinDistance "" str = String.length str.
Proof.
  unfold levenshteinDistance. cbn [list_ascii_of_string List.length seq].
  rewrite (levRows_empty_columns _ 0). cbn [last].
  apply length_list_ascii_of_string.
Qed.

(** X12: the edit distance of a string to itself is 0, its distance to the
    empty string is its length, in either argument order, and the distance
    of two strings is never more than the length of the longer one. *)
Theorem levenshteinDistance_basics :
  forall str1 str2 : string,
    levenshteinDistance str1 str1 = 0 /\
    levenshteinDistance str1 "" = String.length str1 /\
    levenshteinDistance "" str1 = String.length str1 /\
    levenshteinDistance str1 str2
    <= Nat.max (String.length str1) (String.length str2).
Proof.
  intros str1 str2. split; [|split; [|split]].
  - apply levenshteinDistance_self.
  - apply levenshteinDistance_empty_r.
  - apply levenshteinDistance_empty_l.
  - apply levenshteinDistance_bounded.
Qed.

Local Open Scope Q_scope.

Lemma ofNat_nonneg (n : nat) : 0 <= inject_Z (Z.of_nat n).
Proof. change 0 with (inject_Z 0). rewrite <- Zle_Qle. lia. Qed.

Lemma ofNat_nonzero (n : nat) : n <> 0%nat -> ~ inject_Z (Z.of_nat n) == 0.
Proof.
  intros N E. apply N.
  apply (proj1 (inject_Z_injective (Z.of_nat n) 0)) in E. lia.
Qed.

(** X13: the fuzzy score is a finite number between 0 and 1 for every pair
    of strings; it is 1 for two empty strings and for a string against
    itself, and 0 for a non-empty string against the empty one. *)
Theorem calculateSimilarity_unit_interval :
  forall str1 str2 : string,
    (exists q : Q, calculateSimilarity str1 str2 = Fin q /\ 0 <= q <= 1) /\
    (exists q : Q, calculateSimilarity str1 str1 = Fin q /\ q == 1) /\
    (str1 <> ""%string ->
     exists q : Q, calculateSimilarity str1 "" = Fin q /\ q == 0).
Proof.
  intros str1 str2.
  assert (G : forall a b : string,
             exists q : Q,
               calculateSimilarity a b = Fin q /\ 0 <= q <= 1 /\
               (String.length (if (String.length b <? String.length a)%nat
                               then a else b) <> 0%nat ->
                q == (inject_Z (Z.of_nat (String.length
                        (if (String.length b <? String.length a)%nat then a else b)))
                      - inject_Z (Z.of_nat (levenshteinDistance
                        (if (String.length b <? String.length a)%nat then a else b)
                        (if (String.length b <? String.length a)%nat then b else a))))
                     / inject_Z (Z.of_nat (String.length
                        (if (String.length b <? String.length a)%nat then a else b))))).
  { intros a b. unfold calculateSimilarity.
    set (longer := if (String.length b <? String.length a)%nat then a else b).
    set (shorter := if (String.length b <? String.length a)%nat then b else a).
    assert (Hls : (String.length shorter <= String.length longer)%nat).
    { unfold longer, shorter.
      destruct (Nat.ltb_spec (String.length b) (String.length a)); lia. }
    destruct (Nat.eqb_spec (String.length longer) 0) as [E|N].
    - exists 1. repeat split; try discriminate. intros X. contradiction.
    - pose proof (levenshteinDistance_bounded longer shorter) as B.
      rewrite Nat.max_l in B by exact Hls.
      unfold ofNat. cbn [sub].
      set (L := inject_Z (Z.of_nat (String.length longer))).
      set (d := inject_Z (Z.of_nat (levenshteinDistance longer shorter))).
      assert (HL : 0 < L).
      { unfold L. change 0 with (inject_Z 0). rewrite <- Zlt_Qlt. lia. }
      assert (Hd : 0 <= d) by apply ofNat_nonneg.
      assert (HdL : d <= L) by (unfold d, L; rewrite <- Zle_Qle; lia).
      rewrite div_fin
        by (intros Z; rewrite Z in HL; revert HL; apply Qlt_irrefl).
      exists ((L - d) / L). split; [reflexivity|]. split; [|reflexivity].
      split.
      + apply Qle_shift_div_l; [exact HL|]. lra.
      + apply Qle_shift_div_r; [exact HL|]. lra. }
  split; [|split].
  - destruct (G str1 str2) as (q & E & B & _). exists q. split; assumption.
  - destruct (G str1 str1) as (q & E & B & F). exists q. split; [exact E|].
    rewrite Nat.ltb_irrefl in F.
    destruct (Nat.eq_dec (String.length str1) 0) as [Z|N].
    + unfold calculateSimilarity in E. rewrite Nat.ltb_irrefl, Z in E.
      cbn in E. injection E as <-. reflexivity.
    + rewrite (F N).
      rewrite levenshteinDistance_self.
      field. apply ofNat_nonzero. exact N.
  - intros Hne. destruct (G str1 ""%string) as (q & E & B & F).
    exists q. split; [exact E|].
    assert (P : (0 < String.length str1)%nat).
    { destruct str1; [contradiction | cbn; lia]. }
    assert (T : (String.length "" <? String.length str1)%nat = true)
      by (apply Nat.ltb_lt; exact P).
    rewrite T in F. rewrite F by lia.
    rewrite levenshteinDistance_empty_r.
    field. apply ofNat_nonzero. lia.
Qed.

(** ** Text matcher: what [findTextPosition] returns *)

Lemma Qle_bool_lt_trans (a b c : Q) :
  Qle_bool a b = true -> Qltb b c = true -> Qltb a c = true.
Proof.
  intros H1 H2. apply Qle_bool_iff in H1. apply Qltb_lt in H2.
  apply Qltb_lt. apply Qle_lt_trans with b; assumption.
Qed.

Lemma leb_ltb_trans (a b c : number) :
  leb a b = true -> ltb b c = true -> ltb a c = true.
Proof.
  destruct a as [p| | |], b as [q| | |], c as [r| | |];
    cbn; try congruence; apply Qle_bool_lt_trans.
Qed.

Lemma ltb_leb (a b : number) : ltb a b = true -> leb a b = true.
Proof.
  destruct a as [p| | |], b as [q| | |]; cbn; try congruence.
  intros H. apply Qltb_lt in H. apply Qle_bool_iff. apply Qlt_le_weak. exact H.
Qed.

Section ScanFacts.

Variables (cleanSearch : string) (minConfidence : number).
Variable pdfPages : list PDFPageInfo.

Lemma offer_invariant (pageInfo : PDFPageInfo) (textItem : PDFTextItem)
    (similarity : number) (b : Best) :
  In pageInfo pdfPages -> In textItem (textItems pageInfo) ->
  cleanText (itemText textItem) <> cleanSearch ->
  bestInvariant cleanSearch minConfidence pdfPages b ->
  bestInvariant cleanSearch minConfidence pdfPages
    (offer minConfidence pageInfo textItem similarity b).
Proof.
  intros Hp Hi Hne [H0 Hm]. unfold offer.
  destruct (gtb similarity (bestSimilarity b) && geb similarity minConfidence) eqn:E;
    [|split; assumption].
  apply andb_true_iff in E. destruct E as [G M]. unfold gtb in G.
  pose proof (leb_ltb_trans _ _ _ H0 G) as P.
  split; cbn [bestSimilarity bestMatch].
  - apply ltb_leb. exact P.
  - intros m [= <-]. cbn [matchOf confidence text]. repeat split; try assumption.
    exists pageInfo, textItem. repeat split; assumption.
Qed.

Lemma scanItem_invariant (pageInfo : PDFPageInfo) (textItem : PDFTextItem) (b : Best) :
  In pageInfo pdfPages -> In textItem (textItems pageInfo) ->
  bestInvariant cleanSearch minConfidence pdfPages b ->
  match scanItem cleanSearch minConfidence pageInfo textItem b with
  | inl m => exactOutcome cleanSearch pdfPages m
  | inr b' => bestInvariant cleanSearch minConfidence pdfPages b'
  end.
Proof.
  intros Hp Hi Hb. unfold scanItem.
  destruct (String.eqb_spec (cleanText (itemText textItem)) cleanSearch) as [E|N].
  - repeat split; cbn [matchOf confidence text]; try assumption.
    exists pageInfo, textItem. repeat split; assumption.
  - apply offer_invariant; try assumption.
    destruct (_ || _); [apply offer_invariant|]; assumption.
Qed.

Lemma scanItems_invariant (pageInfo : PDFPageInfo) (items : list PDFTextItem) :
  In pageInfo pdfPages -> incl items (textItems pageInfo) ->
  forall b, bestInvariant cleanSearch minConfidence pdfPages b ->
  match scanItems cleanSearch minConfidence pageInfo items b with
  | inl m => exactOutcome cleanSearch pdfPages m
  | inr b' => bestInvariant cleanSearch minConfidence pdfPages b'
  end.
Proof.
  intros Hp. induction items as [|textItem items IH]; intros Hi b Hb;
    cbn [scanItems]; [exact Hb|].
  pose proof (scanItem_invariant pageInfo textItem b Hp
                (Hi textItem (or_introl eq_refl)) Hb) as S.
  destruct (scanItem cleanSearch minConfidence pageInfo textItem b) as [m|b'];
    [exact S|].
  apply IH; [|exact S]. intros i Hin. apply Hi. right. exact Hin.
Qed.

Lemma scanPages_invariant (pages : list PDFPageInfo) :
  incl pages pdfPages ->
  forall b, bestInvariant cleanSearch minConfidence pdfPages b ->
  match scanPages cleanSearch minConfidence pages b with
  | inl m => exactOutcome cleanSearch pdfPages m
  | inr b' => bestInvariant cleanSearch minConfidence pdfPages b'
  end.
Proof.
  induction pages as [|pageInfo pages IH]; intros Hp b Hb;
    cbn [scanPages]; [exact Hb|].
  pose proof (scanItems_invariant pageInfo (textItems pageInfo)
                (Hp pageInfo (or_introl eq_refl)) (incl_refl _) b Hb) as S.
  destruct (scanItems cleanSearch minConfidence pageInfo (textItems pageInfo) b)
    as [m|b']; [exact S|].
  apply IH; [|exact S]. intros p Hin. apply Hp. right. exact Hin.
Qed.

(** Items that are no exact match leave the loop running. *)
Lemma scanItems_no_exact (pageInfo : PDFPageInfo) (items : list PDFTextItem) :
  (forall textItem, In textItem items ->
     cleanText (itemText textItem) <> cleanSearch) ->
  forall b, exists b', scanItems cleanSearch minConfidence pageInfo items b = inr b'.
Proof.
  induction items as [|textItem items IH]; intros H b; cbn [scanItems].
  - exists b. reflexivity.
  - unfold scanItem.
    destruct (String.eqb_spec (cleanText (itemText textItem)) cleanSearch) as [E|N].
    + exfalso. apply (H textItem); [left; reflexivity | exact E].
    + apply IH. intros i Hin. apply H. right. exact Hin.
Qed.

Lemma scanItems_first_exact (pageInfo : PDFPageInfo)
    (before : list PDFTextItem) (textItem : PDFTextItem) (after : list PDFTextItem) :
  (forall i, In i before -> cleanText (itemText i) <> cleanSearch) ->
  cleanText (itemText textItem) = cleanSearch ->
  forall b,
    scanItems cleanSearch minConfidence pageInfo (before ++ textItem :: after) b
    = inl (matchOf pageInfo textItem (Fin 1)).
Proof.
  induction before as [|i before IH]; intros H E b; cbn [app scanItems].
  - unfold scanItem. rewrite (proj2 (String.eqb_eq _ _) E). reflexivity.
  - unfold scanItem.
    destruct (String.eqb_spec (cleanText (itemText i)) cleanSearch) as [E'|N].
    + exfalso. apply (H i); [left; reflexivity | exact E'].
    + apply IH; [|exact E]. intros j Hin. apply H. right. exact Hin.
Qed.

Lemma scanPages_first_exact (pagesBefore : list PDFPageInfo) (pageInfo : PDFPageInfo)
    (pagesAfter : list PDFPageInfo)
    (before : list PDFTextItem) (textItem : PDFTextItem) (after : list PDFTextItem) :
  (forall p i, In p pagesBefore -> In i (textItems p) ->
     cleanText (itemText i) <> cleanSearch) ->
  textItems pageInfo = (before ++ textItem :: after)%list ->
  (forall i, In i before -> cleanText (itemText i) <> cleanSearch) ->
  cleanText (itemText textItem) = cleanSearch ->
  forall b,
    scanPages cleanSearch minConfidence (pagesBefore ++ pageInfo :: pagesAfter) b
    = inl (matchOf pageInfo textItem (Fin 1)).
Proof.
  induction pagesBefore as [|p pagesBefore IH]; intros Hp Ht Hb E b;
    cbn [app scanPages].
  - rewrite Ht, (scanItems_first_exact pageInfo before textItem after Hb E).
    reflexivity.
  - destruct (scanItems_no_exact p (textItems p)
                (fun i Hi => Hp p i (or_introl eq_refl) Hi) b) as [b' ->].
    apply IH; try assumption.
    intros p' i Hin. apply Hp. right. exact Hin.
Qed.

End ScanFacts.

Lemma findTextPosition_cases (searchText : string) (pdfPages : list PDFPageInfo)
    (minConfidence : number) (m : TextMatch) :
  findTextPosition searchText pdfPages minConfidence = Some m ->
  exactOutcome (cleanText searchText) pdfPages m
  \/ (fromPages pdfPages m /\
      geb (confidence m) minConfidence = true /\
      gtb (confidence m) (Fin 0) = true /\
      cleanText (text m) <> cleanText searchText).
Proof.
  unfold findTextPosition. intros H.
  pose proof (scanPages_invariant (cleanText searchText) minConfidence pdfPages
                pdfPages (incl_refl _)
                {| bestMatch := None; bestSimilarity := Fin 0 |}) as S.
  destruct (scanPages _ _ _ _) as [m'|b].
  - injection H as <-. left. apply S. split; [reflexivity | discriminate].
  - right. destruct S as [_ S]; [split; [reflexivity | discriminate]|].
    destruct (S m H) as (P & _ & G & Z & N). repeat split; assumption.
Qed.

(** X14: a match returned by [findTextPosition] is always one of the text
    items of the pages searched: it carries that item's text and box, and
    the zero-based index of the item's page. *)
Theorem findTextPosition_from_item
    (searchText : string) (pdfPages : list PDFPageInfo)
    (minConfidence : number) (m : TextMatch) :
  findTextPosition searchText pdfPages minConfidence = Some m ->
  exists pageInfo textItem,
    In pageInfo pdfPages /\ In textItem (textItems pageInfo) /\
    text m = itemText textItem /\ page m = (pageNumber pageInfo - 1)%Z /\
    x m = itemX textItem /\ y m = itemY textItem /\
    width m = itemWidth textItem /\ height m = itemHeight textItem.
Proof.
  intros H.
  assert (F : fromPages pdfPages m).
  { destruct (findTextPosition_cases _ _ _ _ H) as [[F _]|[F _]]; exact F. }
  destruct F as (pageInfo & textItem & Hp & Hi & E).
  exists pageInfo, textItem. rewrite E. cbn. repeat split; assumption.
Qed.

Lemma findTextPosition_from_item_witness :
  exists pageInfo textItem,
    In pageInfo [samplePage [itemDashes; itemAbcd]] /\
    In textItem (textItems pageInfo) /\
    text (matchOf (samplePage [itemDashes; itemAbcd]) itemAbcd (Fin 1))
    = itemText textItem /\
    page (matchOf (samplePage [itemDashes; itemAbcd]) itemAbcd (Fin 1))
    = (pageNumber pageInfo - 1)%Z /\
    x (matchOf (samplePage [itemDashes; itemAbcd]) itemAbcd (Fin 1)) = itemX textItem /\
    y (matchOf (samplePage [itemDashes; itemAbcd]) itemAbcd (Fin 1)) = itemY textItem /\
    width (matchOf (samplePage [itemDashes; itemAbcd]) itemAbcd (Fin 1))
    = itemWidth textItem /\
    height (matchOf (samplePage [itemDashes; itemAbcd]) itemAbcd (Fin 1))
    = itemHeight textItem.
Proof.
  apply (findTextPosition_from_item "ABCD" [samplePage [itemDashes; itemAbcd]]
           (Fin (7 # 10))).
  vm_compute. reflexivity.
Defined.

(** X15: the first text item in scan order (pages in order, items in order
    within a page) whose cleaned text equals the cleaned query is returned
    with confidence 1, whatever the threshold is (above 1 or NaN included)
    and whatever the items before it scored. *)
Theorem findTextPosition_first_exact
    (searchText : string) (minConfidence : number)
    (pagesBefore : list PDFPageInfo) (pageInfo : PDFPageInfo)
    (pagesAfter : list PDFPageInfo)
    (itemsBefore : list PDFTextItem) (textItem : PDFTextItem)
    (itemsAfter : list PDFTextItem) :
  textItems pageInfo = (itemsBefore ++ textItem :: itemsAfter)%list ->
  (forall p i, In p pagesBefore -> In i (textItems p) ->
     cleanText (itemText i) <> cleanText searchText) ->
  (forall i, In i itemsBefore -> cleanText (itemText i) <> cleanText searchText) ->
  cleanText (itemText textItem) = cleanText searchText ->
  findTextPosition searchText (pagesBefore ++ pageInfo :: pagesAfter) minConfidence
  = Some {| text := itemText textItem; page := (pageNumber pageInfo - 1)%Z;
            x := itemX textItem; y := itemY textItem;
            width := itemWidth textItem; height := itemHeight textItem;
            confidence := Fin 1 |}.
Proof.
  intros Ht Hp Hb E. unfold findTextPosition.
  rewrite (scanPages_first_exact (cleanText searchText) minConfidence
             pagesBefore pageInfo pagesAfter itemsBefore textItem itemsAfter
             Hp Ht Hb E).
  reflexivity.
Qed.

Lemma findTextPosition_first_exact_witness :
  findTextPosition "ABCD" ([] ++ samplePage [itemDashes; itemAbcd] :: []) NaN
  = Some {| text := itemText itemAbcd; page := (1 - 1)%Z;
            x := itemX itemAbcd; y := itemY itemAbcd;
            width := itemWidth itemAbcd; height := itemHeight itemAbcd;
            confidence := Fin 1 |}.
Proof.
  apply (findTextPosition_first_exact "ABCD" NaN [] (samplePage [itemDashes; itemAbcd])
           [] [itemDashes] itemAbcd []).
  - reflexivity.
  - intros p i [].
  - intros i [<-|[]]. vm_compute. discriminate.
  - reflexivity.
Defined.

(** X16: a match whose text is no exact match of the query has a confidence
    above 0 that reaches the threshold; an exact match has confidence 1.
    So no match is returned below the threshold unless it is exact, and
    with a NaN threshold only exact matches are returned. *)
Theorem findTextPosition_meets_threshold
    (searchText : string) (pdfPages : list PDFPageInfo)
    (minConfidence : number) (m : TextMatch) :
  findTextPosition searchText pdfPages minConfidence = Some m ->
  ((cleanText (text m) = cleanText searchText /\ confidence m = Fin 1)
   \/ (cleanText (text m) <> cleanText searchText /\
       geb (confidence m) minConfidence = true /\
       gtb (confidence m) (Fin 0) = true)) /\
  (minConfidence = NaN -> confidence m = Fin 1).
Proof.
  intros H.
  destruct (findTextPosition_cases _ _ _ _ H) as [(_ & C & E)|(_ & G & Z & N)].
  - split; [left; split; assumption | intros _; exact C].
  - split; [right; repeat split; assumption|].
    intros ->. unfold geb in G. destruct (confidence m); discriminate G.
Qed.

Lemma findTextPosition_meets_threshold_witness :
  ((cleanText (text (matchOf (samplePage [itemAbcd]) itemAbcd (Fin (4 # 3))))
    = cleanText "abc"
    /\ confidence (matchOf (samplePage [itemAbcd]) itemAbcd (Fin (4 # 3))) = Fin 1)
   \/ (cleanText (text (matchOf (samplePage [itemAbcd]) itemAbcd (Fin (4 # 3))))
       <> cleanText "abc" /\
       geb (confidence (matchOf (samplePage [itemAbcd]) itemAbcd (Fin (4 # 3))))
         (Fin (7 # 10)) = true /\
       gtb (confidence (matchOf (samplePage [itemAbcd]) itemAbcd (Fin (4 # 3))))
         (Fin 0) = true)) /\
  (Fin (7 # 10) = NaN ->
   confidence (matchOf (samplePage [itemAbcd]) itemAbcd (Fin (4 # 3))) = Fin 1).
Proof.
  apply (findTextPosition_meets_threshold "abc" [samplePage [itemAbcd]]
           (Fin (7 # 10))).
  vm_compute. reflexivity.
Defined.

(** ** Text matcher: the shape of a cleaned text *)

Lemma lowerChar_idempotent (c : ascii) : lowerChar (lowerChar c) = lowerChar c.
Proof. destruct c as [[] [] [] [] [] [] [] []]; reflexivity. Qed.

Lemma normalChar_kept_alphabet (c : ascii) :
  normalChar c = true -> isKept c = true -> cleanAlphabet c = true.
Proof.
  destruct c as [[] [] [] [] [] [] [] []]; vm_compute; intros; congruence.
Qed.

Lemma allChars_collapse (b : bool) (s : string) :
  allChars normalChar (collapseSpaces b (toLowerCase s)) = true.
Proof.
  revert b. induction s as [|c s IH]; intros b; [reflexivity|].
  cbn [toLowerCase collapseSpaces].
  destruct (isSpace (lowerChar c)) eqn:E.
  - destruct b; [apply IH|]. cbn [allChars]. rewrite IH. reflexivity.
  - cbn [allChars]. rewrite IH, andb_true_r.
    unfold normalChar. rewrite lowerChar_idempotent, Ascii.eqb_refl, E. reflexivity.
Qed.

Lemma allChars_keep (s : string) :
  allChars normalChar s = true ->
  allChars cleanAlphabet (keepChars s) = true.
Proof.
  induction s as [|c s IH]; [reflexivity|]. cbn [allChars keepChars].
  intros H. apply andb_true_iff in H. destruct H as [Hc Hs].
  destruct (isKept c) eqn:K; [|apply IH; exact Hs].
  cbn [allChars]. rewrite (normalChar_kept_alphabet c Hc K), (IH Hs). reflexivity.
Qed.

Lemma allChars_trimStart (test : ascii -> bool) (s : string) :
  allChars test s = true -> allChars test (trimStart s) = true.
Proof.
  induction s as [|c s IH]; [reflexivity|]. cbn [trimStart]. intros H.
  destruct (isSpace c); [|exact H].
  apply IH. cbn [allChars] in H. apply andb_true_iff in H. apply H.
Qed.

Lemma allChars_trimEnd (test : ascii -> bool) (s : string) :
  allChars test s = true -> allChars test (trimEnd s) = true.
Proof.
  induction s as [|c s IH]; [reflexivity|]. cbn [trimEnd allChars]. intros H.
  apply andb_true_iff in H. destruct H as [Hc Hs]. specialize (IH Hs).
  destruct (trimEnd s) as [|c' r].
  - destruct (isSpace c); [reflexivity|]. cbn [allChars]. rewrite Hc. reflexivity.
  - cbn [allChars] in *. rewrite Hc, IH. reflexivity.
Qed.

Lemma trimStart_first (s : string) :
  match firstChar (trimStart s) with
  | Some c => isSpace c = false
  | None => True
  end.
Proof.
  induction s as [|c s IH]; [exact I|]. cbn [trimStart].
  destruct (isSpace c) eqn:E; [exact IH | exact E].
Qed.

Lemma trimEnd_first (s : string) :
  match firstChar s with
  | Some c => isSpace c = false
  | None => True
  end ->
  match firstChar (trimEnd s) with
  | Some c => isSpace c = false
  | None => True
  end.
Proof.
  destruct s as [|c s]; [intros _; exact I|]. cbn [firstChar trimEnd]. intros H.
  destruct (trimEnd s); [rewrite H|]; exact H.
Qed.

Lemma trimEnd_last (s : string) :
  match lastChar (trimEnd s) with
  | Some c => isSpace c = false
  | None => True
  end.
Proof.
  induction s as [|c s IH]; [exact I|]. cbn [trimEnd].
  destruct (trimEnd s) as [|c' r].
  - destruct (isSpace c) eqn:E; [exact I | exact E].
  - exact IH.
Qed.

(** X17: for a text of Latin-1 characters (every code unit below 256,
    which is what a [string] holds here), the cleaned text is made of
    the letters a to z, digits, the underscore, the space, the dot,
    plus-minus and degree only, and it neither starts nor ends with white
    space.  The capital O with stroke, which the filter lists, never
    survives: it is lowered first and then dropped.  (The filter also keeps
    [U+2205], which is no Latin-1 character; texts that hold it are not
    covered.) *)
Theorem cleanText_normal_form (s : string) :
  allChars cleanAlphabet (cleanText s) = true /\
  match firstChar (cleanText s) with
  | Some c => isSpace c = false
  | None => True
  end /\
  match lastChar (cleanText s) with
  | Some c => isSpace c = false
  | None => True
  end.
Proof.
  unfold cleanText, trim. split; [|split].
  - apply allChars_trimEnd, allChars_trimStart, allChars_keep, allChars_collapse.
  - apply trimEnd_first, trimStart_first.
  - apply trimEnd_last.
Qed.

(** ** Decimal keys *)

Lemma to_int_not_nil (z : Z) :
  Z.to_int z <> Decimal.Pos Decimal.Nil /\ Z.to_int z <> Decimal.Neg Decimal.Nil.
Proof.
  destruct z; cbn; split; try discriminate; intros [= H];
    revert H; apply DecimalPos.Unsigned.to_uint_nonnil.
Qed.

Lemma intToString_injective (a b : Z) : intToString a = intToString b -> a = b.
Proof.
  unfold intToString. intros H.
  apply (f_equal NilZero.int_of_string) in H.
  destruct (to_int_not_nil a) as [A1 A2]. destruct (to_int_not_nil b) as [B1 B2].
  rewrite !NilZero.isi in H by assumption.
  injection H as H. apply (f_equal Z.of_int) in H.
  rewrite !DecimalZ.of_to in H. exact H.
Qed.

Lemma StronglySorted_lt_NoDup (l : list nat) : StronglySorted lt l -> NoDup l.
Proof.
  induction 1 as [|a l S IH F]; constructor; [|exact IH].
  intros Hin. rewrite Forall_forall in F. specialize (F a Hin). lia.
Qed.

(** ** Annotation phase: acceptance, counts and writes *)

Lemma leb_trans (a b c : number) : leb a b = true -> leb b c = true -> leb a c = true.
Proof.
  destruct a as [p| | |], b as [q| | |], c as [r| | |]; cbn; try congruence.
  intros H1 H2. apply Qle_bool_iff in H1, H2. apply Qle_bool_iff.
  apply Qle_trans with q; assumption.
Qed.

(** A match of the pattern loop has confidence 1 or reaches the threshold. *)
Lemma firstMatch_threshold (patterns : list string) (pdfPages : list PDFPageInfo)
    (c : number) (m : TextMatch) :
  firstMatch patterns pdfPages c = Some m ->
  confidence m = Fin 1 \/ geb (confidence m) c = true.
Proof.
  intros H. apply firstMatch_some in H.
  destruct H as (before & pattern & after & _ & _ & H).
  destruct (findTextPosition_cases _ _ _ _ H) as [(_ & C & _)|(_ & G & _)];
    [left | right]; assumption.
Qed.

Lemma inherited_threshold (requirementType : string) :
  inherited requirementType = true -> acceptanceThreshold requirementType = NaN.
Proof.
  unfold inherited, inheritedKeys. cbn [existsb]. intros H.
  repeat (apply orb_true_iff in H; destruct H as [H|H]);
    try discriminate H;
    apply String.eqb_eq in H; subst; reflexivity.
Qed.

Lemma acceptanceThreshold_cases (requirementType : string) :
  acceptanceThreshold requirementType = Fin (8 # 10)
  \/ acceptanceThreshold requirementType = Fin (55 # 100)
  \/ acceptanceThreshold requirementType = Fin (7 # 10)
  \/ (inherited requirementType = true /\ acceptanceThreshold requirementType = NaN).
Proof.
  destruct (inherited requirementType) eqn:I.
  - right. right. right. split; [reflexivity|]. apply inherited_threshold. exact I.
  - unfold acceptanceThreshold. rewrite I.
    repeat match goal with
           | |- context [String.eqb ?a ?b] => destruct (String.eqb a b)
           end; auto.
Qed.

Lemma geb_NaN (n : number) : geb n NaN = false.
Proof. destruct n; reflexivity. Qed.

Section AnnotationFacts.

Variable numberToString : number -> string.

Lemma routeMatcher_meets_table
    (pdfPages : list PDFPageInfo) (char : ExtractedCharacteristic) (m : TextMatch) :
  routeMatcher numberToString pdfPages char = Some m ->
  inherited (requirementType char) = false ->
  truthyString (gdtType char) = false
  \/ acceptanceThreshold (requirementType char) <> Fin (8 # 10) ->
  geb (confidence m) (acceptanceThreshold (requirementType char)) = true.
Proof.
  intros Hm I Hc.
  assert (T : acceptanceThreshold (requirementType char) = Fin (8 # 10)
              \/ acceptanceThreshold (requirementType char) = Fin (55 # 100)
              \/ acceptanceThreshold (requirementType char) = Fin (7 # 10)).
  { destruct (acceptanceThreshold_cases (requirementType char))
      as [A | [A | [A | [A _]]]]; auto. congruence. }
  assert (G : geb (confidence m) (acceptanceThreshold (requirementType char)) = true).
  { unfold routeMatcher in Hm.
    destruct (String.eqb_spec (requirementType char) "dimension") as [E|N];
      cbn [andb] in Hm.
    - destruct (truthyString (gdtType char)) eqn:Tg; cbn [negb] in Hm.
      + unfold findGDTPosition in Hm.
        rewrite E in *. change (acceptanceThreshold "dimension") with (Fin (55 # 100)).
        destruct (firstMatch_threshold _ _ _ _ Hm) as [-> | G]; [reflexivity|].
        unfold geb in *. apply (leb_trans _ (Fin (7 # 10))); [reflexivity | exact G].
      + unfold findDimensionPosition in Hm.
        rewrite E in *. change (acceptanceThreshold "dimension") with (Fin (55 # 100)).
        destruct (firstMatch_threshold _ _ _ _ Hm) as [-> | G]; [reflexivity|].
        unfold geb in *. apply (leb_trans _ (Fin (6 # 10))); [reflexivity | exact G].
    - destruct (truthyString (gdtType char)) eqn:Tg.
      + destruct Hc as [Hc|Hc]; [discriminate Hc|].
        unfold findGDTPosition in Hm.
        destruct (firstMatch_threshold _ _ _ _ Hm) as [C | G].
        * rewrite C. destruct T as [-> | [-> | ->]]; reflexivity.
        * unfold geb in *.
          destruct T as [A | [-> | ->]]; [contradiction | |];
            apply (leb_trans _ (Fin (7 # 10))); try exact G; reflexivity.
      + unfold findNotePosition in Hm.
        destruct (findTextPosition_cases _ _ _ _ Hm) as [(_ & C & _)|(_ & G & _)].
        * rewrite C. destruct T as [-> | [-> | ->]]; reflexivity.
        * unfold geb in *.
          destruct T as [-> | [-> | ->]];
            apply (leb_trans _ (Fin (8 # 10))); try exact G; reflexivity. }
  exact G.
Qed.


(** A match of the GD&T matcher is an exact one or reaches 0.7. *)
Lemma findGDTPosition_threshold (description : string) (gdt : option string)
    (pdfPages : list PDFPageInfo) (m : TextMatch) :
  findGDTPosition description gdt pdfPages = Some m ->
  confidence m = Fin 1 \/ geb (confidence m) (Fin (7 # 10)) = true.
Proof.
  unfold findGDTPosition. intros Hm. exact (firstMatch_threshold _ _ _ _ Hm).
Qed.

(** X18: the acceptance table rejects a match of the routed matcher in two
    cases only: when the requirement type is a name inherited from
    [Object.prototype], such as [constructor] (the threshold is then no
    number, and even a match of confidence 1 is rejected), and when the
    characteristic has a GD&T type, its requirement type is note, material
    or process, and the confidence is below that table value of 0.8 (the
    GD&T matcher accepts from 0.7).  A rejected match leaves the loop's
    state as it was, an accepted one is counted. *)
Theorem routeMatcher_accepted
    (pdfPages : list PDFPageInfo) (char : ExtractedCharacteristic)
    (drawingId : string) (i : nat) (p : Pending) (m : TextMatch) :
  routeMatcher numberToString pdfPages char = Some m ->
  let threshold := acceptanceThreshold (requirementType char) in
  (geb (confidence m) threshold = false <->
   inherited (requirementType char) = true
   \/ (truthyString (gdtType char) = true /\ threshold = Fin (8 # 10) /\
       ltb (confidence m) (Fin (8 # 10)) = true)) /\
  (if geb (confidence m) threshold
   then pendingMatched (matchStep numberToString drawingId pdfPages i char p)
        = S (pendingMatched p)
   else matchStep numberToString drawingId pdfPages i char p = p).
Proof.
  intros Hm threshold. subst threshold. split.
  - split.
    + intros R. destruct (inherited (requirementType char)) eqn:I; [left; reflexivity|].
      right.
      destruct (truthyString (gdtType char)) eqn:Tg.
      2:{ rewrite (routeMatcher_meets_table _ _ _ Hm I) in R; [discriminate R|].
          left. exact Tg. }
      assert (E : acceptanceThreshold (requirementType char) = Fin (8 # 10)).
      { destruct (acceptanceThreshold_cases (requirementType char))
          as [A | [A | [A | [A _]]]]; [exact A | | | congruence];
          (rewrite (routeMatcher_meets_table _ _ _ Hm I) in R; [discriminate R|]);
          right; rewrite A; discriminate. }
      split; [reflexivity|]. split; [exact E|].
      assert (N : String.eqb (requirementType char) "dimension" = false).
      { destruct (String.eqb_spec (requirementType char) "dimension") as [D|D];
          [|reflexivity].
        rewrite D in E. discriminate E. }
      unfold routeMatcher in Hm. rewrite N, Tg in Hm. cbn [andb] in Hm.
      rewrite E in R.
      destruct (findGDTPosition_threshold _ _ _ _ Hm) as [C|G].
      * rewrite C in R. discriminate R.
      * destruct (confidence m) as [q| | |]; try discriminate G; try discriminate R.
        unfold geb, leb in R. unfold ltb, Qltb. rewrite R. reflexivity.
    + intros [I | (_ & E & L)].
      * rewrite (inherited_threshold _ I). apply geb_NaN.
      * rewrite E.
        destruct (confidence m) as [q| | |]; try discriminate L; [|reflexivity].
        unfold ltb, Qltb in L. unfold geb, leb.
        destruct (Qle_bool (8 # 10) q); [discriminate L | reflexivity].
  - unfold matchStep. rewrite Hm.
    destruct (geb (confidence m) (acceptanceThreshold (requirementType char)));
      reflexivity.
Qed.

Lemma matchStep_cases (drawingId : string) (pdfPages : list PDFPageInfo)
    (i : nat) (char : ExtractedCharacteristic) (p : Pending) :
  matchStep numberToString drawingId pdfPages i char p = p
  \/ exists m box record,
       matchStep numberToString drawingId pdfPages i char p
       = {| pendingMatched := S (pendingMatched p);
            annotations := annotations p ++ [box];
            annotationRecords := annotationRecords p ++ [record];
            locationMatches := locationMatches p ++ [(i, m)] |}
       /\ extractionKey record = intToString (Z.of_nat i)
       /\ aiConfidence record = confidence m.
Proof.
  unfold matchStep.
  destruct (routeMatcher numberToString pdfPages char) as [m|]; [|left; reflexivity].
  destruct (geb (confidence m) _); [|left; reflexivity].
  right. do 3 eexists. split; [reflexivity|]. split; reflexivity.
Qed.

Lemma StronglySorted_snoc (l : list nat) (i : nat) :
  StronglySorted lt l -> Forall (fun k => (k < i)%nat) l ->
  StronglySorted lt (l ++ [i]).
Proof.
  induction 1 as [|a l S IH F]; intros B; cbn.
  - constructor; constructor.
  - inversion B; subst. constructor; [apply IH; assumption|].
    apply Forall_app. split; [exact F | constructor; [assumption | constructor]].
Qed.

Lemma matchStep_invariant (drawingId : string) (pdfPages : list PDFPageInfo)
    (i : nat) (char : ExtractedCharacteristic) (p : Pending) :
  pendingInvariant i p ->
  pendingInvariant (S i) (matchStep numberToString drawingId pdfPages i char p).
Proof.
  intros (H1 & H2 & H3 & H4 & H5 & H6 & H7).
  assert (W : Forall (fun k => (k < S i)%nat) (map fst (locationMatches p))).
  { eapply Forall_impl; [|exact H7]. cbn. intros k Hk. lia. }
  destruct (matchStep_cases drawingId pdfPages i char p)
    as [-> | (m & box & record & -> & Ek & Ec)].
  - repeat split; assumption.
  - unfold pendingInvariant.
    cbn [pendingMatched annotations annotationRecords locationMatches].
    rewrite !length_app, !map_app. cbn [List.length map fst snd].
    rewrite Ek, Ec, H4, H5.
    repeat split; try lia; try reflexivity.
    + apply StronglySorted_snoc; assumption.
    + apply Forall_app. split; [exact W | constructor; [lia | constructor]].
Qed.

Lemma matchLoop_invariant (drawingId : string) (pdfPages : list PDFPageInfo)
    (characteristics : list ExtractedCharacteristic) :
  forall (i : nat) (p : Pending),
    pendingInvariant i p ->
    pendingInvariant (i + List.length characteristics)
      (matchLoop numberToString drawingId pdfPages i characteristics p)
    /\ (pendingMatched (matchLoop numberToString drawingId pdfPages i
                          characteristics p)
        <= pendingMatched p + List.length characteristics)%nat.
Proof.
  induction characteristics as [|char rest IH]; intros i p H; cbn [matchLoop List.length].
  - rewrite Nat.add_0_r. split; [exact H | lia].
  - replace (i + S (List.length rest))%nat with (S i + List.length rest)%nat by lia.
    destruct (IH (S i) _ (matchStep_invariant drawingId pdfPages i char p H)) as [I L].
    split; [exact I|].
    eapply Nat.le_trans; [exact L|].
    destruct (matchStep_cases drawingId pdfPages i char p)
      as [-> | (m & box & record & -> & _)]; cbn [pendingMatched]; lia.
Qed.

Lemma emptyPending_invariant : pendingInvariant 0 emptyPending.
Proof.
  unfold pendingInvariant, emptyPending. cbn.
  repeat split; try reflexivity; constructor.
Qed.

Lemma updateAt_length {A} (i : nat) (f : A -> A) (l : list A) :
  List.length (updateAt i f l) = List.length l.
Proof.
  revert i. induction l as [|a l IH]; intros i; [destruct i; reflexivity|].
  destruct i; cbn; [reflexivity | f_equal; apply IH].
Qed.

Lemma updateAt_nth_error {A} (i j : nat) (f : A -> A) (l : list A) :
  nth_error (updateAt i f l) j
  = if (j =? i)%nat then option_map f (nth_error l j) else nth_error l j.
Proof.
  revert i j. induction l as [|a l IH]; intros i j.
  - destruct i, j; cbn; try reflexivity; destruct (j =? i)%nat; reflexivity.
  - destruct i as [|i], j as [|j]; cbn [updateAt nth_error Nat.eqb]; try reflexivity.
    apply IH.
Qed.

Lemma sameButLocation_refl (a : ExtractedCharacteristic) : sameButLocation a a.
Proof. repeat split. Qed.

Lemma sameButLocation_trans (a b c : ExtractedCharacteristic) :
  sameButLocation a b -> sameButLocation b c -> sameButLocation a c.
Proof.
  unfold sameButLocation. intros H1 H2.
  destruct H1 as (A1 & A2 & A3 & A4 & A5 & A6 & A7).
  destruct H2 as (B1 & B2 & B3 & B4 & B5 & B6 & B7).
  repeat split; congruence.
Qed.

Lemma updateAt_sameButLocation (i : nat) (l : Location)
    (characteristics : list ExtractedCharacteristic) :
  Forall2 sameButLocation characteristics
    (updateAt i (setLocation l) characteristics).
Proof.
  revert i. induction characteristics as [|a rest IH]; intros i;
    [destruct i; constructor|].
  destruct i; cbn [updateAt]; constructor.
  - repeat split.
  - clear IH. induction rest; constructor; [apply sameButLocation_refl | assumption].
  - apply sameButLocation_refl.
  - apply IH.
Qed.

Lemma Forall2_sameButLocation_trans (a b c : list ExtractedCharacteristic) :
  Forall2 sameButLocation a b -> Forall2 sameButLocation b c ->
  Forall2 sameButLocation a c.
Proof.
  intros H. revert c. induction H as [|x y a b Hxy Hab IH]; intros c Hc;
    inversion Hc; subst; constructor.
  - eapply sameButLocation_trans; eassumption.
  - apply IH. assumption.
Qed.

Lemma Forall2_sameButLocation_refl (a : list ExtractedCharacteristic) :
  Forall2 sameButLocation a a.
Proof. induction a; constructor; [apply sameButLocation_refl | assumption]. Qed.

Lemma applyLocations_sameButLocation (pdfPages : list PDFPageInfo)
    (entries : list (nat * TextMatch)) :
  forall characteristics,
    Forall2 sameButLocation characteristics
      (applyLocations pdfPages entries characteristics).
Proof.
  induction entries as [|[i m] rest IH]; intros characteristics;
    cbn [applyLocations].
  - apply Forall2_sameButLocation_refl.
  - destruct (findPage pdfPages m) as [pageInfo|]; [|apply IH].
    eapply Forall2_sameButLocation_trans; [|apply IH].
    apply updateAt_sameButLocation.
Qed.

(** The run of [generateAnnotations] when the text extraction returns and
    the insert, if it is made, returns. *)
Lemma generateAnnotations_success (env : Collaborators) (drawingId : string)
    (pdfBuffer : Buffer) (characteristics : list ExtractedCharacteristic)
    (pdfPages : list PDFPageInfo) :
  extractPDFTextPositions env pdfBuffer = Returns pdfPages ->
  let p := matchLoop numberToString drawingId pdfPages 0 characteristics emptyPending in
  annotationRecords p = []
  \/ dbInsertAnnotations env (annotationRecords p) = Returns tt ->
  generateAnnotations numberToString env drawingId pdfBuffer characteristics
  = ({| success := true;
        annotatedPdfUrl :=
          match annotations p with
          | [] => None
          | _ :: _ =>
              fst (renderAndUpload env drawingId pdfBuffer (annotations p))
          end;
        annotationCount := List.length (annotationRecords p);
        matchedCount := pendingMatched p;
        errors :=
          match annotations p with
          | [] => None
          | _ :: _ =>
              match snd (renderAndUpload env drawingId pdfBuffer (annotations p)) with
              | None => None
              | Some e => Some ["Failed to generate/upload annotated PDF: " ++ e]
              end
          end |},
     applyLocations pdfPages (locationMatches p) characteristics).
Proof.
  intros Hx p Hins. unfold generateAnnotations. rewrite Hx. fold p.
  destruct (matchLoop_invariant drawingId pdfPages characteristics 0 emptyPending
              emptyPending_invariant) as [(_ & _ & L3 & _) _].
  fold p in L3.
  destruct (annotationRecords p) as [|r rs] eqn:Er.
  - destruct (locationMatches p); [|discriminate L3]. cbn [applyLocations].
    destruct (annotations p); [reflexivity|].
    destruct (renderAndUpload env drawingId pdfBuffer _) as [u [c|]]; reflexivity.
  - destruct Hins as [Hins|Hins]; [discriminate Hins|]. rewrite Hins.
    destruct (annotations p); [reflexivity|].
    destruct (renderAndUpload env drawingId pdfBuffer _) as [u [c|]]; reflexivity.
Qed.

(** Every run ends in one of three ways. *)
Lemma generateAnnotations_cases (env : Collaborators) (drawingId : string)
    (pdfBuffer : Buffer) (characteristics : list ExtractedCharacteristic) :
  (exists e, extractPDFTextPositions env pdfBuffer = Throws e /\
     generateAnnotations numberToString env drawingId pdfBuffer characteristics
     = (failed [] e, characteristics))
  \/ (exists pdfPages e,
        extractPDFTextPositions env pdfBuffer = Returns pdfPages /\
        generateAnnotations numberToString env drawingId pdfBuffer characteristics
        = (failed ["Failed to persist annotation records: " ++ e] e, characteristics))
  \/ (exists pdfPages,
        extractPDFTextPositions env pdfBuffer = Returns pdfPages /\
        let p := matchLoop numberToString drawingId pdfPages 0 characteristics
                   emptyPending in
        annotationRecords p = []
        \/ dbInsertAnnotations env (annotationRecords p) = Returns tt).
Proof.
  destruct (extractPDFTextPositions env pdfBuffer) as [pdfPages|e] eqn:Hx.
  - set (p := matchLoop numberToString drawingId pdfPages 0 characteristics
                emptyPending).
    destruct (annotationRecords p) as [|r rs] eqn:Er.
    + right. right. exists pdfPages. split; [reflexivity|]. left. exact Er.
    + destruct (dbInsertAnnotations env (annotationRecords p)) as [[]|e] eqn:Hins.
      * right. right. exists pdfPages. split; [reflexivity|]. right. exact Hins.
      * right. left. exists pdfPages, e. split; [reflexivity|].
        unfold generateAnnotations. rewrite Hx. fold p. rewrite Er in *.
        rewrite Hins. reflexivity.
  - left. exists e. split; [reflexivity|].
    unfold generateAnnotations. rewrite Hx. reflexivity.
Qed.

(** X19: in every result the annotation count equals the matched count and
    is at most the number of characteristics; a failed run reports both as
    0 and carries a list of errors that ends with the message of the
    failure. *)
Theorem generateAnnotations_counts
    (env : Collaborators) (drawingId : string) (pdfBuffer : Buffer)
    (characteristics : list ExtractedCharacteristic) :
  let result :=
    fst (generateAnnotations numberToString env drawingId pdfBuffer characteristics) in
  annotationCount result = matchedCount result /\
  (matchedCount result <= List.length characteristics)%nat /\
  (success result = false ->
   matchedCount result = 0%nat /\
   exists earlier e,
     errors result
     = Some (app earlier [("Annotation generation failed: " ++ e)%string])).
Proof.
  destruct (generateAnnotations_cases env drawingId pdfBuffer characteristics)
    as [(e & _ & ->) | [(pdfPages & e & _ & ->) | (pdfPages & Hx & Hins)]].
  - cbn. split; [reflexivity|]. split; [lia|]. intros _. split; [reflexivity|].
    exists [], e. reflexivity.
  - cbn. split; [reflexivity|]. split; [lia|]. intros _. split; [reflexivity|].
    exists ["Failed to persist annotation records: " ++ e], e. reflexivity.
  - rewrite (generateAnnotations_success env drawingId pdfBuffer characteristics
               pdfPages Hx Hins).
    cbn [fst success annotationCount matchedCount].
    destruct (matchLoop_invariant drawingId pdfPages characteristics 0 emptyPending
                emptyPending_invariant) as [(L1 & _) L].
    cbn in L. split; [symmetry; exact L1|]. split; [exact L | discriminate].
Qed.

(** X20: the highlighted PDF is best effort.  When the text extraction
    returns and the insert, if made, returns, the result has
    [success = true] and the locations are written, whether or not the
    rendering, the upload or the update of the drawing throws.  A throw is
    the last error listed.  The URL is undefined when the rendering or the
    upload throws; when the update of the drawing throws, the result still
    carries the URL that the upload returned. *)
Theorem generateAnnotations_best_effort
    (env : Collaborators) (drawingId : string) (pdfBuffer : Buffer)
    (characteristics : list ExtractedCharacteristic) (pdfPages : list PDFPageInfo) :
  extractPDFTextPositions env pdfBuffer = Returns pdfPages ->
  let p := matchLoop numberToString drawingId pdfPages 0 characteristics emptyPending in
  annotationRecords p = []
  \/ dbInsertAnnotations env (annotationRecords p) = Returns tt ->
  let run :=
    generateAnnotations numberToString env drawingId pdfBuffer characteristics in
  let caught e :=
    exists earlier,
      errors (fst run)
      = Some (app earlier ["Failed to generate/upload annotated PDF: " ++ e]) in
  success (fst run) = true /\
  snd run = applyLocations pdfPages (locationMatches p) characteristics /\
  (annotations p = [] ->
   annotatedPdfUrl (fst run) = None /\ errors (fst run) = None) /\
  (annotations p <> [] ->
   match generateAnnotatedPDF env pdfBuffer (annotations p) with
   | Throws e => annotatedPdfUrl (fst run) = None /\ caught e
   | Returns annotatedBuffer =>
       match uploadFile env annotatedBuffer
               ("drawings/" ++ drawingId ++ "_annotated.pdf") "application/pdf" with
       | Throws e => annotatedPdfUrl (fst run) = None /\ caught e
       | Returns url =>
           annotatedPdfUrl (fst run) = Some url /\
           match dbUpdateDrawing env drawingId url with
           | Throws e => caught e
           | Returns _ => errors (fst run) = None
           end
       end
   end).
Proof.
  intros Hx p Hins run caught. unfold caught, run.
  rewrite (generateAnnotations_success env drawingId pdfBuffer characteristics
             pdfPages Hx Hins).
  fold p. cbn [fst snd success annotatedPdfUrl errors].
  split; [reflexivity|]. split; [reflexivity|]. split.
  - intros ->. split; reflexivity.
  - intros Hne. destruct (annotations p) as [|box boxes]; [contradiction|].
    unfold renderAndUpload.
    destruct (generateAnnotatedPDF env pdfBuffer (box :: boxes)) as [annotated|e].
    + destruct (uploadFile env annotated _ _) as [url|e].
      * split; [destruct (dbUpdateDrawing env drawingId url); reflexivity|].
        destruct (dbUpdateDrawing env drawingId url) as [[]|e]; [reflexivity|].
        exists []. reflexivity.
      * split; [reflexivity|]. exists []. reflexivity.
    + split; [reflexivity|]. exists []. reflexivity.
Qed.

(** X21: whatever the collaborators do, a run leaves every field of every
    characteristic but [location] as it was, and the number of
    characteristics unchanged. *)
Theorem generateAnnotations_writes_location_only
    (env : Collaborators) (drawingId : string) (pdfBuffer : Buffer)
    (characteristics : list ExtractedCharacteristic) :
  let after :=
    snd (generateAnnotations numberToString env drawingId pdfBuffer characteristics) in
  Forall2 sameButLocation characteristics after /\
  List.length after = List.length characteristics.
Proof.
  cbv zeta.
  assert (F : Forall2 sameButLocation characteristics
                (snd (generateAnnotations numberToString env drawingId pdfBuffer
                        characteristics))).
  { destruct (generateAnnotations_cases env drawingId pdfBuffer characteristics)
      as [(e & _ & ->) | [(pdfPages & e & _ & ->) | (pdfPages & Hx & Hins)]].
    - apply Forall2_sameButLocation_refl.
    - apply Forall2_sameButLocation_refl.
    - rewrite (generateAnnotations_success env drawingId pdfBuffer characteristics
                 pdfPages Hx Hins).
      apply applyLocations_sameButLocation. }
  split; [exact F|]. symmetry. apply (Forall2_length F).
Qed.

(** X22: the records handed to the insert carry pairwise different
    extraction keys, each the decimal index of a characteristic of the
    batch, in increasing order of index. *)
Theorem matchLoop_extraction_keys
    (drawingId : string) (pdfPages : list PDFPageInfo)
    (characteristics : list ExtractedCharacteristic) :
  let p := matchLoop numberToString drawingId pdfPages 0 characteristics emptyPending in
  exists indices : list nat,
    StronglySorted lt indices /\
    Forall (fun i => (i < List.length characteristics)%nat) indices /\
    map extractionKey (annotationRecords p)
    = map (fun i => intToString (Z.of_nat i)) indices /\
    NoDup (map extractionKey (annotationRecords p)).
Proof.
  intros p.
  destruct (matchLoop_invariant drawingId pdfPages characteristics 0 emptyPending
              emptyPending_invariant) as [(_ & _ & _ & K & _ & S & B) _].
  fold p in K, S, B. cbn in B.
  exists (map fst (locationMatches p)).
  assert (E : map extractionKey (annotationRecords p)
              = map (fun i => intToString (Z.of_nat i)) (map fst (locationMatches p))).
  { rewrite K, map_map. reflexivity. }
  split; [exact S|]. split; [exact B|]. split; [exact E|].
  rewrite E. apply Injective_map_NoDup.
  - intros a b H. apply intToString_injective in H. lia.
  - apply StronglySorted_lt_NoDup. exact S.
Qed.

Lemma matchStep_locationMatches (drawingId : string) (pdfPages : list PDFPageInfo)
    (i : nat) (char : ExtractedCharacteristic) (p : Pending) :
  locationMatches (matchStep numberToString drawingId pdfPages i char p)
  = (locationMatches p
     ++ match acceptedMatch numberToString pdfPages char with
        | Some m => [(i, m)]
        | None => []
        end)%list.
Proof.
  unfold matchStep, acceptedMatch.
  destruct (routeMatcher numberToString pdfPages char) as [m|];
    [|symmetry; apply app_nil_r].
  destruct (geb (confidence m) _); [reflexivity | symmetry; apply app_nil_r].
Qed.

Lemma matchLoop_locationMatches (drawingId : string) (pdfPages : list PDFPageInfo)
    (characteristics : list ExtractedCharacteristic) :
  forall (i : nat) (p : Pending),
    locationMatches (matchLoop numberToString drawingId pdfPages i characteristics p)
    = (locationMatches p
       ++ acceptedEntries numberToString pdfPages i characteristics)%list.
Proof.
  induction characteristics as [|char rest IH]; intros i p;
    cbn [matchLoop acceptedEntries].
  - symmetry. apply app_nil_r.
  - rewrite IH, matchStep_locationMatches, <- app_assoc. reflexivity.
Qed.

Lemma acceptedEntries_keys (pdfPages : list PDFPageInfo)
    (characteristics : list ExtractedCharacteristic) :
  forall i, Forall (fun k => (i <= k)%nat)
              (map fst (acceptedEntries numberToString pdfPages i characteristics)).
Proof.
  induction characteristics as [|char rest IH]; intros i; cbn [acceptedEntries];
    [constructor|].
  rewrite map_app. apply Forall_app. split.
  - destruct (acceptedMatch numberToString pdfPages char); repeat constructor.
  - eapply Forall_impl; [|apply IH]. cbn. intros k Hk. lia.
Qed.

Lemma matchAt_absent (j : nat) (entries : list (nat * TextMatch)) :
  ~ In j (map fst entries) -> matchAt j entries = None.
Proof.
  unfold matchAt. induction entries as [|[k m] rest IH]; intros H; [reflexivity|].
  cbn [find fst]. destruct (Nat.eqb_spec k j) as [E|N].
  - exfalso. apply H. left. exact E.
  - apply IH. intros Hin. apply H. right. exact Hin.
Qed.

Lemma matchAt_acceptedEntries (pdfPages : list PDFPageInfo)
    (characteristics : list ExtractedCharacteristic) :
  forall i j char,
    nth_error characteristics j = Some char ->
    matchAt (i + j) (acceptedEntries numberToString pdfPages i characteristics)
    = acceptedMatch numberToString pdfPages char.
Proof.
  induction characteristics as [|c rest IH]; intros i j char H;
    [destruct j; discriminate H|].
  cbn [acceptedEntries]. destruct j as [|j].
  - cbn in H. injection H as ->. rewrite Nat.add_0_r.
    destruct (acceptedMatch numberToString pdfPages char) as [m|].
    + unfold matchAt. cbn [app find fst]. rewrite Nat.eqb_refl. reflexivity.
    + cbn [app]. apply matchAt_absent. intros Hin.
      pose proof (acceptedEntries_keys pdfPages rest (S i)) as F.
      rewrite Forall_forall in F. specialize (F i Hin). lia.
  - cbn [nth_error] in H.
    replace (i + S j)%nat with (S i + j)%nat by lia.
    destruct (acceptedMatch numberToString pdfPages c) as [m|];
      [|cbn [app]; apply IH; exact H].
    unfold matchAt. cbn [app find fst].
    destruct (Nat.eqb_spec i (S i + j)) as [E|N]; [lia|].
    apply IH. exact H.
Qed.

Lemma applyLocations_nth_error (pdfPages : list PDFPageInfo)
    (entries : list (nat * TextMatch)) :
  NoDup (map fst entries) ->
  forall characteristics j,
    nth_error (applyLocations pdfPages entries characteristics) j
    = match matchAt j entries with
      | Some m =>
          match findPage pdfPages m with
          | Some pageInfo =>
              option_map (setLocation (normalizedLocation pageInfo m))
                (nth_error characteristics j)
          | None => nth_error characteristics j
          end
      | None => nth_error characteristics j
      end.
Proof.
  induction entries as [|[i m] rest IH]; intros N characteristics j;
    [reflexivity|].
  cbn [map fst] in N. inversion N as [|? ? Hnot Hrest]; subst.
  cbn [applyLocations]. unfold matchAt. cbn [find fst].
  destruct (Nat.eqb_spec i j) as [E|Ne].
  - subst j. cbn [option_map snd].
    pose proof (matchAt_absent i rest Hnot) as A.
    destruct (findPage pdfPages m) as [pageInfo|]; rewrite (IH Hrest), A.
    + rewrite updateAt_nth_error, Nat.eqb_refl. reflexivity.
    + reflexivity.
  - fold (matchAt j rest).
    destruct (findPage pdfPages m) as [pageInfo|]; rewrite (IH Hrest);
      [|reflexivity].
    rewrite updateAt_nth_error.
    destruct (Nat.eqb_spec j i) as [E|_]; [congruence|]. reflexivity.
Qed.

Lemma findPage_found (pdfPages : list PDFPageInfo) (m : TextMatch) :
  fromPages pdfPages m ->
  exists pageInfo,
    findPage pdfPages m = Some pageInfo /\ In pageInfo pdfPages /\
    pageNumber pageInfo = (page m + 1)%Z.
Proof.
  intros (pageInfo & textItem & Hp & _ & E). unfold findPage.
  destruct (find (fun p => (pageNumber p =? page m + 1)%Z) pdfPages) as [pg|] eqn:F.
  - apply find_some in F. destruct F as [Hin Hq]. exists pg.
    repeat split; [exact Hin | apply Z.eqb_eq; exact Hq].
  - exfalso. pose proof (find_none _ _ F pageInfo Hp) as X. cbn in X.
    rewrite E in X. cbn [page matchOf] in X.
    apply Z.eqb_neq in X. lia.
Qed.

Lemma routeMatcher_fromPages (pdfPages : list PDFPageInfo)
    (char : ExtractedCharacteristic) (m : TextMatch) :
  routeMatcher numberToString pdfPages char = Some m -> fromPages pdfPages m.
Proof.
  assert (F : forall patterns c, firstMatch patterns pdfPages c = Some m ->
                fromPages pdfPages m).
  { intros patterns c H. apply firstMatch_some in H.
    destruct H as (before & pattern & after & _ & _ & H).
    destruct (findTextPosition_cases _ _ _ _ H) as [[P _]|[P _]]; exact P. }
  unfold routeMatcher, findDimensionPosition, findGDTPosition, findNotePosition.
  destruct (_ && _); [apply F|].
  destruct (truthyString (gdtType char)); [apply F|].
  intros H. destruct (findTextPosition_cases _ _ _ _ H) as [[P _]|[P _]]; exact P.
Qed.

(** X23: after the text extraction and the insert have returned, each
    characteristic has been written from its own match.  A characteristic
    whose match was accepted carries the matched box divided by the width
    and the height of a page with the matched page number, the zero-based
    page index and the confidence (such a page is always found); every
    other characteristic is as it was. *)
Theorem generateAnnotations_locations
    (env : Collaborators) (drawingId : string) (pdfBuffer : Buffer)
    (characteristics : list ExtractedCharacteristic) (pdfPages : list PDFPageInfo) :
  extractPDFTextPositions env pdfBuffer = Returns pdfPages ->
  (let p := matchLoop numberToString drawingId pdfPages 0 characteristics
              emptyPending in
   annotationRecords p = []
   \/ dbInsertAnnotations env (annotationRecords p) = Returns tt) ->
  forall (j : nat) (char : ExtractedCharacteristic),
    nth_error characteristics j = Some char ->
    let after :=
      snd (generateAnnotations numberToString env drawingId pdfBuffer
             characteristics) in
    match acceptedMatch numberToString pdfPages char with
    | None => nth_error after j = Some char
    | Some m =>
        exists pageInfo,
          In pageInfo pdfPages /\ pageNumber pageInfo = (page m + 1)%Z /\
          nth_error after j
          = Some (setLocation
                    {| locX := div (Fin (x m)) (Fin (pageWidth pageInfo));
                       locY := div (Fin (y m)) (Fin (pageHeight pageInfo));
                       locWidth := div (Fin (width m)) (Fin (pageWidth pageInfo));
                       locHeight := div (Fin (height m)) (Fin (pageHeight pageInfo));
                       locPage := page m;
                       locConfidence := confidence m |} char)
    end.
Proof.
  intros Hx Hins j char Hj after. unfold after.
  rewrite (generateAnnotations_success env drawingId pdfBuffer characteristics
             pdfPages Hx Hins).
  cbn [snd].
  destruct (matchLoop_invariant drawingId pdfPages characteristics 0 emptyPending
              emptyPending_invariant) as [(_ & _ & _ & _ & _ & S & _) _].
  rewrite applyLocations_nth_error
    by (apply StronglySorted_lt_NoDup; exact S).
  rewrite matchLoop_locationMatches. cbn [locationMatches emptyPending app].
  pose proof (matchAt_acceptedEntries pdfPages characteristics 0 j char Hj) as M.
  cbn [Nat.add] in M. rewrite M.
  destruct (acceptedMatch numberToString pdfPages char) as [m|] eqn:A;
    [|exact Hj].
  assert (F : fromPages pdfPages m).
  { unfold acceptedMatch in A.
    destruct (routeMatcher numberToString pdfPages char) as [m'|] eqn:R;
      [|discriminate A].
    destruct (geb (confidence m') _); [|discriminate A].
    injection A as <-. apply (routeMatcher_fromPages _ _ _ R). }
  destruct (findPage_found pdfPages m F) as (pageInfo & -> & Hin & Hn).
  exists pageInfo. rewrite Hj. repeat split; assumption.
Qed.

End AnnotationFacts.

Lemma routeMatcher_accepted_witness :
  (geb (confidence (matchOf (samplePage [itemAnodize]) itemAnodize (Fin 1)))
     (acceptanceThreshold (requirementType constructorNote)) = false <->
   inherited (requirementType constructorNote) = true
   \/ (truthyString (gdtType constructorNote) = true /\
       acceptanceThreshold (requirementType constructorNote) = Fin (8 # 10) /\
       ltb (confidence (matchOf (samplePage [itemAnodize]) itemAnodize (Fin 1)))
         (Fin (8 # 10)) = true)) /\
  matchStep decimalToString "d1" [samplePage [itemAnodize]] 0 constructorNote
    emptyPending = emptyPending.
Proof.
  apply (routeMatcher_accepted decimalToString [samplePage [itemAnodize]]
           constructorNote "d1" 0 emptyPending
           (matchOf (samplePage [itemAnodize]) itemAnodize (Fin 1))).
  vm_compute. reflexivity.
Defined.

(** The two cases of X18 on the sample data.  A requirement type named
    [constructor]: the text is found with confidence 1 and is not accepted.
    A dimension: the match is accepted. *)
Example routeMatcher_rejected_inherited :
  routeMatcher decimalToString [samplePage [itemAnodize]] constructorNote
  = Some (matchOf (samplePage [itemAnodize]) itemAnodize (Fin 1)) /\
  acceptedMatch decimalToString [samplePage [itemAnodize]] constructorNote = None.
Proof. split; vm_compute; reflexivity. Qed.

Example routeMatcher_accepted_dimension :
  inherited (requirementType sampleDimension) = false /\
  acceptedMatch decimalToString [samplePage [itemToleranced]] sampleDimension
  = Some (matchOf (samplePage [itemToleranced]) itemToleranced (Fin 1)).
Proof. split; vm_compute; reflexivity. Qed.

(** The remaining case: the GD&T matcher finds the text at 3/4, which
    passes its own threshold of 0.7, and the table value of a note, 0.8,
    rejects it. *)
Example routeMatcher_rejected_gdt_note :
  routeMatcher decimalToString [samplePage [itemFlatnexx]] flatnessNote
  = Some (matchOf (samplePage [itemFlatnexx]) itemFlatnexx (Fin (6 # 8))) /\
  acceptedMatch decimalToString [samplePage [itemFlatnexx]] flatnessNote = None.
Proof. split; vm_compute; reflexivity. Qed.

Lemma generateAnnotations_best_effort_witness :
  let p := matchLoop decimalToString "d1" [samplePage [itemToleranced]] 0
             [sampleDimension] emptyPending in
  let run := generateAnnotations decimalToString brokenUpdate "d1" "pdf"
               [sampleDimension] in
  success (fst run) = true /\
  snd run = applyLocations [samplePage [itemToleranced]] (locationMatches p)
              [sampleDimension] /\
  (annotations p = [] ->
   annotatedPdfUrl (fst run) = None /\ errors (fst run) = None) /\
  (annotations p <> [] ->
   annotatedPdfUrl (fst run) = Some "drawings/d1_annotated.pdf" /\
   exists earlier,
     errors (fst run)
     = Some (app earlier
               ["Failed to generate/upload annotated PDF: " ++ "update failed"])).
Proof.
  apply (generateAnnotations_best_effort decimalToString brokenUpdate "d1" "pdf"
           [sampleDimension] [samplePage [itemToleranced]]).
  - reflexivity.
  - right. reflexivity.
Defined.

Lemma generateAnnotations_locations_witness :
  match acceptedMatch decimalToString [samplePage [itemToleranced]] sampleDimension with
  | None =>
      nth_error (snd (generateAnnotations decimalToString workingStore "d1" "pdf"
                        [sampleDimension])) 0
      = Some sampleDimension
  | Some m =>
      exists pageInfo,
        In pageInfo [samplePage [itemToleranced]] /\
        pageNumber pageInfo = (page m + 1)%Z /\
        nth_error (snd (generateAnnotations decimalToString workingStore "d1" "pdf"
                          [sampleDimension])) 0
        = Some (setLocation
                  {| locX := div (Fin (x m)) (Fin (pageWidth pageInfo));
                     locY := div (Fin (y m)) (Fin (pageHeight pageInfo));
                     locWidth := div (Fin (width m)) (Fin (pageWidth pageInfo));
                     locHeight := div (Fin (height m)) (Fin (pageHeight pageInfo));
                     locPage := page m;
                     locConfidence := confidence m |} sampleDimension)
  end.
Proof.
  apply (generateAnnotations_locations decimalToString workingStore "d1" "pdf"
           [sampleDimension] [samplePage [itemToleranced]] eq_refl
           (or_intror eq_refl) 0%nat sampleDimension eq_refl).
Defined.

(** ** Leader of an auto-placed balloon *)

Lemma Qfloor_unique (q : Q) (n : Z) :
  inject_Z n <= q -> q < inject_Z n + 1 -> Qfloor q = n.
Proof.
  intros L U. destruct (Qfloor_bounds q) as [FL FU].
  assert (A : (n < Qfloor q + 1)%Z).
  { rewrite Zlt_Qlt, inject_Z_plus. change (inject_Z 1) with 1. lra. }
  assert (B : (Qfloor q < n + 1)%Z).
  { rewrite Zlt_Qlt, inject_Z_plus. change (inject_Z 1) with 1. lra. }
  lia.
Qed.




(** Rounding can bring a leader that points to a target nearer than 5: the
    centre (4.4, 2.4) is kept for a balloon at the origin, and is stored as
    (4, 2). *)
Example routeLeader_rounded_target :
  routeLeader 0 (Some (mkBox (44 # 10) (24 # 10) 0 0)) 0 0 SideLeft
  = Some {| leaderX := (44 # 10) + 0 / 2; leaderY := (24 # 10) + 0 / 2 |} /\
  Math_round ((44 # 10) + 0 / 2) = 4%Z /\ Math_round ((24 # 10) + 0 / 2) = 2%Z /\
  Math_round 0 = 0%Z /\ (4 * 4 + 2 * 2 < 5 * 5)%Z.
Proof. repeat split. Qed.

(** ** Manual balloon placement in the viewer *)

Lemma insertByBalloonNumber_In (c x : ViewerCharacteristic) (l : list ViewerCharacteristic) :
  In x (insertByBalloonNumber c l) <-> x = c \/ In x l.
Proof.
  induction l as [|b l IH]; cbn [insertByBalloonNumber].
  - cbn. intuition congruence.
  - destruct (_ <=? 0)%Z.
    + cbn. intuition congruence.
    + cbn [In]. rewrite IH. intuition congruence.
Qed.

Lemma sortByBalloonNumber_In (x : ViewerCharacteristic) (l : list ViewerCharacteristic) :
  In x (sortByBalloonNumber l) <-> In x l.
Proof.
  induction l as [|c l IH]; cbn [sortByBalloonNumber]; [reflexivity|].
  rewrite insertByBalloonNumber_In, IH. cbn. intuition congruence.
Qed.

Lemma insertByBalloonNumber_sorted (c : ViewerCharacteristic)
    (l : list ViewerCharacteristic) :
  StronglySorted byBalloonNumber l ->
  StronglySorted byBalloonNumber (insertByBalloonNumber c l).
Proof.
  induction 1 as [|b l S IH F]; cbn [insertByBalloonNumber].
  - constructor; constructor.
  - destruct (_ <=? 0)%Z eqn:E.
    + apply Z.leb_le in E. constructor; [constructor; assumption|].
      constructor; [unfold byBalloonNumber; lia|].
      eapply Forall_impl; [|exact F]. unfold byBalloonNumber. intros. lia.
    + apply Z.leb_gt in E. constructor; [exact IH|].
      apply Forall_forall. intros x I. apply insertByBalloonNumber_In in I.
      destruct I as [->|I]; [unfold byBalloonNumber; lia|].
      rewrite Forall_forall in F. apply F. exact I.
Qed.

Lemma sortByBalloonNumber_sorted (l : list ViewerCharacteristic) :
  StronglySorted byBalloonNumber (sortByBalloonNumber l).
Proof.
  induction l; cbn [sortByBalloonNumber]; [constructor|].
  apply insertByBalloonNumber_sorted. assumption.
Qed.

Lemma find_sorted_least (p : ViewerCharacteristic -> bool)
    (l : list ViewerCharacteristic) (c : ViewerCharacteristic) :
  StronglySorted byBalloonNumber l -> find p l = Some c ->
  forall c', In c' l -> p c' = true -> byBalloonNumber c c'.
Proof.
  induction 1 as [|a l S IH F]; cbn [find]; [discriminate|].
  destruct (p a) eqn:P.
  - intros [= <-] c' [<-|I] _; [unfold byBalloonNumber; lia|].
    rewrite Forall_forall in F. apply F. exact I.
  - intros E c' [<-|I] Q; [congruence|]. apply IH; assumption.
Qed.

Lemma hasId_In (ids : list string) (id : string) :
  hasId ids id = true <-> In id ids.
Proof.
  unfold hasId. rewrite existsb_exists. split.
  - intros (x & I & E). apply String.eqb_eq in E. subst. exact I.
  - intros I. exists id. split; [exact I | apply String.eqb_refl].
Qed.

(** X25: a click sends a request only with the balloon tool; the request is
    for a characteristic without a saved balloon whose balloon number is the
    lowest among those without one, wherever it stands in the list.  The
    "all ballooned" notice appears only when every characteristic has a
    saved balloon, and with the tool, a drawing, a canvas and an unballooned
    characteristic a request is always sent. *)
Theorem handleCanvasClick_lowest_unballooned :
  forall (tool : Tool) (selectedDrawing : option string)
         (characteristics : option (list ViewerCharacteristic))
         (canvas : option DOMRect) (scale : Q)
         (savedBalloons : option (list SavedBalloon)) (clientX clientY : Q),
  let result := handleCanvasClick tool selectedDrawing characteristics canvas
                                  scale savedBalloons clientX clientY in
  let ballooned := balloonedCharacteristicIds savedBalloons in
  (forall r, result = Mutate r ->
     tool = ToolBalloon /\ selectedDrawing = Some (reqDrawingId r) /\
     exists cs c rect,
       characteristics = Some cs /\ canvas = Some rect /\ In c cs /\
       reqCharacteristicId r = vcId c /\
       reqBalloonNumber r = vcBalloonNumber c /\
       ~ In (vcId c) ballooned /\
       (forall c', In c' cs -> ~ In (vcId c') ballooned ->
          (vcBalloonNumber c <= vcBalloonNumber c')%Z) /\
       reqXPosition r = JS.div (JS.Fin (clientX - rectLeft rect)) (JS.Fin scale) /\
       reqYPosition r = JS.div (JS.Fin (clientY - rectTop rect)) (JS.Fin scale)) /\
  (result = AllBalloonedToast ->
     forall cs c, characteristics = Some cs -> In c cs -> In (vcId c) ballooned) /\
  (forall cs c rect,
     tool = ToolBalloon -> truthy selectedDrawing = true ->
     characteristics = Some cs -> canvas = Some rect ->
     In c cs -> ~ In (vcId c) ballooned ->
     exists r, result = Mutate r).
Proof.
  intros tool sel chars canvas scale saved cx cy result ballooned.
  assert (None_all : forall cs,
            find (fun c => negb (hasId ballooned (vcId c))) (sortByBalloonNumber cs) = None ->
            forall c, In c cs -> In (vcId c) ballooned).
  { intros cs E c I. apply hasId_In.
    assert (N := find_none _ _ E c (proj2 (sortByBalloonNumber_In c cs) I)).
    cbv beta in N. destruct (hasId ballooned (vcId c)); [reflexivity|discriminate]. }
  subst result. unfold handleCanvasClick. cbv zeta.
  fold ballooned.
  destruct tool; cbn [orb].
  { split; [|split].
    - intros r E. destruct chars as [[|]|]; discriminate E.
    - intros E. destruct chars as [[|]|]; discriminate E.
    - intros cs c rect E. discriminate E. }
  destruct sel as [[|a d]|]; cbn [truthy negb orb].
  { split; [|split].
    - intros r E. destruct chars as [[|]|]; discriminate E.
    - intros E. destruct chars as [[|]|]; discriminate E.
    - intros cs c rect _ E. discriminate E. }
  2:{ split; [|split].
    - intros r E. destruct chars as [[|]|]; discriminate E.
    - intros E. destruct chars as [[|]|]; discriminate E.
    - intros cs c rect _ E. discriminate E. }
  destruct chars as [[|c0 cs0]|].
  1,3: (split; [|split];
        [ intros r E; discriminate E
        | intros E; discriminate E
        | intros cs c rect _ _ E; try discriminate E;
          injection E as <-; intros _ []]).
  destruct canvas as [rect|].
  2:{ split; [|split].
      - intros r E. discriminate E.
      - intros E. discriminate E.
      - intros cs c rect _ _ _ E. discriminate E. }
  destruct (find _ (sortByBalloonNumber (c0 :: cs0))) as [c|] eqn:F.
  - split; [|split].
    + intros r [= <-]. cbn. split; [reflexivity|]. split; [reflexivity|].
      exists (c0 :: cs0), c, rect.
      pose proof (find_some _ _ F) as [I P]. cbv beta in P.
      apply (proj1 (sortByBalloonNumber_In _ _)) in I.
      split; [reflexivity|]. split; [reflexivity|]. split; [exact I|].
      split; [reflexivity|]. split; [reflexivity|]. split.
      * intros H. apply hasId_In in H. rewrite H in P. discriminate P.
      * split; [|split; reflexivity].
        intros c' I' N.
        apply (find_sorted_least _ _ _ (sortByBalloonNumber_sorted (c0 :: cs0)) F).
        -- apply sortByBalloonNumber_In. exact I'.
        -- destruct (hasId ballooned (vcId c')) eqn:H; [|reflexivity].
           apply hasId_In in H. contradiction.
    + intros E. discriminate E.
    + intros. eexists. reflexivity.
  - split; [|split].
    + intros r E. discriminate E.
    + intros _ cs c [= <-] I. apply (None_all _ F). exact I.
    + intros cs c rect' _ _ [= <-] _ I N. exfalso. apply N.
      apply (None_all _ F). exact I.
Qed.

(** ** Highlights on the annotated PDF *)

Lemma addToPage_perm (p : Z) (a : AnnotationBox) (g : list (Z * list AnnotationBox)) :
  Permutation (List.concat (map snd (addToPage p a g))) (a :: List.concat (map snd g)).
Proof.
  induction g as [|[q l] g IH]; cbn [addToPage].
  - cbn. reflexivity.
  - destruct (p =? q)%Z.
    + cbn [map snd List.concat]. rewrite <- app_assoc. cbn [app].
      symmetry. apply Permutation_middle.
    + cbn [map snd List.concat]. rewrite IH.
      symmetry. apply Permutation_middle.
Qed.

Lemma groupByPage_perm (anns : list AnnotationBox) (g : list (Z * list AnnotationBox)) :
  Permutation (List.concat (map snd (groupByPage anns g))) (app anns (List.concat (map snd g))).
Proof.
  revert g. induction anns as [|a anns IH]; intros g; cbn [groupByPage app].
  - reflexivity.
  - rewrite IH, addToPage_perm. symmetry. apply Permutation_middle.
Qed.

Lemma addToPage_agree (a : AnnotationBox) (g : list (Z * list AnnotationBox)) :
  pagesAgree g -> pagesAgree (addToPage (annPage a) a g).
Proof.
  unfold pagesAgree. induction 1 as [|[q l] g H F IH]; cbn [addToPage].
  - constructor; [|constructor]. cbn. constructor; [reflexivity|constructor].
  - destruct (annPage a =? q)%Z eqn:E.
    + apply Z.eqb_eq in E. constructor; [|exact F]. cbn [fst snd] in *.
      apply Forall_app. split; [exact H|]. constructor; [exact E|constructor].
    + constructor; assumption.
Qed.

Lemma groupByPage_agree (anns : list AnnotationBox) (g : list (Z * list AnnotationBox)) :
  pagesAgree g -> pagesAgree (groupByPage anns g).
Proof.
  revert g. induction anns as [|a anns IH]; intros g H; cbn [groupByPage].
  - exact H.
  - apply IH, addToPage_agree, H.
Qed.

Lemma addToPage_keys (p : Z) (a : AnnotationBox) (g : list (Z * list AnnotationBox)) (k : Z) :
  In k (map fst (addToPage p a g)) <-> k = p \/ In k (map fst g).
Proof.
  induction g as [|[q l] g IH]; cbn [addToPage].
  - cbn. intuition congruence.
  - destruct (p =? q)%Z eqn:E.
    + apply Z.eqb_eq in E. subst. cbn. intuition congruence.
    + cbn [map fst In]. rewrite IH. intuition congruence.
Qed.

Lemma groupByPage_keys (anns : list AnnotationBox) (g : list (Z * list AnnotationBox)) (k : Z) :
  In k (map fst (groupByPage anns g)) <-> In k (map annPage anns) \/ In k (map fst g).
Proof.
  revert g. induction anns as [|a anns IH]; intros g; cbn [groupByPage].
  - cbn. intuition.
  - rewrite IH, addToPage_keys. cbn. intuition congruence.
Qed.

Lemma drawPages_throws (pages : list Q) (g : list (Z * list AnnotationBox))
    (drawn : list Rectangle) :
  Exists (fun k => (k < 0)%Z) (map fst g) ->
  exists e, drawPages pages g drawn = Throws e.
Proof.
  revert drawn. induction g as [|[p l] g IH]; intros drawn E; cbn [drawPages].
  - inversion E.
  - destruct (Z.of_nat (List.length pages) <=? p)%Z eqn:L.
    + apply Z.leb_le in L. cbn [map fst] in E.
      inversion E as [? ? N|? ? N]; subst; [lia|]. apply IH. exact N.
    + apply Z.leb_gt in L. cbn [JS.index].
      destruct (p <? 0)%Z eqn:N; [eexists; reflexivity|].
      apply Z.ltb_ge in N.
      destruct (nth_error pages (Z.to_nat p)) as [h|] eqn:G.
      * cbn [map fst] in E. inversion E as [? ? M|? ? M]; subst; [lia|].
        apply IH. exact M.
      * apply nth_error_None in G. lia.
Qed.

Lemma drawPages_returns (pages : list Q) (g : list (Z * list AnnotationBox))
    (drawn : list Rectangle) :
  Forall (fun k => (0 <= k)%Z) (map fst g) -> pagesAgree g ->
  drawPages pages g drawn
  = Returns (app drawn (flat_map (outlineOf pages) (List.concat (map snd g)))).
Proof.
  revert drawn. induction g as [|[p l] g IH]; intros drawn K A; cbn [drawPages].
  - cbn. rewrite app_nil_r. reflexivity.
  - cbn [map fst] in K. inversion K as [|? ? P K']; subst.
    inversion A as [|? ? Ap A']; subst. cbn [fst snd] in Ap.
    cbn [map snd List.concat]. rewrite flat_map_app.
    assert (O : forall h, nth_error pages (Z.to_nat p) = h ->
                flat_map (outlineOf pages) l
                = match h with
                  | Some pageHeight => map (drawRectangle p pageHeight) l
                  | None => []
                  end).
    { intros h G. clear - Ap G. induction l as [|a l IHl]; cbn [flat_map map].
      - destruct h; reflexivity.
      - apply Forall_cons_iff in Ap. destruct Ap as [E Ap'].
        unfold outlineOf at 1. rewrite E, G, (IHl Ap').
        destruct h; reflexivity. }
    destruct (Z.of_nat (List.length pages) <=? p)%Z eqn:L.
    + apply Z.leb_le in L.
      rewrite (O None); [|apply nth_error_None; lia].
      cbn [app]. apply IH; assumption.
    + apply Z.leb_gt in L. cbn [JS.index].
      destruct (p <? 0)%Z eqn:N; [apply Z.ltb_lt in N; lia|].
      destruct (nth_error pages (Z.to_nat p)) as [h|] eqn:G.
      * rewrite (O (Some h) eq_refl). rewrite IH by assumption.
        rewrite app_assoc. reflexivity.
      * apply nth_error_None in G. lia.
Qed.

(** X26: rendering fails exactly when a box lies on a negative page.
    Otherwise every box on a page of the document is outlined once, 2
    points wider than the box on each side and with the y axis turned over,
    and boxes on pages beyond the document are left out without an error. *)
Theorem annotatePDF_outlines :
  forall (pages : list Q) (annotations : list AnnotationBox),
    (Exists (fun a => (annPage a < 0)%Z) annotations ->
     exists e, annotatePDF pages annotations = Throws e) /\
    (Forall (fun a => (0 <= annPage a)%Z) annotations ->
     exists drawn,
       annotatePDF pages annotations = Returns drawn /\
       Permutation drawn (flat_map (outlineOf pages) annotations) /\
       forall r, In r drawn ->
         exists a pageHeight,
           In a annotations /\
           nth_error pages (Z.to_nat (annPage a)) = Some pageHeight /\
           onPage r = annPage a /\
           rectX r = annX a - 2 /\
           rectY r = pageHeight - annY a - annHeight a - 2 /\
           rectWidth r = annWidth a + 4 /\
           rectHeight r = annHeight a + 4).
Proof.
  intros pages anns. unfold annotatePDF. split.
  - intros E. apply drawPages_throws.
    apply Exists_exists in E. destruct E as (a & I & N).
    apply Exists_exists. exists (annPage a). split; [|exact N].
    apply groupByPage_keys. left. apply in_map. exact I.
  - intros F.
    assert (P : Permutation
                  (flat_map (outlineOf pages) (List.concat (map snd (groupByPage anns []))))
                  (flat_map (outlineOf pages) anns)).
    { apply Permutation_flat_map.
      rewrite groupByPage_perm. cbn. rewrite app_nil_r. reflexivity. }
    eexists. split; [|split].
    + apply drawPages_returns.
      * apply Forall_forall. intros k I. apply groupByPage_keys in I.
        destruct I as [I|[]]. apply in_map_iff in I. destruct I as (a & <- & I).
        rewrite Forall_forall in F. apply F. exact I.
      * apply groupByPage_agree. constructor.
    + cbn [app]. exact P.
    + cbn [app]. intros r I.
      apply (Permutation_in _ P) in I. apply in_flat_map in I.
      destruct I as (a & Ia & Ir). unfold outlineOf in Ir.
      destruct (nth_error pages (Z.to_nat (annPage a))) as [h|] eqn:G; [|destruct Ir].
      destruct Ir as [<-|[]]. exists a, h. cbn. repeat split; assumption.
Qed.

(** ** The placement loop of the extraction route *)

Lemma computeSmartBalloonPlacement_cases (textPosition : option Box)
    (balloonNumber : Z) (pageW pageH : Q) (existingBalloons : list Balloon)
    (totalCharacteristics : Z) (allTextItems : list Box) (drawingOrigin : Point) :
  let p := computeSmartBalloonPlacement textPosition balloonNumber pageW pageH
             existingBalloons totalCharacteristics allTextItems drawingOrigin in
  p = perimeterSlot balloonNumber totalCharacteristics pageW pageH \/
  exists t, textPosition = Some t /\
    smartSearch pageW pageH existingBalloons
      (inject_Z (calculateBalloonSize totalCharacteristics)) allTextItems
      drawingOrigin t = Some p.
Proof.
  unfold computeSmartBalloonPlacement, perimeterSlot. cbv zeta.
  destruct textPosition as [t|]; [|left; reflexivity].
  destruct (smartSearch _ _ _ _ _ _ t) as [q|] eqn:E; [|left; reflexivity].
  right. exists t. split; [reflexivity|exact E].
Qed.

Lemma computeSmartBalloonPlacement_diameter (textPosition : option Box)
    (balloonNumber : Z) (pageW pageH : Q) (existingBalloons : list Balloon)
    (totalCharacteristics : Z) (allTextItems : list Box) (drawingOrigin : Point) :
  placedDiameter (computeSmartBalloonPlacement textPosition balloonNumber pageW pageH
                    existingBalloons totalCharacteristics allTextItems drawingOrigin)
  = inject_Z (calculateBalloonSize totalCharacteristics).
Proof.
  destruct (computeSmartBalloonPlacement_cases textPosition balloonNumber pageW pageH
              existingBalloons totalCharacteristics allTextItems drawingOrigin)
    as [E|(t & _ & E)].
  - cbv zeta in E. rewrite E. reflexivity.
  - cbv zeta in E.
    destruct (smartSearch_accepted _ _ _ _ _ _ _ _ E) as (x & y & sd & P & _).
    rewrite P. reflexivity.
Qed.

Lemma placeBalloons_diameter (pageW pageH : Q) (total : Z) (texts : list Box)
    (origin : Point) (chars : list (option Box * Z)) (created : list Balloon) :
  Forall (fun p => placedDiameter p = inject_Z (calculateBalloonSize total))
         (placeBalloons pageW pageH total texts origin chars created).
Proof.
  revert created. induction chars as [|[t bn] chars IH]; intros created;
    cbn [placeBalloons]; constructor.
  - apply computeSmartBalloonPlacement_diameter.
  - apply IH.
Qed.

Lemma placeBalloons_apart_from (pageW pageH : Q) (total : Z) (texts : list Box)
    (origin : Point) (chars : list (option Box * Z)) :
  forall (created : list Balloon) (j : nat) (pj : Placement) (tj : option Box) (bnj : Z),
  nth_error (placeBalloons pageW pageH total texts origin chars created) j = Some pj ->
  nth_error chars j = Some (tj, bnj) ->
  pj <> perimeterSlot bnj total pageW pageH ->
  exists xj, placedX pj = Some xj /\
    forall e,
      In e (app created
              (flat_map pushed
                 (firstn j (placeBalloons pageW pageH total texts origin chars created)))) ->
      tooClose xj (placedY pj) (inject_Z (calculateBalloonSize total) / 2) e = false.
Proof.
  induction chars as [|[t bn] chars IH]; intros created j pj tj bnj Hp Hc Hn.
  - destruct j; discriminate Hc.
  - cbn [placeBalloons] in *. destruct j as [|j].
    + cbn [nth_error] in Hp, Hc. injection Hp as Hp. injection Hc as -> ->.
      destruct (computeSmartBalloonPlacement_cases tj bnj pageW pageH created total
                  texts origin) as [E|(tp & _ & E)]; cbv zeta in E; rewrite Hp in E.
      * contradiction.
      * destruct (smartSearch_accepted _ _ _ _ _ _ _ _ E) as (x & y & sd & -> & C).
        exists x. split; [reflexivity|].
        intros e He. cbn [firstn flat_map] in He. rewrite app_nil_r in He.
        unfold isClear in C. apply andb_true_iff in C. destruct C as [B _].
        apply (isBlankSpace_apart _ _ _ _ _ _ _ _ _ B He).
    + cbn [nth_error] in Hp, Hc.
      destruct (IH _ _ _ _ _ Hp Hc Hn) as (xj & Ex & A).
      exists xj. split; [exact Ex|].
      intros e He. apply A. cbn [firstn flat_map] in He.
      rewrite <- app_assoc. exact He.
Qed.

Lemma nth_error_firstn_lt {A : Type} (l : list A) (i j : nat) :
  (i < j)%nat -> nth_error (firstn j l) i = nth_error l i.
Proof.
  revert i j. induction l as [|a l IH]; intros i j H.
  - destruct j; destruct i; reflexivity.
  - destruct j; [lia|]. destruct i; [reflexivity|].
    cbn [firstn nth_error]. apply IH. lia.
Qed.

(** X27: in the placement loop of the extraction route, a balloon that does
    not end at its perimeter slot keeps clear of every balloon placed
    before it, whichever way those were placed: the centres are at least
    the diameter plus 5 apart and the circles do not overlap. *)
Theorem placeBalloons_apart :
  forall (pageW pageH : Q) (allTextItems : list Box) (drawingOrigin : Point)
         (createdCharacteristics : list (option Box * Z))
         (i j : nat) (pi pj : Placement) (tj : option Box) (bnj : Z),
  let total := Z.of_nat (List.length createdCharacteristics) in
  let D := inject_Z (calculateBalloonSize total) in
  let placements :=
    placeBalloons pageW pageH total allTextItems drawingOrigin
      createdCharacteristics [] in
  (i < j)%nat ->
  nth_error placements i = Some pi ->
  nth_error placements j = Some pj ->
  nth_error createdCharacteristics j = Some (tj, bnj) ->
  pj <> perimeterSlot bnj total pageW pageH ->
  placedDiameter pi = D /\ placedDiameter pj = D /\
  exists xj, placedX pj = Some xj /\
    forall xi, placedX pi = Some xi ->
      (D + 5) * (D + 5)
      <= (xj - xi) * (xj - xi) + (placedY pj - placedY pi) * (placedY pj - placedY pi) /\
      circlesOverlap xj (placedY pj) D (mkBalloon xi (placedY pi) D) = false.
Proof.
  intros pageW pageH texts origin chars i j pi pj tj bnj total D placements
         Hij Hi Hj Hc Hn.
  pose proof (placeBalloons_diameter pageW pageH total texts origin chars []) as Dm.
  rewrite Forall_forall in Dm.
  assert (Di : placedDiameter pi = D) by (apply Dm; eapply nth_error_In; exact Hi).
  assert (Dj : placedDiameter pj = D) by (apply Dm; eapply nth_error_In; exact Hj).
  split; [exact Di|]. split; [exact Dj|].
  destruct (placeBalloons_apart_from pageW pageH total texts origin chars [] j pj tj bnj
              Hj Hc Hn) as (xj & Ex & A).
  exists xj. split; [exact Ex|]. intros xi Exi.
  assert (T : tooClose xj (placedY pj) (D / 2) (mkBalloon xi (placedY pi) D) = false).
  { apply A. cbn [app]. apply in_flat_map. exists pi. split.
    - apply (nth_error_In _ i). fold placements.
      rewrite nth_error_firstn_lt by exact Hij. exact Hi.
    - unfold pushed. rewrite Exi, Di. left. reflexivity. }
  split.
  - unfold tooClose in T. cbv zeta in T. cbn [xPosition yPosition balloonDiameter] in T.
    rewrite hypot_lt_false in T.
    assert (Dp : 0 < D).
    { unfold D. apply calculateBalloonSize_positive. }
    clearbody D.
    assert (Eq : D / 2 + D / 2 + 5 == D + 5) by field.
    assert (H5 : 0 < D / 2 + D / 2 + 5) by (rewrite Eq; lra).
    specialize (T H5). rewrite Eq in T. exact T.
  - apply tooClose_circlesOverlap. exact T.
Qed.

Lemma placeBalloons_apart_witness :
  placedDiameter (mkPlacement (Some (300 + 40 + 35)) (300 + 10 / 2) SideRight 24)
  = inject_Z (calculateBalloonSize (Z.of_nat 2)) /\
  placedDiameter (mkPlacement (Some (300 - 35)) (300 + 10 / 2) SideLeft 24)
  = inject_Z (calculateBalloonSize (Z.of_nat 2)) /\
  exists xj, placedX (mkPlacement (Some (300 - 35)) (300 + 10 / 2) SideLeft 24) = Some xj /\
    forall xi,
      placedX (mkPlacement (Some (300 + 40 + 35)) (300 + 10 / 2) SideRight 24) = Some xi ->
      (inject_Z (calculateBalloonSize (Z.of_nat 2)) + 5)
      * (inject_Z (calculateBalloonSize (Z.of_nat 2)) + 5)
      <= (xj - xi) * (xj - xi)
         + (300 + 10 / 2 - (300 + 10 / 2)) * (300 + 10 / 2 - (300 + 10 / 2)) /\
      circlesOverlap xj (300 + 10 / 2) (inject_Z (calculateBalloonSize (Z.of_nat 2)))
        (mkBalloon xi (300 + 10 / 2) (inject_Z (calculateBalloonSize (Z.of_nat 2))))
      = false.
Proof.
  apply (placeBalloons_apart 800 600 [] (mkPoint 0 0)
           [(Some sampleTarget, 1%Z); (Some sampleTarget, 2%Z)] 0 1
           (mkPlacement (Some (300 + 40 + 35)) (300 + 10 / 2) SideRight 24)
           (mkPlacement (Some (300 - 35)) (300 + 10 / 2) SideLeft 24)
           (Some sampleTarget) 2%Z).
  - lia.
  - vm_compute. reflexivity.
  - vm_compute. reflexivity.
  - reflexivity.
  - vm_compute. discriminate.
Defined.

(** ** Zone of an auto-placed balloon *)

Lemma Math_round_bounds (q : Q) :
  q - (1 # 2) < inject_Z (Math_round q) <= q + (1 # 2).
Proof.
  unfold Math_round. destruct (Qfloor_bounds (q + (1 # 2))) as [L U]. split; lra.
Qed.

Lemma zone_cell (w h x y : Q) :
  0 < w -> 0 < h -> 0 <= x < w -> 0 < y <= h ->
  exists c r : nat,
    (c < 8)%nat /\ (r < 8)%nat /\
    calculateDrawingZone (Fin x) (Fin y) (Fin w) (Fin h) = Returns (zoneCode c r) /\
    inject_Z (Z.of_nat c) * (w / 8) <= x < (inject_Z (Z.of_nat c) + 1) * (w / 8) /\
    inject_Z (Z.of_nat r) * (h / 8) <= h - y < (inject_Z (Z.of_nat r) + 1) * (h / 8).
Proof.
  intros Hw Hh [Hx0 Hxw] [Hy0 Hyh].
  assert (Hhy0 : 0 <= h - y) by lra.
  assert (Hhyh : h - y < h) by lra.
  pose proof (cell_range x w Hw Hx0) as Cx.
  pose proof (cell_range (h - y) h Hh Hhy0) as Cy.
  pose proof (zone_fin x y w h Hw Hh (proj1 Cx) (proj1 Cy)) as Z0.
  cbv zeta in Z0.
  rewrite (cell_unclamped x w Hw Hxw) in *.
  rewrite (cell_unclamped (h - y) h Hh Hhyh) in *.
  exists (Z.to_nat (Qfloor (x / (w / 8)))), (Z.to_nat (Qfloor ((h - y) / (h / 8)))).
  split; [lia|]. split; [lia|]. split; [exact Z0|].
  rewrite !Z2Nat.id by lia.
  split; apply cell_bounds; assumption.
Qed.

(** X28: a balloon placed by the search always gets a drawing zone from its
    rounded position: the zone calculation of the extraction route does not
    throw for it, and the zone is the grid cell that holds the rounded
    point, never a clamped one. *)
Theorem searchPlacement_zone :
  forall (textPosition : Box) (pageW pageH : Q) (existingBalloons : list Balloon)
         (totalCharacteristics : Z) (allTextItems : list Box)
         (drawingOrigin : Point) (p : Placement),
  smartSearch pageW pageH existingBalloons
    (inject_Z (calculateBalloonSize totalCharacteristics)) allTextItems
    drawingOrigin textPosition = Some p ->
  exists (x : Q) (c r : nat),
    placedX p = Some x /\ (c < 8)%nat /\ (r < 8)%nat /\
    let rx := inject_Z (Math_round x) in
    let ry := inject_Z (Math_round (placedY p)) in
    calculateDrawingZone (Fin rx) (Fin ry) (Fin pageW) (Fin pageH)
    = Returns (zoneCode c r) /\
    inject_Z (Z.of_nat c) * (pageW / 8) <= rx < (inject_Z (Z.of_nat c) + 1) * (pageW / 8) /\
    inject_Z (Z.of_nat r) * (pageH / 8) <= pageH - ry
      < (inject_Z (Z.of_nat r) + 1) * (pageH / 8).
Proof.
  intros tp pageW pageH existing total items origin p H.
  destruct (smartSearch_accepted _ _ _ _ _ _ _ _ H) as (x & y & s & -> & C).
  unfold isClear in C. apply andb_true_iff in C. destruct C as [B _].
  apply isBlankSpace_inside in B. destruct B as [_ (M1 & M2 & M3 & M4)].
  pose proof (calculateBalloonSize_positive total) as Dp.
  set (D := inject_Z (calculateBalloonSize total)) in *. clearbody D.
  assert (Hh : 0 < D / 2).
  { apply Qlt_shift_div_l; [reflexivity|]. rewrite Qmult_0_l. exact Dp. }
  set (half := D / 2) in *. clearbody half.
  unfold MARGIN in *.
  pose proof (Math_round_bounds x) as [Rx1 Rx2].
  pose proof (Math_round_bounds y) as [Ry1 Ry2].
  destruct (zone_cell pageW pageH (inject_Z (Math_round x)) (inject_Z (Math_round y)))
    as (c & r & Hc & Hr & Z0 & Bx & By); try lra.
  exists x, c, r. cbn [placeAt placedX placedY].
  split; [reflexivity|]. split; [exact Hc|]. split; [exact Hr|].
  cbv zeta. split; [exact Z0|]. split; assumption.
Qed.

Lemma searchPlacement_zone_witness :
  exists (x : Q) (c r : nat),
    placedX (mkPlacement (Some (300 + 40 + 35)) (300 + 10 / 2) SideRight 24) = Some x /\
    (c < 8)%nat /\ (r < 8)%nat /\
    let rx := inject_Z (Math_round x) in
    let ry := inject_Z (Math_round (300 + 10 / 2)) in
    calculateDrawingZone (Fin rx) (Fin ry) (Fin 800) (Fin 600)
    = Returns (zoneCode c r) /\
    inject_Z (Z.of_nat c) * (800 / 8) <= rx < (inject_Z (Z.of_nat c) + 1) * (800 / 8) /\
    inject_Z (Z.of_nat r) * (600 / 8) <= 600 - ry
      < (inject_Z (Z.of_nat r) + 1) * (600 / 8).
Proof.
  apply (searchPlacement_zone sampleTarget 800 600 [balloonAtSlot] 2 [] (mkPoint 0 0)
           (mkPlacement (Some (300 + 40 + 35)) (300 + 10 / 2) SideRight 24)).
  vm_compute. reflexivity.
Defined.

(** * The leader calculator in double precision *)

(** ** Double-precision rounding *)

Lemma pow2_pos (z : Z) : 0 < 2 ^ z.
Proof. apply Qpower_0_lt. reflexivity. Qed.

Lemma pow2_plus (a b : Z) : 2 ^ (a + b) == 2 ^ a * 2 ^ b.
Proof. apply Qpower_plus. discriminate. Qed.

Lemma pow2_succ (a : Z) : 2 ^ (a + 1) == 2 * 2 ^ a.
Proof. rewrite pow2_plus. change (2 ^ 1) with 2. ring. Qed.

Lemma pow2_le (a b : Z) : (a <= b)%Z -> 2 ^ a <= 2 ^ b.
Proof. intros H. apply Qpower_le_compat_l; [exact H | discriminate]. Qed.

Lemma pow2_lt (a b : Z) : (a < b)%Z -> 2 ^ a < 2 ^ b.
Proof. intros H. apply Qpower_lt_compat_l; [exact H | reflexivity]. Qed.

Lemma pow2_lt_inv (a b : Z) : 2 ^ a < 2 ^ b -> (a < b)%Z.
Proof. intros H. apply (Qpower_lt_compat_l_inv 2); [exact H | reflexivity]. Qed.

Lemma pow2_inject (a : Z) : (0 <= a)%Z -> inject_Z (2 ^ a) == 2 ^ a.
Proof. intros H. rewrite Zpower_Qpower by exact H. reflexivity. Qed.

Lemma exponent_spec (q : Q) :
  ~ q == 0 ->
  2 ^ Binary64.exponent q <= Qabs q < 2 ^ (Binary64.exponent q + 1).
Proof.
  intros Hq. unfold Binary64.exponent.
  set (n := Z.abs (Qnum q)). set (d := Zpos (Qden q)).
  set (a := Z.log2 n). set (b := Z.log2 d).
  assert (Hn : (0 < n)%Z).
  { unfold n. destruct q as [[|p|p] dq]; cbn; try lia.
    exfalso. apply Hq. reflexivity. }
  assert (Hd : (0 < d)%Z) by (unfold d; lia).
  assert (Ha : (0 <= a)%Z) by apply Z.log2_nonneg.
  assert (Hb : (0 <= b)%Z) by apply Z.log2_nonneg.
  destruct (Z.log2_spec n Hn) as [A1 A2]. fold a in A1, A2.
  destruct (Z.log2_spec d Hd) as [B1 B2]. fold b in B1, B2.
  assert (E : Qabs q == inject_Z n / inject_Z d).
  { destruct q as [nq dq]. unfold n, d. cbn [Qabs Qnum Qden]. apply Qmake_Qdiv. }
  rewrite Zle_Qle, pow2_inject in A1, B1 by assumption.
  rewrite Zlt_Qlt in A2, B2.
  rewrite pow2_inject in A2, B2 by lia.
  unfold Z.succ in A2, B2.
  assert (Dp : 0 < inject_Z d).
  { change 0 with (inject_Z 0). rewrite <- Zlt_Qlt. exact Hd. }
  assert (U : Qabs q < 2 ^ (a - b + 1)).
  { rewrite E. apply Qlt_shift_div_r; [exact Dp|].
    apply Qlt_le_trans with (2 ^ (a + 1)); [exact A2|].
    replace (a + 1)%Z with ((a - b + 1) + b)%Z by lia.
    rewrite (pow2_plus (a - b + 1) b).
    apply Qmult_le_l; [apply pow2_pos | exact B1]. }
  assert (L : 2 ^ (a - b - 1) < Qabs q).
  { rewrite E. apply Qlt_shift_div_l; [exact Dp|].
    apply Qlt_le_trans with (2 ^ a); [|exact A1].
    replace a with ((a - b - 1) + (b + 1))%Z at 2 by lia.
    rewrite (pow2_plus (a - b - 1) (b + 1)).
    apply Qmult_lt_l; [apply pow2_pos | exact B2]. }
  destruct (Qle_bool (2 ^ (a - b)) (Qabs q)) eqn:T.
  - apply Qle_bool_iff in T. split; assumption.
  - replace (a - b - 1 + 1)%Z with (a - b)%Z by lia.
    split; [apply Qlt_le_weak; exact L|].
    apply Qnot_le_lt. intros C. apply Qle_bool_iff in C. congruence.
Qed.

Lemma exponent_unique (q : Q) (e : Z) :
  2 ^ e <= Qabs q -> Qabs q < 2 ^ (e + 1) -> Binary64.exponent q = e.
Proof.
  intros L U.
  assert (Hq : ~ q == 0).
  { intros E. rewrite E in L. pose proof (pow2_pos e) as P.
    change (Qabs 0) with 0 in L. lra. }
  destruct (exponent_spec q Hq) as [L' U'].
  assert (A : (Binary64.exponent q < e + 1)%Z).
  { apply pow2_lt_inv. lra. }
  assert (B : (e < Binary64.exponent q + 1)%Z).
  { apply pow2_lt_inv. lra. }
  lia.
Qed.

Lemma inject_Z_pred (z : Z) : inject_Z (z - 1) == inject_Z z - 1.
Proof.
  unfold Z.sub. rewrite inject_Z_plus, inject_Z_opp. reflexivity.
Qed.

Lemma nearestEven_error (q : Q) :
  - (1 # 2) <= inject_Z (Binary64.nearestEven q) - q <= 1 # 2.
Proof.
  unfold Binary64.nearestEven. destruct (Qfloor_bounds q) as [L U].
  destruct (Qltb (q - inject_Z (Qfloor q)) (1 # 2)) eqn:A.
  - apply Qltb_lt in A. lra.
  - apply Qltb_ge in A.
    destruct (Qltb (1 # 2) (q - inject_Z (Qfloor q))) eqn:B.
    + rewrite inject_Z_plus. change (inject_Z 1) with 1. lra.
    + apply Qltb_ge in B. destruct (Z.even (Qfloor q)).
      * lra.
      * rewrite inject_Z_plus. change (inject_Z 1) with 1. lra.
Qed.

Lemma nearestEven_near (q : Q) (z : Z) :
  - (1 # 2) < q - inject_Z z < 1 # 2 -> Binary64.nearestEven q = z.
Proof.
  intros [L U]. unfold Binary64.nearestEven.
  destruct (Qlt_le_dec q (inject_Z z)) as [C|C].
  - pose proof (inject_Z_pred z) as P.
    assert (F : Qfloor q = (z - 1)%Z) by (apply Qfloor_unique; lra).
    rewrite F.
    destruct (Qltb (q - inject_Z (z - 1)) (1 # 2)) eqn:A.
    + apply Qltb_lt in A. lra.
    + destruct (Qltb (1 # 2) (q - inject_Z (z - 1))) eqn:B; [lia|].
      apply Qltb_ge in B. lra.
  - assert (F : Qfloor q = z) by (apply Qfloor_unique; lra).
    rewrite F.
    destruct (Qltb (q - inject_Z z) (1 # 2)) eqn:A; [reflexivity|].
    apply Qltb_ge in A. lra.
Qed.

Lemma nearestEven_ge (q : Q) (z : Z) :
  inject_Z z <= q -> (z <= Binary64.nearestEven q)%Z.
Proof.
  intros H. apply Qfloor_resp_le in H. rewrite Qfloor_Z in H.
  unfold Binary64.nearestEven.
  destruct (Qltb _ _); [exact H|]. destruct (Qltb _ _); [lia|].
  destruct (Z.even _); lia.
Qed.

Lemma nearestEven_le (q : Q) (z : Z) :
  q <= inject_Z z -> (Binary64.nearestEven q <= z)%Z.
Proof.
  intros H. destruct (Qfloor_bounds q) as [L U].
  assert (F : (Qfloor q <= z)%Z) by (rewrite Zle_Qle; lra).
  unfold Binary64.nearestEven.
  destruct (Qltb (q - inject_Z (Qfloor q)) (1 # 2)) eqn:A; [exact F|].
  apply Qltb_ge in A.
  assert (S : (Qfloor q < z)%Z) by (rewrite Zlt_Qlt; lra).
  destruct (Qltb _ _); [lia|]. destruct (Z.even _); lia.
Qed.

(** The double computed for [q], given the binade of [q] and the nearest
    multiple of the spacing. *)
Lemma round_value (q : Q) (e z : Z) :
  2 ^ e <= Qabs q -> Qabs q < 2 ^ (e + 1) -> (-1022 <= e)%Z ->
  - (2 ^ (e - 52)) < 2 * (q - inject_Z z * 2 ^ (e - 52)) < 2 ^ (e - 52) ->
  Qabs (inject_Z z * 2 ^ (e - 52)) < 2 ^ 1024 ->
  Binary64.round q = Fin (Qred (inject_Z z * 2 ^ (e - 52))).
Proof.
  intros L U He [N1 N2] Hf. unfold Binary64.round.
  assert (Hq : ~ q == 0).
  { intros E. rewrite E in L. pose proof (pow2_pos e) as P.
    change (Qabs 0) with 0 in L. lra. }
  destruct (Qeq_bool q 0) eqn:Z0; [apply Qeq_bool_iff in Z0; contradiction|].
  unfold Binary64.ulp. rewrite (exponent_unique q e L U).
  rewrite Z.max_l by exact He.
  pose proof (pow2_pos (e - 52)) as Up. set (u := 2 ^ (e - 52)) in *.
  assert (M : Binary64.nearestEven (q / u) = z).
  { apply nearestEven_near.
    assert (E : q / u - inject_Z z == (q - inject_Z z * u) / u) by (field; lra).
    rewrite E. split.
    - apply Qlt_shift_div_l; [exact Up|]. lra.
    - apply Qlt_shift_div_r; [exact Up|]. lra. }
  cbv zeta. rewrite M.
  destruct (Qle_bool (2 ^ 1024) (Qabs (inject_Z z * u))) eqn:O; [|reflexivity].
  apply Qle_bool_iff in O. lra.
Qed.

(** A power of two absorbs what is small against it: the sum is rounded
    back to the power. *)
Lemma round_near_pow2 (e : Z) (h : Q) :
  (-1021 <= e <= 1023)%Z -> Qabs h <= 2 ^ (e - 55) ->
  Binary64.round (2 ^ e + h) = Fin (Qred (2 ^ e)).
Proof.
  intros He Hh. apply Qabs_Qle_condition in Hh. destruct Hh as [H1 H2].
  pose proof (pow2_pos (e - 55)) as Bp.
  assert (EP : 2 ^ e == 2 ^ 55 * 2 ^ (e - 55)).
  { rewrite <- pow2_plus. replace (55 + (e - 55))%Z with e by lia. reflexivity. }
  assert (EU : 2 ^ (e - 52) == 2 ^ 3 * 2 ^ (e - 55)).
  { rewrite <- pow2_plus. replace (3 + (e - 55))%Z with (e - 52)%Z by lia. reflexivity. }
  assert (EV : 2 ^ (e - 1 - 52) == 2 ^ 2 * 2 ^ (e - 55)).
  { rewrite <- pow2_plus. replace (2 + (e - 55))%Z with (e - 1 - 52)%Z by lia.
    reflexivity. }
  assert (EH : 2 ^ (e - 1) == 2 ^ 54 * 2 ^ (e - 55)).
  { rewrite <- pow2_plus. replace (54 + (e - 55))%Z with (e - 1)%Z by lia. reflexivity. }
  assert (ED : 2 ^ (e + 1) == 2 ^ 56 * 2 ^ (e - 55)).
  { rewrite <- pow2_plus. replace (56 + (e - 55))%Z with (e + 1)%Z by lia. reflexivity. }
  assert (Top : 2 ^ e < 2 ^ 1024) by (apply pow2_lt; lia).
  set (B := 2 ^ (e - 55)) in *.
  change (2 ^ 55) with 36028797018963968 in EP.
  change (2 ^ 3) with 8 in EU. change (2 ^ 2) with 4 in EV.
  change (2 ^ 54) with 18014398509481984 in EH.
  change (2 ^ 56) with 72057594037927936 in ED.
  destruct (Qlt_le_dec h 0) as [N|P].
  - assert (Z1 : inject_Z (2 ^ 53) * 2 ^ (e - 1 - 52) == 2 ^ e).
    { rewrite EV, EP. change (inject_Z (2 ^ 53)) with 9007199254740992. ring. }
    rewrite (round_value (2 ^ e + h) (e - 1) (2 ^ 53)).
    + f_equal. apply Qred_complete. exact Z1.
    + rewrite Qabs_pos by lra. lra.
    + rewrite Qabs_pos by lra.
      replace (e - 1 + 1)%Z with e by lia. lra.
    + lia.
    + rewrite Z1. lra.
    + rewrite Z1, Qabs_pos by lra. exact Top.
  - assert (Z1 : inject_Z (2 ^ 52) * 2 ^ (e - 52) == 2 ^ e).
    { rewrite EU, EP. change (inject_Z (2 ^ 52)) with 4503599627370496. ring. }
    rewrite (round_value (2 ^ e + h) e (2 ^ 52)).
    + f_equal. apply Qred_complete. exact Z1.
    + rewrite Qabs_pos by lra. lra.
    + rewrite Qabs_pos by lra. lra.
    + lia.
    + rewrite Z1. lra.
    + rewrite Z1, Qabs_pos by lra. exact Top.
Qed.

(** The offsets of the loop stall: a sum that exceeds [2 ^ 57] by 10 or
    less is rounded to [2 ^ 57] or below. *)
Lemma round_stall (q : Q) :
  16 <= q -> q <= 2 ^ 57 + 10 ->
  exists r, Binary64.round q = Fin r /\ 16 <= r <= 2 ^ 57.
Proof.
  intros L U.
  assert (Hq : ~ q == 0) by (intros E; rewrite E in L; lra).
  destruct (exponent_spec q Hq) as [EL EU].
  rewrite Qabs_pos in EL, EU by lra.
  set (e := Binary64.exponent q) in *.
  assert (E4 : (4 <= e)%Z).
  { assert (A : (4 < e + 1)%Z); [|lia].
    apply pow2_lt_inv. change (2 ^ 4) with 16. lra. }
  assert (E57 : (e <= 57)%Z).
  { assert (A : (e < 58)%Z); [|lia].
    apply pow2_lt_inv. change (2 ^ 58) with 288230376151711744.
    change (2 ^ 57) with 144115188075855872 in U. lra. }
  pose proof (pow2_pos (e - 52)) as Up.
  assert (EE : 2 ^ e == inject_Z (2 ^ 52) * 2 ^ (e - 52)).
  { rewrite pow2_inject by lia. rewrite <- pow2_plus.
    replace (52 + (e - 52))%Z with e by lia. reflexivity. }
  assert (ES : 2 ^ (e + 1) == inject_Z (2 ^ 53) * 2 ^ (e - 52)).
  { rewrite pow2_inject by lia. rewrite <- pow2_plus.
    replace (53 + (e - 52))%Z with (e + 1)%Z by lia. reflexivity. }
  assert (V : exists m : Z,
             Binary64.nearestEven (q / 2 ^ (e - 52)) = m /\
             16 <= inject_Z m * 2 ^ (e - 52) <= 2 ^ 57).
  { destruct (Z.eq_dec e 57) as [->|Ne].
    - exists (2 ^ 52)%Z. split.
      + apply nearestEven_near.
        change (2 ^ (57 - 52)) with 32.
        change (2 ^ 57) with 144115188075855872 in *.
        change (inject_Z (2 ^ 52)) with 4503599627370496.
        assert (E : q / 32 - 4503599627370496 == (q - 144115188075855872) / 32)
          by field.
        rewrite E. split.
        * apply Qlt_shift_div_l; [reflexivity|]. lra.
        * apply Qlt_shift_div_r; [reflexivity|]. lra.
      + change (inject_Z (2 ^ 52) * 2 ^ (57 - 52)) with (144115188075855872 * 1 * 1).
        change (2 ^ 57) with 144115188075855872. split; [discriminate | discriminate].
    - eexists. split; [reflexivity|]. split.
      + apply Qle_trans with (2 ^ e).
        * change 16 with (2 ^ 4). apply pow2_le. exact E4.
        * rewrite EE. apply Qmult_le_compat_r; [|lra].
          rewrite <- Zle_Qle. apply nearestEven_ge.
          apply Qle_shift_div_l; [exact Up|]. rewrite <- EE. exact EL.
      + apply Qle_trans with (2 ^ (e + 1)).
        * rewrite ES. apply Qmult_le_compat_r; [|lra].
          rewrite <- Zle_Qle. apply nearestEven_le.
          apply Qle_shift_div_r; [exact Up|]. rewrite <- ES. lra.
        * apply pow2_le. lia. }
  destruct V as (m & M & R1 & R2).
  unfold Binary64.round.
  destruct (Qeq_bool q 0) eqn:Z0; [apply Qeq_bool_iff in Z0; contradiction|].
  unfold Binary64.ulp. fold e. rewrite Z.max_l by lia. cbv zeta. rewrite M.
  destruct (Qle_bool (2 ^ 1024) (Qabs (inject_Z m * 2 ^ (e - 52)))) eqn:O.
  - apply Qle_bool_iff in O. rewrite Qabs_pos in O by lra.
    assert (T : 2 ^ 57 < 2 ^ 1024) by (apply pow2_lt; lia). lra.
  - eexists. split; [reflexivity|]. rewrite Qred_correct. split; assumption.
Qed.

(** Below [2 ^ 51] the doubles are at most a quarter apart. *)
Lemma round_error_small (q : Q) :
  Qabs q < 2 ^ 51 ->
  exists r, Binary64.round q = Fin r /\ - (1 # 8) <= r - q <= 1 # 8.
Proof.
  intros B. unfold Binary64.round.
  destruct (Qeq_bool q 0) eqn:Z0.
  - apply Qeq_bool_iff in Z0. exists 0. split; [reflexivity|]. rewrite Z0.
    split; discriminate.
  - assert (Hq : ~ q == 0) by (intros E; apply Qeq_bool_iff in E; congruence).
    destruct (exponent_spec q Hq) as [EL EU].
    assert (E50 : (Binary64.exponent q <= 50)%Z).
    { assert (A : (Binary64.exponent q < 51)%Z); [|lia].
      apply pow2_lt_inv. lra. }
    unfold Binary64.ulp.
    set (e := Z.max (Binary64.exponent q) (-1022)).
    assert (Ee : (e <= 50)%Z) by (unfold e; lia).
    pose proof (pow2_pos (e - 52)) as Up.
    assert (Uq : 2 ^ (e - 52) <= 1 # 4).
    { change (1 # 4) with (2 ^ (-2)). apply pow2_le. lia. }
    set (u := 2 ^ (e - 52)) in *.
    pose proof (nearestEven_error (q / u)) as [N1 N2].
    set (m := inject_Z (Binary64.nearestEven (q / u))) in *.
    assert (D : m * u - q == (m - q / u) * u) by (field; lra).
    assert (R1 : - (1 # 8) <= m * u - q).
    { rewrite D.
      apply Qle_trans with (- (1 # 2) * u); [lra|].
      apply Qmult_le_compat_r; lra. }
    assert (R2 : m * u - q <= 1 # 8).
    { rewrite D.
      apply Qle_trans with ((1 # 2) * u); [|lra].
      apply Qmult_le_compat_r; lra. }
    cbv zeta.
    destruct (Qle_bool (2 ^ 1024) (Qabs (m * u))) eqn:O.
    + apply Qle_bool_iff in O.
      assert (T : 2 ^ 51 + 1 < 2 ^ 1024) by reflexivity.
      apply Qabs_Qlt_condition in B.
      assert (A : Qabs (m * u) <= 2 ^ 51 + 1).
      { apply Qabs_Qle_condition. lra. }
      lra.
    + eexists. split; [reflexivity|]. rewrite Qred_correct. split; assumption.
Qed.

Lemma round_zero (q : Q) : q == 0 -> Binary64.round q = Fin 0.
Proof.
  intros E. unfold Binary64.round.
  destruct (Qeq_bool q 0) eqn:Z0; [reflexivity|].
  apply Qeq_bool_iff in E. congruence.
Qed.

(** Far out, the leader point computed from offsets up to [2 ^ 57] is the
    position itself. *)
Lemma leaderAt_absorbed (j k : Z) (hd : HorizontalDir) (vd : VerticalDir) (h v : Q) :
  (112 <= j <= 1023)%Z -> (112 <= k <= 1023)%Z ->
  0 <= h <= 2 ^ 57 -> 0 <= v <= 2 ^ 57 ->
  Binary64.leaderAt (Fin (2 ^ j)) (Fin (2 ^ k)) hd vd (Fin h) (Fin v)
  = {| Binary64.leaderX := Fin (Qred (2 ^ j));
       Binary64.leaderY := Fin (Qred (2 ^ k)) |}.
Proof.
  intros Hj Hk Hh Hv.
  assert (Bj : 2 ^ 57 <= 2 ^ (j - 55)) by (apply pow2_le; lia).
  assert (Bk : 2 ^ 57 <= 2 ^ (k - 55)) by (apply pow2_le; lia).
  unfold Binary64.leaderAt. f_equal.
  - destruct hd; cbn [isRight Binary64.neg Binary64.add];
      apply round_near_pow2; try lia; apply Qabs_Qle_condition; lra.
  - destruct vd; cbn [isDown Binary64.neg Binary64.add];
      apply round_near_pow2; try lia; apply Qabs_Qle_condition; lra.
Qed.

Lemma leaderLoop_stalls (j k : Z) (hd : HorizontalDir) (vd : VerticalDir) :
  (112 <= j <= 1023)%Z -> (112 <= k <= 1023)%Z ->
  forall (fuel : nat) (h v : Q),
    15 <= h <= 2 ^ 57 -> 15 <= v <= 2 ^ 57 ->
    Binary64.leaderLoop fuel (Fin (2 ^ j)) (Fin (2 ^ k)) hd vd (Fin h) (Fin v)
      {| Binary64.leaderX := Fin (Qred (2 ^ j));
         Binary64.leaderY := Fin (Qred (2 ^ k)) |}
    = None.
Proof.
  intros Hj Hk. induction fuel as [|fuel IH]; intros h v Hh Hv;
    cbn [Binary64.leaderLoop Binary64.leaderX Binary64.leaderY
         Binary64.sub Binary64.neg Binary64.add];
    rewrite (round_zero (Qred (2 ^ j) + - 2 ^ j)) by (rewrite Qred_correct; ring);
    rewrite (round_zero (Qred (2 ^ k) + - 2 ^ k)) by (rewrite Qred_correct; ring);
    change (Binary64.hypotLt (Fin 0) (Fin 0) MIN_LEADER_DISTANCE) with true;
    cbv iota; [reflexivity|].
  destruct (round_stall (h + 10)) as (h' & -> & Hh'); [lra | lra |].
  destruct (round_stall (v + 5)) as (v' & -> & Hv'); [lra | lra |].
  rewrite leaderAt_absorbed by (try assumption; lra).
  apply IH; lra.
Qed.

(** C8: the guarantee of a leader at distance 5 or more fails far from the
    origin.  At a position whose coordinates are powers of two from
    [2 ^ 112] on, the offsets are lost in the rounding of the sums: the
    leader point is the position itself, the distance is 0, and the offsets,
    which grow by 10 and by 5, stay at [2 ^ 57] or below, where the next
    addition is lost as well.  The loop is still running after any number
    of iterations, for every combination of the direction hints: the call
    never returns. *)
Theorem computeLeaderOffset_never_returns_far_out :
  forall (j k : Z) (fuel : nat) (direction : option Direction),
    (112 <= j <= 1023)%Z -> (112 <= k <= 1023)%Z ->
    Binary64.computeLeaderOffset fuel (Fin (2 ^ j)) (Fin (2 ^ k)) direction = None.
Proof.
  intros j k fuel direction Hj Hk. unfold Binary64.computeLeaderOffset. cbv zeta.
  assert (T : 30 <= 2 ^ 57) by discriminate.
  rewrite leaderAt_absorbed by (try assumption; lra).
  apply leaderLoop_stalls; try assumption; lra.
Qed.

Lemma computeLeaderOffset_never_returns_far_out_witness :
  Binary64.computeLeaderOffset 100 (Fin (2 ^ 1000)) (Fin (2 ^ 1000)) None = None.
Proof.
  apply (computeLeaderOffset_never_returns_far_out 1000 1000 100 None); lia.
Defined.

(** On the page the first offsets are returned as they are; at
    [2 ^ 60], where the doubles are 256 apart, the first test fails and the
    loop runs ten times, until the horizontal offset of 130 is rounded up
    to 256, and the vertical offset is lost. *)
Example computeLeaderOffset_binary64_samples :
  Binary64.computeLeaderOffset 0 (Fin 100) (Fin 200) None
  = Some {| Binary64.leaderX := Fin 130; Binary64.leaderY := Fin 215 |} /\
  Binary64.computeLeaderOffset 9 (Fin (2 ^ 60)) (Fin (2 ^ 60)) None = None /\
  Binary64.computeLeaderOffset 10 (Fin (2 ^ 60)) (Fin (2 ^ 60)) None
  = Some {| Binary64.leaderX := Fin (2 ^ 60 + 256); Binary64.leaderY := Fin (2 ^ 60) |}.
Proof. repeat split; vm_compute; reflexivity. Qed.

Lemma square_far (d : Q) : 29 <= d \/ d <= - (29) -> 25 <= d * d.
Proof.
  intros [H|H].
  - apply Qle_trans with (5 * 5); [discriminate|].
    apply Qsquare_le; lra.
  - setoid_replace (d * d) with ((- d) * (- d)) by ring.
    apply Qle_trans with (5 * 5); [discriminate|].
    apply Qsquare_le; lra.
Qed.

Lemma leaderLoop_exits (fuel : nat) (x y : Q)
    (hd : HorizontalDir) (vd : VerticalDir) (dx dy : Q) :
  Qabs x <= 2 ^ 50 -> Qabs y <= 2 ^ 50 ->
  dx == 30 \/ dx == - (30) -> dy == 15 \/ dy == - (15) ->
  exists lx ly : Q,
    Binary64.leaderLoop fuel (Fin x) (Fin y) hd vd (Fin 30) (Fin 15)
      {| Binary64.leaderX := Binary64.add (Fin x) (Fin dx);
         Binary64.leaderY := Binary64.add (Fin y) (Fin dy) |}
    = Some {| Binary64.leaderX := Fin lx; Binary64.leaderY := Fin ly |} /\
    Binary64.round (x + dx) = Fin lx /\ Binary64.round (y + dy) = Fin ly /\
    - (1 # 8) <= lx - (x + dx) <= 1 # 8 /\
    - (1 # 8) <= ly - (y + dy) <= 1 # 8 /\
    MIN_LEADER_DISTANCE * MIN_LEADER_DISTANCE
    <= (lx - x) * (lx - x) + (ly - y) * (ly - y).
Proof.
  intros Hx Hy Dx Dy.
  apply Qabs_Qle_condition in Hx. apply Qabs_Qle_condition in Hy.
  change (2 ^ 50) with 1125899906842624 in Hx, Hy.
  destruct (round_error_small (x + dx)) as (lx & Rx & Lx).
  { apply Qabs_Qlt_condition. change (2 ^ 51) with 2251799813685248.
    destruct Dx as [D|D]; rewrite D; lra. }
  destruct (round_error_small (y + dy)) as (ly & Ry & Ly).
  { apply Qabs_Qlt_condition. change (2 ^ 51) with 2251799813685248.
    destruct Dy as [D|D]; rewrite D; lra. }
  destruct (round_error_small (lx + - x)) as (ex & Rex & Lex).
  { apply Qabs_Qlt_condition. change (2 ^ 51) with 2251799813685248.
    destruct Dx as [D|D]; rewrite D in Lx; lra. }
  destruct (round_error_small (ly + - y)) as (ey & Rey & Ley).
  { apply Qabs_Qlt_condition. change (2 ^ 51) with 2251799813685248.
    destruct Dy as [D|D]; rewrite D in Ly; lra. }
  assert (Far : MIN_LEADER_DISTANCE * MIN_LEADER_DISTANCE
                <= (lx - x) * (lx - x) + (ly - y) * (ly - y)).
  { pose proof (Qsquare_nonneg (ly - y)) as S.
    assert (F : 25 <= (lx - x) * (lx - x)).
    { apply square_far. destruct Dx as [D|D]; rewrite D in Lx; [left|right]; lra. }
    unfold MIN_LEADER_DISTANCE. setoid_replace (5 * 5) with 25 by reflexivity. lra. }
  exists lx, ly.
  split; [|split; [exact Rx|split; [exact Ry|split; [exact Lx|split; [exact Ly|exact Far]]]]].
  cbn [Binary64.add]. rewrite Rx, Ry.
  assert (T : Binary64.hypotLt
                (Binary64.sub (Fin lx) (Fin x)) (Binary64.sub (Fin ly) (Fin y))
                MIN_LEADER_DISTANCE = false).
  { cbn [Binary64.sub Binary64.neg Binary64.add]. rewrite Rex, Rey.
    cbn [Binary64.hypotLt]. apply hypot_lt_false. intros _.
    unfold MIN_LEADER_DISTANCE.
    pose proof (Qsquare_nonneg ey) as S.
    assert (F : 25 <= ex * ex).
    { apply square_far. destruct Dx as [D|D]; rewrite D in Lx; [left|right]; lra. }
    setoid_replace (5 * 5) with 25 by reflexivity. lra. }
  destruct fuel; cbn [Binary64.leaderLoop Binary64.leaderX Binary64.leaderY];
    rewrite T; reflexivity.
Qed.

(** X4: at a position whose coordinates are at most [2 ^ 50] in absolute
    value, the body of the loop never runs.  The leader point returned is
    the rounded sum of the position and the first offsets, 30 to the right
    (to the left with the hint left) and 15 down (up with the hint up),
    each coordinate within 1/8 of the exact sum, and it lies at distance 5
    or more from the position. *)
Theorem computeLeaderOffset_page_scale :
  forall (fuel : nat) (x y : Q) (direction : option Direction),
    Qabs x <= 2 ^ 50 -> Qabs y <= 2 ^ 50 ->
    let dx := match direction with
              | Some {| horizontal := Some Left |} => - (30)
              | _ => 30
              end in
    let dy := match direction with
              | Some {| vertical := Some Up |} => - (15)
              | _ => 15
              end in
    exists lx ly : Q,
      Binary64.computeLeaderOffset fuel (Fin x) (Fin y) direction
      = Some {| Binary64.leaderX := Fin lx; Binary64.leaderY := Fin ly |} /\
      Binary64.round (x + dx) = Fin lx /\ Binary64.round (y + dy) = Fin ly /\
      - (1 # 8) <= lx - (x + dx) <= 1 # 8 /\
      - (1 # 8) <= ly - (y + dy) <= 1 # 8 /\
      MIN_LEADER_DISTANCE * MIN_LEADER_DISTANCE
      <= (lx - x) * (lx - x) + (ly - y) * (ly - y).
Proof.
  intros fuel x y direction Hx Hy. unfold Binary64.computeLeaderOffset.
  destruct direction as [[[[|]|] [[|]|]]|]; cbv zeta;
    apply (leaderLoop_exits fuel x y _ _ _ _ Hx Hy);
    first [left; reflexivity | right; reflexivity].
Qed.

Lemma computeLeaderOffset_page_scale_witness :
  exists lx ly : Q,
    Binary64.computeLeaderOffset 0 (Fin (1 # 10)) (Fin 200)
      (Some {| horizontal := Some Left; vertical := None |})
    = Some {| Binary64.leaderX := Fin lx; Binary64.leaderY := Fin ly |} /\
    Binary64.round ((1 # 10) + - (30)) = Fin lx /\ Binary64.round (200 + 15) = Fin ly /\
    - (1 # 8) <= lx - ((1 # 10) + - (30)) <= 1 # 8 /\
    - (1 # 8) <= ly - (200 + 15) <= 1 # 8 /\
    MIN_LEADER_DISTANCE * MIN_LEADER_DISTANCE
    <= (lx - (1 # 10)) * (lx - (1 # 10)) + (ly - 200) * (ly - 200).
Proof.
  apply (computeLeaderOffset_page_scale 0 (1 # 10) 200
           (Some {| horizontal := Some Left; vertical := None |}));
    apply Qabs_Qle_condition; split; discriminate.
Defined.
